(** * wgpu-py code generator: a shallow embedding of [codegen-script.py]

    The script cross-checks two parsed catalogs (webgpu.idl and wgpu.h),
    builds the enum translation table, emits the Flags / Enum containers
    and patches the hand-written API files.  The development below embeds
    the script function by function:

    - [Py]        the Python [str] methods the script calls (ASCII text),
    - [result]    exceptions as values,
    - [dict]      insertion-ordered dictionaries,
    - the reconciler loops, [blacken], [get_func_id_match], the scanner and
      the patch loop, and the emitted [Flags] / [Enum] classes,
    - the text of the three generated modules and the run as a whole.

    Strings are sequences of 8-bit characters; the case and white-space
    predicates are those of Python on the ASCII range, characters above
    127 are treated as caseless and non-blank. *)

From Stdlib Require Import Ascii ZArith Lia DecimalString.
From Stdlib Require String.
From stdpp Require Import base option list strings sorting gmap.

Set Default Proof Using "Type".

(** ** Python string methods *)

Module Py.

Definition code (c : ascii) : nat := nat_of_ascii c.

Definition isupper (c : ascii) : bool :=
  (65 <=? code c)%nat && (code c <=? 90)%nat.

Definition islower (c : ascii) : bool :=
  (97 <=? code c)%nat && (code c <=? 122)%nat.

(** [str.isspace] on one ASCII character: TAB, LF, VT, FF, CR, the four
    separators 0x1c-0x1f and the blank. *)
Definition isspace (c : ascii) : bool :=
  ((9 <=? code c)%nat && (code c <=? 13)%nat)
  || ((28 <=? code c)%nat && (code c <=? 32)%nat).

Definition tolower (c : ascii) : ascii :=
  if isupper c then ascii_of_nat (code c + 32) else c.

Definition toupper (c : ascii) : ascii :=
  if islower c then ascii_of_nat (code c - 32) else c.

Fixpoint map_chars (f : ascii → ascii) (s : string) : string :=
  match s with
  | EmptyString => EmptyString
  | String c s' => String (f c) (map_chars f s')
  end.

(** [s.lower()] *)
Definition lower (s : string) : string := map_chars tolower s.

(** [s.title()]: a cased character is upper-cased when the character
    before it is not cased, and lower-cased otherwise. *)
Fixpoint title_from (previous_is_cased : bool) (s : string) : string :=
  match s with
  | EmptyString => EmptyString
  | String c s' =>
      if islower c then
        String (if previous_is_cased then c else toupper c)
               (title_from true s')
      else if isupper c then
        String (if previous_is_cased then tolower c else c)
               (title_from true s')
      else String c (title_from false s')
  end.

Definition title (s : string) : string := title_from false s.

(** [len(s)] *)
Definition len (s : string) : nat := String.length s.

(** [s.startswith(p)] *)
Definition startswith (s p : string) : bool := String.prefix p s.

(** [s.endswith(p)] *)
Definition endswith (s p : string) : bool :=
  String.prefix (String.rev p) (String.rev s).

(** [p in s] for strings *)
Fixpoint contains (s p : string) : bool :=
  match s with
  | EmptyString => String.prefix p EmptyString
  | String _ s' => String.prefix p s || contains s' p
  end.

(** [s[n:]] for a non-negative literal [n] *)
Fixpoint slice_from (n : nat) (s : string) : string :=
  match n, s with
  | O, _ => s
  | S _, EmptyString => EmptyString
  | S n', String _ s' => slice_from n' s'
  end.

(** [s.replace(old, new)] for a non-empty [old]: occurrences are found
    left to right and do not overlap.  [skip] counts the characters of a
    matched occurrence that are still to be dropped. *)
Fixpoint replace_from (skip : nat) (old new s : string) : string :=
  match s with
  | EmptyString => EmptyString
  | String c s' =>
      match skip with
      | S k => replace_from k old new s'
      | O =>
          if String.prefix old s
          then new +:+ replace_from (len old - 1) old new s'
          else String c (replace_from 0 old new s')
      end
  end.

Definition replace (s old new : string) : string :=
  replace_from 0 old new s.

(** [s.split(sep)] for a non-empty [sep]; the result is never empty. *)
Fixpoint split_from (skip : nat) (sep s : string) : list string :=
  match s with
  | EmptyString => [EmptyString]
  | String c s' =>
      match skip with
      | S k => split_from k sep s'
      | O =>
          if String.prefix sep s
          then EmptyString :: split_from (len sep - 1) sep s'
          else match split_from 0 sep s' with
               | p :: ps => String c p :: ps
               | [] => [String c EmptyString]
               end
      end
  end.

Definition split (s sep : string) : list string := split_from 0 sep s.

(** [s.split(sep, 1)]: cut at the first occurrence only. *)
Fixpoint cut (sep s : string) : option (string * string) :=
  match s with
  | EmptyString => None
  | String c s' =>
      if String.prefix sep s
      then Some (EmptyString, slice_from (len sep) s)
      else match cut sep s' with
           | Some (before, after) => Some (String c before, after)
           | None => None
           end
  end.

Definition split1 (s sep : string) : list string :=
  match cut sep s with
  | Some (before, after) => [before; after]
  | None => [s]
  end.

Definition starts_word (s : string) : bool :=
  match s with
  | EmptyString => false
  | String c _ => negb (isspace c)
  end.

(** [s.split()]: the maximal runs of non-blank characters. *)
Fixpoint words (s : string) : list string :=
  match s with
  | EmptyString => []
  | String c s' =>
      if isspace c then words s'
      else if starts_word s' then
        match words s' with
        | w :: ws => String c w :: ws
        | [] => [String c EmptyString]
        end
      else String c EmptyString :: words s'
  end.

(** [s.lstrip()] *)
Fixpoint lstrip (s : string) : string :=
  match s with
  | EmptyString => EmptyString
  | String c s' => if isspace c then lstrip s' else s
  end.

(** [s.rstrip()] *)
Fixpoint rstrip (s : string) : string :=
  match s with
  | EmptyString => EmptyString
  | String c s' =>
      match rstrip s' with
      | EmptyString => if isspace c then EmptyString else String c EmptyString
      | r => String c r
      end
  end.

(** [s.strip()] *)
Definition strip (s : string) : string := lstrip (rstrip s).

(** [sep.join(l)] *)
Definition join (sep : string) (l : list string) : string :=
  String.concat sep l.

Definition islinebreak (c : ascii) : bool :=
  ((10 <=? code c)%nat && (code c <=? 13)%nat)
  || ((28 <=? code c)%nat && (code c <=? 30)%nat).

(** [s.splitlines()]: a line ends at LF, CR, CR LF, VT, FF or one of the
    separators 0x1c-0x1e; the text after the last break is a line only
    when it is not empty.  [after_cr] holds when the previous character
    was a CR, whose LF is then dropped. *)
Fixpoint splitlines_from (after_cr : bool) (s : string) : list string :=
  match s with
  | EmptyString => []
  | String c s' =>
      if after_cr && bool_decide (c = "010"%char)
      then splitlines_from false s'
      else if islinebreak c
      then EmptyString :: splitlines_from (bool_decide (c = "013"%char)) s'
      else match splitlines_from false s' with
           | l :: ls => String c l :: ls
           | [] => [String c EmptyString]
           end
  end.

Definition splitlines (s : string) : list string := splitlines_from false s.

(** [" " * n] *)
Fixpoint spaces (n : nat) : string :=
  match n with
  | O => EmptyString
  | S n' => String " " (spaces n')
  end.

(** The truth value of a string: empty is false. *)
Definition truthy (s : string) : bool :=
  match s with EmptyString => false | _ => true end.

End Py.

(** ** Exceptions as values *)

Inductive exn : Type :=
  | IndexError
  | KeyError (key : string)
  | AssertionError
  | TypeError
  | RuntimeError (msg : string).

Inductive result (A : Type) : Type :=
  | Ok (a : A)
  | Raise (e : exn).
Arguments Ok {A} a.
Arguments Raise {A} e.

(** [result] is a monad; stdpp's [x ← r; k] sequences two steps and stops
    at the first exception. *)
Global Instance result_ret : MRet result := fun A a => Ok a.
Global Instance result_bind : MBind result := fun A B k r =>
  match r with
  | Ok a => k a
  | Raise e => Raise e
  end.

Definition is_ok {A} (r : result A) : bool :=
  match r with Ok _ => true | Raise _ => false end.

(** [l[-1]], [l[-2]] and [l[i]] raise [IndexError] out of range. *)
Definition item {A} (l : list A) (i : nat) : result A :=
  match l !! i with
  | Some a => Ok a
  | None => Raise IndexError
  end.

Definition item_last {A} (l : list A) : result A :=
  match last l with
  | Some a => Ok a
  | None => Raise IndexError
  end.

Definition item_last2 {A} (l : list A) : result A :=
  match reverse l with
  | _ :: a :: _ => Ok a
  | _ => Raise IndexError
  end.

(** A [for] loop over a list with a pure body, and one whose body may
    raise. *)
Definition for_ {A S} (l : list A) (body : A → S → S) (s : S) : S :=
  foldl (fun s a => body a s) s l.

Fixpoint for_r {A S} (l : list A) (body : A → S → result S) (s : S)
  : result S :=
  match l with
  | [] => Ok s
  | a :: l' => s' ← body a s; for_r l' body s'
  end.

(** ** Insertion-ordered dictionaries *)

Definition dict (V : Type) : Type := list (string * V).

Section dict.
Context {V : Type}.

Definition keys (d : dict V) : list string := d.*1.
Definition values (d : dict V) : list V := d.*2.

(** [d.get(k)] *)
Fixpoint get (d : dict V) (k : string) : option V :=
  match d with
  | [] => None
  | (k', v) :: d' => if decide (k' = k) then Some v else get d' k
  end.

(** [k in d] *)
Definition has (d : dict V) (k : string) : bool :=
  match get d k with Some _ => true | None => false end.

(** [d[k]] *)
Definition getitem (d : dict V) (k : string) : result V :=
  match get d k with
  | Some v => Ok v
  | None => Raise (KeyError k)
  end.

(** [d[k] = v]: an existing key keeps its position. *)
Fixpoint setitem (d : dict V) (k : string) (v : V) : dict V :=
  match d with
  | [] => [(k, v)]
  | (k', v') :: d' =>
      if decide (k' = k) then (k', v) :: d' else (k', v') :: setitem d' k v
  end.

End dict.

(** ** [get_func_id_match] *)

(** The three spellings tried for an identifier, in order. *)
Definition func_id_tries (func_id : string) : list string :=
  [func_id; Py.replace func_id "async" ""; func_id +:+ "async"].

(** The [for] loop with its early [return]; falling off the end returns
    [None]. *)
Fixpoint first_in {V} (tries : list string) (d : dict V) : option string :=
  match tries with
  | [] => None
  | func_id_try :: rest =>
      if has d func_id_try then Some func_id_try else first_in rest d
  end.

Definition get_func_id_match {V} (func_id : string) (d : dict V)
  : option string :=
  first_in (func_id_tries func_id) d.

(** [not get_func_id_match(func_id, d)]: no match, or an empty one. *)
Definition unmatched {V} (func_id : string) (d : dict V) : bool :=
  match get_func_id_match func_id d with
  | Some func_id_match => negb (Py.truthy func_id_match)
  | None => true
  end.

(** ** The two catalogs and the report *)

(** A field of a structure, as the parsers hand it over.  [py_arg] is the
    text that the field's [py_arg()] method returns; the parsers are in
    [wgpu._parsers], outside this script, and the rendering is taken as
    part of the catalog. *)
Module Field.
Record t : Type := mk { name : string; typename : string; py_arg : string }.
End Field.

(** [ip]: the catalog parsed from webgpu.idl. *)
Module IdlParser.
Record t : Type := mk {
  flags : dict (dict Z);
  enums : dict (dict string);
  structs : dict (dict Field.t);
  functions : dict string
}.
End IdlParser.

(** [hp]: the catalog parsed from wgpu.h. *)
Module HParser.
Record t : Type := mk {
  flags : dict (dict Z);
  enums : dict (dict Z);
  structs : dict (dict Field.t)
}.
End HParser.

(** What the script has written so far: the console, and the lines of
    codegen_report.md.  One entry per call of [print], without the final
    newline. *)
Record Out : Type := mkOut { stdout : list string; report_file : list string }.

Definition no_output : Out := mkOut [] [].

(** The script's own [print]: the arguments go to the console, and to the
    report behind a bullet unless the first one is a heading. *)
Definition print (args : list string) (o : Out) : Out :=
  let bulleted :=
    match args with
    | a0 :: _ =>
        if negb (Py.startswith (Py.lstrip a0) "#") then "* " :: args else args
    | [] => args
    end in
  mkOut (stdout o ++ [Py.join " " args])
        (report_file o ++ [Py.join " " bulleted]).

(** ** Comparing enums and building [enummap] *)

Record St : Type := mkSt { enummap : dict Z; out : Out }.

Definition say (msg : string) (st : St) : St :=
  mkSt (enummap st) (print [msg] (out st)).

(** Lines 122-124: the native spelling of an IDL enum value. *)
Definition hkey_of (ikey : string) : string :=
  let hkey := ikey in
  let hkey :=
    Py.replace (Py.replace (Py.replace hkey "1d" "D1") "2d" "D2") "3d" "D3" in
  Py.replace (Py.title (Py.replace hkey "-" " ")) " " "".

(** Lines 121-128, the body of the inner loop for one value [ikey] of the
    enum [name]; [henum] is [hp.enums[name]]. *)
Definition enum_value (name : string) (henum : dict Z) (ikey : string)
    (st : St) : St :=
  let hkey := hkey_of ikey in
  match get henum hkey with
  | Some code => mkSt (setitem (enummap st) (name +:+ "." +:+ ikey) code) (out st)
  | None => say (name +:+ "." +:+ ikey +:+ " is missing") st
  end.

(** Lines 118-128, the body of the outer loop.  [name] ranges over the keys
    of [hp.enums], so the first lookup cannot fail. *)
Definition enum_entry (hp : HParser.t) (ip : IdlParser.t) (name : string)
    (st : St) : St :=
  match get (IdlParser.enums ip) name, get (HParser.enums hp) name with
  | None, _ => st
  | Some ienum, Some henum => for_ (values ienum) (enum_value name henum) st
  | Some _, None => st
  end.

(** Lines 111-128. *)
Definition compare_enums (hp : HParser.t) (ip : IdlParser.t) (st : St) : St :=
  let st := say (String "010" "### Comparing enums") st in
  let st :=
    for_ (keys (HParser.enums hp))
      (fun name st =>
         if negb (has (IdlParser.enums ip) name)
         then say (name +:+ " enum missing in .idl") st else st) st in
  let st :=
    for_ (keys (IdlParser.enums ip))
      (fun name st =>
         if negb (has (HParser.enums hp) name)
         then say (name +:+ "enum missing in .h") st else st) st in
  for_ (keys (HParser.enums hp)) (enum_entry hp ip) st.

(** The table as the script builds it: [enummap = {}] on line 88, then the
    comparison. *)
Definition build_enummap (hp : HParser.t) (ip : IdlParser.t) (o : Out) : St :=
  compare_enums hp ip (mkSt [] o).

(** ** Comparing structs *)

Definition quote : ascii := "'"%char.
Definition dquote : ascii := "034"%char.
Definition backslash : ascii := "092"%char.

Definition hexdigit (n : nat) : ascii :=
  if (n <? 10)%nat then ascii_of_nat (48 + n) else ascii_of_nat (87 + n).

(** [repr] of a string: single quotes unless the text has a single and no
    double quote; the quote and the backslash are escaped, control
    characters are written as escapes. *)
Definition repr_char (q c : ascii) : string :=
  if decide (c = q) then String backslash (String c "")
  else if decide (c = backslash) then String backslash (String backslash "")
  else if decide (c = "010"%char) then String backslash "n"
  else if decide (c = "013"%char) then String backslash "r"
  else if decide (c = "009"%char) then String backslash "t"
  else if (Py.code c <? 32)%nat || (Py.code c =? 127)%nat then
    String backslash
      (String "x" (String (hexdigit (Py.code c / 16))
                          (String (hexdigit (Py.code c mod 16)) "")))
  else String c "".

Fixpoint repr_chars (q : ascii) (s : string) : string :=
  match s with
  | EmptyString => EmptyString
  | String c s' => repr_char q c +:+ repr_chars q s'
  end.

Definition repr (s : string) : string :=
  let q :=
    if Py.contains s (String quote "") && negb (Py.contains s (String dquote ""))
    then dquote else quote in
  String q (repr_chars q s +:+ String q "").

(** [str(l)] for a list of strings. *)
Definition str_list (l : list string) : string :=
  "[" +:+ Py.join ", " (repr <$> l) +:+ "]".

(** Line 142: the native field name, normalised. *)
Definition norm_native (key : string) : string :=
  Py.replace (Py.replace (Py.lower key) "_length" "") "_" "".

(** Lines 140-149 for one [name] present in both catalogs. *)
Definition struct_members (name : string) (hstruct istruct : dict Field.t)
    (o : Out) : Out :=
  let keys1 := keys hstruct in
  let keys2 := keys istruct in
  let keys3 : gset string := list_to_set (norm_native <$> keys1) in
  let keys4 : gset string := list_to_set (Py.lower <$> keys2) in
  let keys3 := keys3 ∖ {["todo"]} in
  let keys4 := keys4 ∖ {["label"]} in
  if decide (keys3 ≠ keys4) then
    print ["i: " +:+ str_list keys2]
      (print ["c: " +:+ str_list keys1]
         (print [" " +:+ name] o))
  else o.

(** Lines 137-149, the body of the loop. *)
Definition struct_entry (hp : HParser.t) (ip : IdlParser.t) (name : string)
    (o : Out) : Out :=
  match get (IdlParser.structs ip) name, get (HParser.structs hp) name with
  | None, _ => o
  | Some istruct, Some hstruct => struct_members name hstruct istruct o
  | Some _, None => o
  end.

(** Lines 137-149. *)
Definition compare_struct_members (hp : HParser.t) (ip : IdlParser.t)
    (o : Out) : Out :=
  for_ (keys (HParser.structs hp)) (struct_entry hp ip) o.

(** Lines 130-149. *)
Definition compare_structs (hp : HParser.t) (ip : IdlParser.t) (o : Out) : Out :=
  let o := print [String "010" "### Comparing structs"] o in
  let o :=
    for_ (keys (HParser.structs hp))
      (fun name o =>
         if negb (has (IdlParser.structs ip) name)
         then print [name +:+ " struct missing in .idl"] o else o) o in
  let o :=
    for_ (keys (IdlParser.structs ip))
      (fun name o =>
         if negb (has (HParser.structs hp) name)
         then print [name +:+ " struct missing in .h"] o else o) o in
  compare_struct_members hp ip o.

(** ** [blacken] *)

Definition nl : string := String "010" "".

(** [f"{n}"] for a count. *)
Definition str_nat (n : nat) : string := NilEmpty.string_of_uint (Nat.to_uint n).

(** A recorded function: its qualified name, line index and indent. *)
Abbreviation api_function := (string * nat * nat)%type.

Section codegen.

(** The formatter process: the line length given with [-l] and the text
    on its standard input determine what it writes to its standard
    output and to its standard error. *)
Variable black : Z → string → string * string.

(** Line 31: every line loses what follows a [# noqa:]. *)
Definition remove_noqas (src : string) : string :=
  Py.join nl ((fun line => default "" (head (Py.split line "# noqa:")))
                <$> Py.splitlines src).

(** Lines 48-49: signatures that the formatter still spreads over three
    lines are joined. *)
Definition join_signatures (result : string) : string :=
  Py.replace
    (Py.replace result ("(" +:+ nl +:+ "        self") "(self")
    ("," +:+ nl +:+ "    ):" +:+ nl) ("):" +:+ nl).

Definition blacken (src : string) (singleline : bool) : result string :=
  let src := if singleline then remove_noqas src else src in
  let ll := if singleline then 9999999%Z else 88%Z in
  let '(result, log) := black ll src in
  if Py.contains (Py.lower log) "error" then Raise (RuntimeError log)
  else Ok (if singleline then join_signatures result else result).

(** ** Patching one hand-written file *)

Definition startswith_any (s : string) (prefixes : list string) : bool :=
  existsb (Py.startswith s) prefixes.

Definition starts : list string := ["# IDL: "; "# wgpu.help("].

(** Lines 298-304. *)
Definition read_api_lines (code : string) : result (list string) :=
  text ← blacken code true;
  let api_lines := Py.splitlines text in
  let api_lines :=
    Py.rstrip <$>
      List.filter (fun line => negb (startswith_any (Py.lstrip line) starts))
        api_lines in
  Ok (api_lines ++ [""]).

Record Scan : Type :=
  mkScan { current_class : option string; api_functions : dict api_function }.

(** [api_lines[i - 1]]: index [-1] is the last line. *)
Definition line_before (api_lines : list string) (i : nat) : result string :=
  match i with
  | O => item_last api_lines
  | S j => item api_lines j
  end.

(** Line 319-321. *)
Definition func_id_of (funcname : string) : string :=
  let func_id := Py.lower (Py.replace funcname "." "") in
  if Py.startswith funcname "GPU" then Py.slice_from 3 func_id else func_id.

(** Lines 310-322, the body of the scanning loop: the class the line
    leaves us in, and the function it declares, if it is an exposed one. *)
Definition scan_line (api_lines : list string) (i : nat) (line : string)
    (current_class : option string)
  : result (option string * option (string * api_function)) :=
  current_class ←
    (if Py.startswith line "class " then
       p ← item (Py.split line ":") 0;
       p ← item (Py.split p "(") 0;
       w ← item_last (Py.words p);
       Ok (Some w)
     else Ok current_class);
  if startswith_any (Py.lstrip line) ["def "; "async def"] then
    let indent := (Py.len line - Py.len (Py.lstrip line))%nat in
    p ← item (Py.split line "(") 0;
    funcname ← item_last (Py.words p);
    if negb (Py.startswith funcname "_") then
      before ← line_before api_lines i;
      if negb (Py.startswith (Py.lstrip before) "@property") then
        funcname ←
          (if bool_decide (indent ≠ 0%nat) then
             match current_class with
             | Some c => Ok (c +:+ "." +:+ funcname)
             | None => Raise TypeError
             end
           else Ok funcname);
        let func_id := func_id_of funcname in
        Ok (current_class, Some (func_id, (funcname, i, indent)))
      else Ok (current_class, None)
    else Ok (current_class, None)
  else Ok (current_class, None).

(** Line 322: [api_functions[func_id] = funcname, i, indent]. *)
Definition record_function (api_functions : dict api_function)
    (found : option (string * api_function)) : dict api_function :=
  match found with
  | Some (func_id, f) => setitem api_functions func_id f
  | None => api_functions
  end.

(** Lines 307-322. *)
Definition detect_api_functions (api_lines : list string)
  : result (dict api_function) :=
  st ← for_r (imap pair api_lines)
         (fun '(i, line) st =>
            '(current_class, found) ←
               scan_line api_lines i line (current_class st);
            Ok (mkScan current_class (record_function (api_functions st) found)))
         (mkScan None []);
  Ok (api_functions st).

(** The exposed functions of the file, one entry per declaration and in
    file order: what the scanning loop assigns to [api_functions], before
    a later assignment to the same key replaces an earlier one. *)
Definition exposed_functions (api_lines : list string)
  : result (list (string * api_function)) :=
  st ← for_r (imap pair api_lines)
         (fun '(i, line) '(current_class, seen) =>
            '(current_class, found) ← scan_line api_lines i line current_class;
            Ok (current_class, seen ++ option_list found))
         (None, []);
  Ok (st.2).

(** [l.insert(i, x)] *)
Definition insert_at {A} (i : nat) (x : A) (l : list A) : list A :=
  take i l ++ x :: drop i l.

(** A line that the patcher may have written itself. *)
Definition is_marker (line : string) : bool :=
  startswith_any (Py.lstrip line) starts.

(** Lines 334-336: the parameter names and types of an IDL declaration. *)
Definition idl_args (line : string) : result (list string) :=
  after ← item (Py.split1 line "(") 1;
  inner ← item (Py.split1 after ")") 0;
  Ok (List.filter (fun arg => Py.truthy (Py.strip arg)) (Py.split inner ",")).

Definition before_default (arg : string) : result (list string) :=
  p ← item (Py.split arg "=") 0; Ok (Py.words p).

Definition idl_argnames (args : list string) : result (list string) :=
  mapM (fun arg => ws ← before_default arg; item_last ws) args.

Definition idl_argtypes (args : list string) : result (list string) :=
  mapM (fun arg => ws ← before_default arg; item_last2 ws) args.

(** Line 340: one parameter, of a type named [...Options] or
    [...Descriptor]. *)
Definition is_descriptor (argtypes : list string) : bool :=
  match argtypes with
  | [t] => existsb (Py.endswith t) ["Options"; "Descriptor"]
  | _ => false
  end.

Definition label_default : string :=
  "label=" +:+ String dquote (String dquote "").

(** Lines 340-353: the new text of the signature line. *)
Definition new_signature (ip : IdlParser.t) (func_id pyline : string)
    (argnames argtypes : list string) : result string :=
  py_args ←
    (if is_descriptor argtypes then
       t ← item argtypes 0;
       if negb (Py.startswith t "GPU") then Raise AssertionError else
       arg_struct ← getitem (IdlParser.structs ip) (Py.slice_from 3 t);
       let py_args := Field.py_arg <$> values arg_struct in
       first ← item py_args 0;
       let py_args :=
         if bool_decide (first = "label: str")
         then <[0%nat := label_default]> py_args else py_args in
       Ok (if Py.contains func_id "requestadapter"
           then ["*"] ++ py_args
           else ["self"; "*"] ++ py_args)
     else Ok (["self"] ++ argnames));
  p ← item (Py.split pyline "(") 0;
  Ok (p +:+ "(" +:+ Py.join ", " py_args +:+ "):").

Definition help_comment (indent : nat) (searches : list string) : string :=
  Py.spaces indent +:+ "# wgpu.help(" +:+ Py.join ", " searches +:+ ", dev=True)".

Definition idl_comment (indent : nat) (line : string) : string :=
  Py.spaces indent +:+ "# IDL: " +:+ line.

(** Lines 326-359, the body of the patch loop.  The state is the list of
    lines and the counter. *)
Definition patch_func (fname : string) (ip : IdlParser.t)
    (api_functions : dict api_function) (func_id : string)
    (st : list string * nat) : result (list string * nat) :=
  let '(api_lines, count) := st in
  if unmatched func_id (IdlParser.functions ip) then Ok st else
  match get_func_id_match func_id (IdlParser.functions ip) with
  | None => Ok st
  | Some func_id_match =>
      '(funcname, i, indent) ← getitem api_functions func_id;
      let count := (count + 1)%nat in
      line ← getitem (IdlParser.functions ip) func_id_match;
      pyline ← item api_lines i;
      let searches := [func_id_match] in
      args ← idl_args line;
      argnames ← idl_argnames args;
      argtypes ← idl_argtypes args;
      let searches :=
        searches ++
        (Py.slice_from 3 <$>
           List.filter (fun arg => Py.startswith arg "GPU") argtypes) in
      let searches :=
        (fun x => String quote x +:+ String quote "") <$> searches in
      sig ← new_signature ip func_id pyline argnames argtypes;
      let api_lines := <[i := sig]> api_lines in
      let api_lines :=
        if bool_decide (fname = "base.py")
        then insert_at i (idl_comment indent line) api_lines
        else api_lines in
      let api_lines := insert_at i (help_comment indent searches) api_lines in
      Ok (api_lines, count)
  end.

(** Lines 325-359. *)
Definition inject (fname : string) (ip : IdlParser.t)
    (api_functions : dict api_function) (api_lines : list string)
  : result (list string * nat) :=
  for_r (reverse (keys api_functions))
    (patch_func fname ip api_functions) (api_lines, 0%nat).

(** Lines 362-369. *)
Definition report_missing (ip : IdlParser.t)
    (api_functions : dict api_function) (count : nat) (o : Out) : Out :=
  let o :=
    print ["Found " +:+ str_nat count +:+ " functions already implemented"] o in
  let o :=
    for_ (keys (IdlParser.functions ip))
      (fun func_id o =>
         if unmatched func_id api_functions then
           match get (IdlParser.functions ip) func_id with
           | Some line => print ["Not implemented: " +:+ line] o
           | None => o
           end
         else o) o in
  for_ (keys api_functions)
    (fun func_id o =>
       if unmatched func_id (IdlParser.functions ip) then
         match get api_functions func_id with
         | Some (funcname, _, _) =>
             print ["Found unknown function " +:+ funcname] o
         | None => o
         end
       else o) o.

(** Lines 294-375, the body of the loop over the two files; [code] is
    the content of the file and the result its new content. *)
Definition patch_file (fname : string) (ip : IdlParser.t) (code : string)
    (o : Out) : result (string * Out) :=
  let o := print [nl +:+ "### Check functions in " +:+ fname] o in
  api_lines ← read_api_lines code;
  api_functions ← detect_api_functions api_lines;
  '(api_lines, count) ← inject fname ip api_functions api_lines;
  let o := report_missing ip api_functions count o in
  code ← blacken (Py.join nl api_lines) false;
  Ok (code, print ["Injected IDL lines into " +:+ fname] o).

End codegen.

(** ** The emitted [Flags] and [Enum] classes *)

Inductive pyval : Type :=
  | VInt (z : Z)
  | VStr (s : string).

Inductive attr_result (A : Type) : Type :=
  | Found (a : A)
  | AttributeError.
Arguments Found {A} a.
Arguments AttributeError {A}.

(** An instance is its attribute dictionary.  [__init__] stores the name
    under [_name] and then every keyword argument, in order. *)
Definition instance : Type := dict pyval.

Definition init (name : string) (kwargs : dict pyval) : instance :=
  for_ kwargs (fun '(key, val) self => setitem self key val)
    (setitem [] "_name" (VStr name)).

(** The parameters of [__init__]: a keyword argument with one of these
    names is a second value for that parameter. *)
Definition init_params : list string := ["self"; "name"].

(** [cls(name, **kwargs)] for the two emitted classes: a keyword called
    [self] or [name] makes the call raise TypeError before the body of
    [__init__] runs; any other call returns the instance that [__init__]
    has filled. *)
Definition new (name : string) (kwargs : dict pyval) : result instance :=
  if existsb (fun key => bool_decide (key ∈ init_params)) (keys kwargs)
  then Raise TypeError
  else Ok (init name kwargs).

(** What [dir] adds for the class and for [object]: the three methods
    defined in the class body and the attributes every class has. *)
Definition class_dir : list string :=
  ["__init__"; "__iter__"; "__repr__"; "__module__"; "__dict__";
   "__weakref__"; "__doc__"; "__class__"; "__delattr__"; "__dir__";
   "__eq__"; "__format__"; "__ge__"; "__getattribute__"; "__gt__";
   "__hash__"; "__init_subclass__"; "__le__"; "__lt__"; "__ne__";
   "__new__"; "__reduce__"; "__reduce_ex__"; "__setattr__"; "__sizeof__";
   "__str__"; "__subclasshook__"].

(** [dir(self)]: every attribute name once, sorted. *)
Definition dir (self : instance) : list string :=
  merge_sort String.le (remove_dups (class_dir ++ keys self)).

(** [[key for key in dir(self) if not key.startswith("_")]] *)
Definition public_names (self : instance) : list string :=
  List.filter (fun key => negb (Py.startswith key "_")) (dir self).

(** [getattr(self, key)] for a data attribute. *)
Definition getattr (self : instance) (key : string) : attr_result pyval :=
  match get self key with
  | Some v => Found v
  | None => AttributeError
  end.

Module Flags.
(** [list(iter(self))] *)
Definition iter (self : instance) : list string := public_names self.

(** The call [Flags(name, **d)]: what the statement that [flags.py] holds
    for [name] evaluates, the members of [ip.flags[name]] being its
    keyword arguments, in catalog order. *)
Definition make (name : string) (d : dict Z) : result instance :=
  new name (prod_map id VInt <$> d).
End Flags.

Module Enum.
(** [list(iter(self))] *)
Definition iter (self : instance) : list (attr_result pyval) :=
  getattr self <$> public_names self.

(** The call [Enum(name, **d)]: what the statement that [enums.py] holds
    for [name] evaluates. *)
Definition make (name : string) (d : dict string) : result instance :=
  new name (prod_map id VStr <$> d).
End Enum.

(** ** The wording of the specification, for comparison *)

(** "Capitalized": the first character in upper case, the rest in lower
    case. *)
Definition capitalize (w : string) : string :=
  match w with
  | EmptyString => EmptyString
  | String c w' => String (Py.toupper c) (Py.lower w')
  end.

(** "Replace 1d/2d/3d with D1/D2/D3, convert hyphen-separated words to
    concatenated capitalized words." *)
Definition worded_hkey (m : string) : string :=
  let t :=
    Py.replace (Py.replace (Py.replace m "1d" "D1") "2d" "D2") "3d" "D3" in
  Py.join "" (capitalize <$> Py.split t "-").

(** ** Statements about the translation table *)

(** An entry of [enummap] that comes from an enumeration of both catalogs:
    its key is [name.member] for a value [member] of [ip.enums[name]], and
    its code is what [hp.enums[name]] stores under the native spelling of
    [member]. *)
Definition entry_ok (hp : HParser.t) (ip : IdlParser.t) (e : string * Z) : Prop :=
  ∃ name ienum henum member,
    e.1 = name +:+ "." +:+ member ∧
    get (HParser.enums hp) name = Some henum ∧
    get (IdlParser.enums ip) name = Some ienum ∧
    member ∈ values ienum ∧
    get henum (hkey_of member) = Some e.2.

Definition table_ok (hp : HParser.t) (ip : IdlParser.t) (st : St) : Prop :=
  Forall (entry_ok hp ip) (enummap st).

(** What one pass over a member leaves behind: the key in the table, or
    the diagnostic on the console. *)
Definition settled (name : string) (henum : dict Z) (m : string) (st : St)
  : Prop :=
  match get henum (hkey_of m) with
  | Some _ => has (enummap st) (name +:+ "." +:+ m) = true
  | None => name +:+ "." +:+ m +:+ " is missing" ∈ stdout (out st)
  end.

(** The catalogs of the PowerPreference scenario; [low] and [high] are the
    native codes of LowPower and HighPerformance. *)
Definition power_hp (low high : Z) : HParser.t :=
  HParser.mk []
    [("PowerPreference", [("LowPower", low); ("HighPerformance", high)])] [].

Definition power_ip : IdlParser.t :=
  IdlParser.mk []
    [("PowerPreference",
      [("low_power", "low-power"); ("high_performance", "high-performance")])]
    [] [].

(** A texture format whose name has a letter after a digit. *)
Definition texture_hp : HParser.t :=
  HParser.mk [] [("TextureFormat", [("Rgba8Unorm", 18%Z)])] [].

Definition texture_ip : IdlParser.t :=
  IdlParser.mk [] [("TextureFormat", [("rgba8unorm", "rgba8unorm")])] [] [].

(** Two enumerations whose entries share the key "A.B.c". *)
Definition dotted_hp : HParser.t :=
  HParser.mk [] [("A.B", [("C", 1%Z)]); ("A", [("B.C", 2%Z)])] [].

Definition dotted_ip : IdlParser.t :=
  IdlParser.mk [] [("A.B", [("c", "c")]); ("A", [("b_c", "B.c")])] [] [].

(** ** Statements about the struct comparison *)

(** The set of the native side, by its members: the field names in lower
    case, without "_length" and without underscores, except "todo". *)
Definition native_names (hstruct : dict Field.t) (x : string) : Prop :=
  x ≠ "todo" ∧
  ∃ key, key ∈ keys hstruct ∧
         x = Py.replace (Py.replace (Py.lower key) "_length" "") "_" "".

(** The set of the interface side: the field names in lower case, except
    "label". *)
Definition interface_names (istruct : dict Field.t) (x : string) : Prop :=
  x ≠ "label" ∧ ∃ key, key ∈ keys istruct ∧ x = Py.lower key.

(** The three console lines of a member mismatch. *)
Definition mismatch_report (name : string) (hstruct istruct : dict Field.t)
  : list string :=
  [" " +:+ name;
   "c: " +:+ str_list (keys hstruct);
   "i: " +:+ str_list (keys istruct)].

(** What the loop of lines 137-149 prints while it visits [name]. *)
Definition struct_lines (hp : HParser.t) (ip : IdlParser.t) (name : string)
  : list string :=
  stdout (struct_entry hp ip name no_output).

(** ** Statements about the patcher *)

(** [line.split("(")[0]]: the text of a line before its parameter list. *)
Definition before_paren (line : string) : string :=
  default "" (head (Py.split line "(")).

(** The lines that the patched file has in place of one line of the
    original: marker comments, if any were injected, and then one line,
    which reads as the original one up to the parameter list and is the
    original one when nothing was injected. *)
Definition block_of (line : string) (block : list string) : Prop :=
  ∃ comments final,
    block = comments ++ [final]
    ∧ Forall (fun c => is_marker c = true) comments
    ∧ before_paren final = before_paren line
    ∧ (comments = [] → final = line).

(** The dictionary that the scanning loop builds from the exposed
    functions. *)
Definition as_dict (seen : list (string * api_function)) : dict api_function :=
  foldl (fun d '(func_id, f) => setitem d func_id f) [] seen.

(** The line at which [api_functions] records a key. *)
Definition line_of (api_functions : dict api_function) (func_id : string) : nat :=
  match get api_functions func_id with
  | Some (_, i, _) => i
  | None => 0%nat
  end.

(** The line of an exposed function. *)
Definition recorded_line (e : string * api_function) : nat := e.2.1.2.

(** Lines 333-338: the arguments of [wgpu.help]. *)
Definition help_searches (func_id_match : string) (argtypes : list string)
  : list string :=
  (fun x => String quote x +:+ String quote "")
    <$> ([func_id_match]
           ++ (Py.slice_from 3
                 <$> List.filter (fun arg => Py.startswith arg "GPU") argtypes)).

(** Lines 350-359: the signature stored at line [i] and the comments
    inserted above it. *)
Definition injected (fname : string) (i indent : nat) (line : string)
    (searches : list string) (sig : string) (api_lines : list string)
  : list string :=
  let api_lines := <[i := sig]> api_lines in
  let api_lines :=
    if bool_decide (fname = "base.py")
    then insert_at i (idl_comment indent line) api_lines
    else api_lines in
  insert_at i (help_comment indent searches) api_lines.

(** ** Concrete inputs *)

(** A structure whose native side has a field that the interface lacks. *)
Definition buffer_hp : HParser.t :=
  HParser.mk [] []
    [("BufferDescriptor",
      [("todo", Field.mk "todo" "int" ""); ("size", Field.mk "size" "uint64_t" "");
       ("usage", Field.mk "usage" "WGPUBufferUsage" "")])].

(** The interface catalog of the BufferDescriptor scenario.  The label
    renders as "label: str", the text that line 344 looks for; the
    rendering of the size field is [size_arg]. *)
Definition buffer_ip_with (size_arg : string) : IdlParser.t :=
  IdlParser.mk [] []
    [("BufferDescriptor",
      [("label", Field.mk "label" "str" "label: str");
       ("size", Field.mk "size" "int" size_arg)])]
    [("devicecreatebuffer",
      "GPUBuffer createBuffer(GPUBufferDescriptor descriptor);")].

Definition buffer_ip : IdlParser.t := buffer_ip_with "size".

(** A formatter that leaves the text alone and writes nothing to its
    standard error. *)
Definition silent_black : Z → string → string * string := fun _ src => (src, "").

(** A formatter that leaves the text alone and reports success on its
    standard error, as the real one does. *)
Definition chatty_black : Z → string → string * string :=
  fun _ src =>
    (src, "reformatted -" +:+ nl +:+ "All done!" +:+ nl +:+ "1 file reformatted.").

(** A formatter that rejects its input. *)
Definition failing_black : Z → string → string * string :=
  fun _ src => ("", "error: cannot format -: Cannot parse: 1:4: x = (").

(** A hand-written file with one function of the interface and one that
    the interface does not know. *)
Definition device_code : string :=
  Py.join nl
    ["class GPUDevice:";
     "    def createBuffer(self, descriptor):";
     "        pass";
     "";
     "    def foo(self):";
     "        pass";
     ""].

(** A file in which a method and a function have the same normalised
    identifier, "devicefoo". *)
Definition clash_code : string :=
  Py.join nl
    ["class GPUDevice:";
     "    def foo(self):";
     "        pass";
     "";
     "";
     "def devicefoo():";
     "    pass";
     ""].

(** An interface catalog without functions. *)
Definition empty_ip : IdlParser.t := IdlParser.mk [] [] [] [].

(** An interface catalog that declares createBuffer and lacks the
    structure of its parameter. *)
Definition no_struct_ip : IdlParser.t :=
  IdlParser.mk [] [] []
    [("devicecreatebuffer",
      "GPUBuffer createBuffer(GPUBufferDescriptor descriptor);")].



(** The file of [device_code] after the patch, for "base.py". *)
Definition device_code_patched : string :=
  Py.join nl
    ["class GPUDevice:";
     "    # wgpu.help('devicecreatebuffer', 'BufferDescriptor', dev=True)";
     "    # IDL: GPUBuffer createBuffer(GPUBufferDescriptor descriptor);";
     "    def createBuffer(self, *, " +:+ label_default +:+ ", size):";
     "        pass";
     "";
     "    def foo(self):";
     "        pass";
     ""].

Definition device_report_file : list string :=
  [nl +:+ "### Check functions in base.py";
   "*  Found 1 functions already implemented";
   "*  Found unknown function GPUDevice.foo";
   "*  Injected IDL lines into base.py"].

Definition device_report : list string :=
  [nl +:+ "### Check functions in base.py";
   "Found 1 functions already implemented";
   "Found unknown function GPUDevice.foo";
   "Injected IDL lines into base.py"].

(** ** Comparing flags *)

(** [str(n)] and [repr(n)] of an integer. *)
Definition str_int (z : Z) : string := NilZero.string_of_int (Z.to_int z).

(** [a == b] for two dictionaries: as many entries, and every key of [a]
    is a key of [b] with an equal value. *)
Definition dict_eqb {V} `{EqDecision V} (a b : dict V) : bool :=
  bool_decide (length a = length b)
  && forallb (fun '(k, v) => bool_decide (get b k = Some v)) a.

(** Lines 105 and 108: the members of a flag set, as [key:val]. *)
Definition flag_items (d : dict Z) : string :=
  Py.join ", " ((fun '(key, val) => key +:+ ":" +:+ str_int val) <$> d).

(** Lines 102-109 for one [name] present in both catalogs. *)
Definition flag_members (name : string) (hflags iflags : dict Z) (o : Out)
  : Out :=
  if negb (dict_eqb hflags iflags) then
    print ["i: " +:+ flag_items iflags]
      (print ["c: " +:+ flag_items hflags]
         (print [" " +:+ name] o))
  else o.

(** Lines 99-109, the body of the loop. *)
Definition flag_entry (hp : HParser.t) (ip : IdlParser.t) (name : string)
    (o : Out) : Out :=
  match get (IdlParser.flags ip) name, get (HParser.flags hp) name with
  | None, _ => o
  | Some iflags, Some hflags => flag_members name hflags iflags o
  | Some _, None => o
  end.

(** Lines 99-109. *)
Definition compare_flag_members (hp : HParser.t) (ip : IdlParser.t)
    (o : Out) : Out :=
  for_ (keys (HParser.flags hp)) (flag_entry hp ip) o.

(** Lines 92-109. *)
Definition compare_flags (hp : HParser.t) (ip : IdlParser.t) (o : Out) : Out :=
  let o := print [String "010" "### Comparing flags"] o in
  let o :=
    for_ (keys (HParser.flags hp))
      (fun name o =>
         if negb (has (IdlParser.flags ip) name)
         then print [" " +:+ name +:+ " flag missing in .idl"] o else o) o in
  let o :=
    for_ (keys (IdlParser.flags ip))
      (fun name o =>
         if negb (has (HParser.flags hp) name)
         then print [name +:+ " flag missing in .h"] o else o) o in
  compare_flag_members hp ip o.

(** ** The generated modules *)

Definition dq : string := String dquote "".







(** Line 268: the entry of [cstructfield2enum] for one field. *)
Definition field_line (structname fieldname enumname : string) : string :=
  "    " +:+ dq +:+ structname +:+ "." +:+ fieldname +:+ dq +:+ ": "
  +:+ dq +:+ enumname +:+ dq +:+ ",".

(** Lines 263-268: the loop that fills [cstructfield2enum]. *)
Definition cstructfield2enum (hp : HParser.t) (ip : IdlParser.t)
    (pylines : list string) : list string :=
  for_ (HParser.structs hp)
    (fun '(structname, struct) pylines =>
       for_ (values struct)
         (fun field pylines =>
            if Py.startswith (Field.typename field) "WGPU" then
              let enumname := Py.slice_from 4 (Field.typename field) in
              if has (IdlParser.enums ip) enumname then
                pylines ++ [field_line structname (Field.name field) enumname]
              else pylines
            else pylines)
         pylines)
    pylines.


(** ** The statements of the generated modules *)










(** ** The whole run *)


Section run.

Variable black : Z → string → string * string.



End run.

(** ** Statements about the report *)


(** ** Statements about the flag comparison *)

(** The three console lines of a flag mismatch. *)
Definition flag_report (name : string) (hflags iflags : dict Z) : list string :=
  [" " +:+ name; "c: " +:+ flag_items hflags; "i: " +:+ flag_items iflags].

(** What the loop of lines 99-109 prints while it visits [name]. *)
Definition flag_lines (hp : HParser.t) (ip : IdlParser.t) (name : string)
  : list string :=
  stdout (flag_entry hp ip name no_output).

(** ** Statements about lines of text *)

(** A text with a line break in it. *)
Fixpoint has_linebreak (s : string) : bool :=
  match s with
  | EmptyString => false
  | String c s' => Py.islinebreak c || has_linebreak s'
  end.

(** ** Statements about the scanner *)

(** Line 312: a line that declares a function. *)
Definition is_def_line (line : string) : bool :=
  startswith_any (Py.lstrip line) ["def "; "async def"].

(** Line 313. *)
Definition indent_of (line : string) : nat :=
  (Py.len line - Py.len (Py.lstrip line))%nat.

(** ** Statements about the function report *)

(** The identifiers of [api_functions] that the patch loop rewrites. *)
Definition matched_keys (ip : IdlParser.t) (api_functions : dict api_function)
  : list string :=
  List.filter (fun k => negb (unmatched k (IdlParser.functions ip)))
    (keys api_functions).

(** The identifiers of [api_functions] that the report calls unknown. *)
Definition unknown_keys (ip : IdlParser.t) (api_functions : dict api_function)
  : list string :=
  List.filter (fun k => unmatched k (IdlParser.functions ip))
    (keys api_functions).

(** The identifiers of the interface that the report calls not
    implemented. *)
Definition missing_keys (ip : IdlParser.t) (api_functions : dict api_function)
  : list string :=
  List.filter (fun k => unmatched k api_functions)
    (keys (IdlParser.functions ip)).


(** The catalogs of a run in which both sides know the enumeration
    TextureFormat and the structure BufferDescriptor, and disagree on the
    flag set BufferUsage. *)
Definition run_hp : HParser.t :=
  HParser.mk
    [("BufferUsage", [("MAP_READ", 1%Z); ("MAP_WRITE", 2%Z)])]
    [("TextureFormat", [("Rgba8Unorm", 18%Z)])]
    [("BufferDescriptor",
      [("todo", Field.mk "todo" "int" ""); ("size", Field.mk "size" "uint64_t" "");
       ("format", Field.mk "format" "WGPUTextureFormat" "")])].

Definition run_ip : IdlParser.t :=
  IdlParser.mk
    [("BufferUsage", [("MAP_READ", 1%Z); ("MAP_WRITE", 4%Z)])]
    [("TextureFormat", [("rgba8unorm", "rgba8unorm")])]
    [("BufferDescriptor",
      [("label", Field.mk "label" "str" "label: str");
       ("size", Field.mk "size" "int" "size")])]
    [("devicecreatebuffer",
      "GPUBuffer createBuffer(GPUBufferDescriptor descriptor);")].

(** The scan of [device_code]. *)
Definition device_lines : list string :=
  ["class GPUDevice:"; "    def createBuffer(self, descriptor):";
   "        pass"; ""; "    def foo(self):"; "        pass"; ""].

Definition device_functions : dict api_function :=
  [("devicecreatebuffer", ("GPUDevice.createBuffer", 1%nat, 4%nat));
   ("devicefoo", ("GPUDevice.foo", 4%nat, 4%nat))].

(** Line 311: the name that a class line declares. *)
Definition class_word (line : string) : option string :=
  last (Py.words (before_paren (default "" (head (Py.split line ":"))))).

(** The value of [current_class] after the lines [lines]: the name of the
    last class line among them. *)
Definition class_in_force (lines : list string) : option string :=
  foldl (fun cls line => if Py.startswith line "class " then class_word line else cls)
    None lines.

(** What the scanning loop does with line [i] of the file: the body of
    the loop, with the class of the last class line above. *)
Definition scan_at (api_lines : list string) (i : nat) (line : string)
  : result (option string * option (string * api_function)) :=
  scan_line api_lines i line (class_in_force (take i api_lines)).

(** ** Statements about characters *)

(** No character of [s] is [c]. *)
Fixpoint lacks (c : ascii) (s : string) : bool :=
  match s with
  | EmptyString => true
  | String x s' => negb (bool_decide (x = c)) && lacks c s'
  end.

(** The lines of [clash_code], and a file whose first function is a
    method outside any class. *)
Definition clash_lines : list string :=
  ["class GPUDevice:"; "    def foo(self):"; "        pass"; ""; "";
   "def devicefoo():"; "    pass"; ""].

Definition orphan_lines : list string :=
  ["    def foo(self):"; "        pass"; ""].

(** ** Statements about the comparison report *)

(** The names of [names] for which [known] fails, each in the message
    [msg]. *)
Definition missing_lines (names : list string) (known : string → bool)
    (msg : string → string) : list string :=
  msg <$> List.filter (fun name => negb (known name)) names.

(** What the loop of lines 118-128 prints while it visits [name]: one
    line for each member of the interface side whose native spelling the
    native side lacks. *)
Definition enum_lines (hp : HParser.t) (ip : IdlParser.t) (name : string)
  : list string :=
  match get (IdlParser.enums ip) name, get (HParser.enums hp) name with
  | Some ienum, Some henum =>
      (fun m => name +:+ "." +:+ m +:+ " is missing")
        <$> List.filter (fun m => negb (has henum (hkey_of m))) (values ienum)
  | _, _ => []
  end.

(** ** Statements about IDL declarations *)

(** Lines 335-336: the words of a parameter before its default value. *)
Definition arg_words (arg : string) : list string :=
  Py.words (default "" (head (Py.split arg "="))).

(** Lines 327-359 for one recorded function, seen from its line: the
    lines that the body of the patch loop puts in the place of the
    declaration [pyline] of the function [func_id].  Without a match the
    declaration stays; with one, the help comment, for base.py the IDL
    comment, and the new signature. *)
Definition block_for (fname : string) (ip : IdlParser.t) (func_id : string)
    (indent : nat) (pyline : string) : result (list string) :=
  match get_func_id_match func_id (IdlParser.functions ip) with
  | None => Ok [pyline]
  | Some func_id_match =>
      if negb (Py.truthy func_id_match) then Ok [pyline] else
      line ← getitem (IdlParser.functions ip) func_id_match;
      args ← idl_args line;
      argnames ← idl_argnames args;
      argtypes ← idl_argtypes args;
      sig ← new_signature ip func_id pyline argnames argtypes;
      Ok ([help_comment indent (help_searches func_id_match argtypes)]
          ++ (if bool_decide (fname = "base.py")
              then [idl_comment indent line] else [])
          ++ [sig])
  end.

(** ** Statements about a second run *)

(** A line of the patched file beside the line of the original file that
    it stands for: the same line, or a rewritten declaration, which reads
    as the original one up to the parenthesis. *)
Definition same_or_rewritten (line final : string) : Prop :=
  final = line
  ∨ (is_def_line line = true ∧ before_paren final = before_paren line).

(** * Properties *)

(** ** Dictionaries and loops *)

Section dict_facts.
Context {V : Type}.
Implicit Types (d : dict V) (k : string) (v : V).

Lemma get_Some_elem d k v : get d k = Some v → (k, v) ∈ d.
Proof.
  induction d as [|[k' v'] d IH]; simpl; [done|].
  case_decide as Hk.
  - intros [= ->]. subst. left.
  - intros ?. right. auto.
Qed.

Lemma get_Some_keys d k v : get d k = Some v → k ∈ keys d.
Proof.
  intros H%get_Some_elem. unfold keys.
  apply list_elem_of_fmap. by exists (k, v).
Qed.

Lemma get_None_keys d k : get d k = None ↔ k ∉ keys d.
Proof.
  unfold keys. induction d as [|[k' v'] d IH]; simpl.
  - split; [intros _; apply not_elem_of_nil | done].
  - rewrite not_elem_of_cons. case_decide as Hk.
    + split; [done | intros [? _]; congruence].
    + rewrite IH. split; [intros ?; split; [by intros ->|done] | by intros [_ ?]].
Qed.

Lemma has_keys d k : has d k = true ↔ k ∈ keys d.
Proof.
  unfold has. destruct (get d k) as [v|] eqn:E.
  - split; [intros _; by eapply get_Some_keys | done].
  - apply get_None_keys in E. split; [done | intros; by exfalso].
Qed.

Lemma has_false_keys d k : has d k = false ↔ k ∉ keys d.
Proof. rewrite <- has_keys. by destruct (has d k). Qed.

Lemma get_setitem_eq d k v : get (setitem d k v) k = Some v.
Proof.
  induction d as [|[k' v'] d IH]; simpl.
  - by rewrite decide_True.
  - case_decide as Hk; simpl.
    + by rewrite decide_True.
    + by rewrite decide_False.
Qed.

Lemma get_setitem_ne d k k' v : k ≠ k' → get (setitem d k v) k' = get d k'.
Proof.
  intros Hne. induction d as [|[k0 v0] d IH]; simpl.
  - by rewrite decide_False.
  - destruct (decide (k0 = k)) as [->|]; simpl.
    + by rewrite !decide_False.
    + by rewrite IH.
Qed.

Lemma has_setitem d k k' v : has d k' = true → has (setitem d k v) k' = true.
Proof.
  unfold has. destruct (decide (k = k')) as [->|].
  - by rewrite get_setitem_eq.
  - by rewrite get_setitem_ne.
Qed.

Lemma Forall_setitem (P : string * V → Prop) d k v :
  Forall P d → P (k, v) → Forall P (setitem d k v).
Proof.
  intros Hd Hk. induction Hd as [|[k' v'] d Hx Hd IH]; simpl.
  - by repeat constructor.
  - case_decide; subst; by constructor.
Qed.

(** Assigning to a key that is not there yet appends the entry. *)
Lemma setitem_fresh d k v : k ∉ keys d → setitem d k v = d ++ [(k, v)].
Proof.
  unfold keys. induction d as [|[k' v'] d IH]; simpl; [done|].
  rewrite not_elem_of_cons. intros [Hne Hd].
  rewrite decide_False by done. by rewrite IH.
Qed.
End dict_facts.

Section loop_facts.
Context {A S : Type}.
Implicit Types (l : list A) (body : A → S → S) (s : S).

Lemma for__cons a l body s : for_ (a :: l) body s = for_ l body (body a s).
Proof. done. Qed.

Lemma for__app l1 l2 body s :
  for_ (l1 ++ l2) body s = for_ l2 body (for_ l1 body s).
Proof. unfold for_. by rewrite foldl_app. Qed.

(** A property that every iteration preserves holds after the loop. *)
Lemma for__invariant (P : S → Prop) l body s :
  (∀ a s, a ∈ l → P s → P (body a s)) → P s → P (for_ l body s).
Proof.
  revert s. induction l as [|a l IH]; intros s Hstep Hs; [done|].
  rewrite for__cons. apply IH.
  - intros a' s' Ha'. apply Hstep. by right.
  - apply Hstep; [left | done].
Qed.

(** A property that one iteration establishes and every iteration
    preserves holds after the loop. *)
Lemma for__established (P : S → Prop) l body a s :
  a ∈ l →
  (∀ s, P (body a s)) →
  (∀ a' s, P s → P (body a' s)) →
  P (for_ l body s).
Proof.
  intros Ha Hest Hpres. apply list_elem_of_split in Ha as (l1 & l2 & ->).
  rewrite for__app, for__cons.
  apply for__invariant; [intros; by apply Hpres | apply Hest].
Qed.
End loop_facts.

(** ** [get_func_id_match] *)

Lemma first_in_Some {V} (tries : list string) (d : dict V) (r : string) :
  first_in tries d = Some r ↔
  ∃ i, tries !! i = Some r ∧ r ∈ keys d ∧
       ∀ j t, (j < i)%nat → tries !! j = Some t → t ∉ keys d.
Proof.
  induction tries as [|t tries IH]; simpl.
  { split; [done | by intros (i & ? & _)]. }
  destruct (has d t) eqn:Ht.
  - apply has_keys in Ht. split.
    + intros [= <-]. exists 0%nat. repeat split; [done|]. intros; lia.
    + intros ([|i] & Hi & Hr & Hbefore); simpl in Hi; [congruence|].
      destruct (Hbefore 0%nat t); [lia | done | done].
  - apply has_false_keys in Ht. rewrite IH. split.
    + intros (i & Hi & Hr & Hbefore). exists (S i). repeat split; [done..|].
      intros [|j] t' Hj; simpl; [by intros [= <-] | apply Hbefore; lia].
    + intros ([|i] & Hi & Hr & Hbefore); simpl in Hi.
      * congruence.
      * exists i. repeat split; [done..|].
        intros j t' Hj. apply (Hbefore (S j)). lia.
Qed.

Lemma first_in_None {V} (tries : list string) (d : dict V) :
  first_in tries d = None ↔ ∀ t, t ∈ tries → t ∉ keys d.
Proof.
  induction tries as [|t tries IH]; simpl.
  { split; [intros _ t Ht; by apply elem_of_nil in Ht | done]. }
  destruct (has d t) eqn:Ht.
  - apply has_keys in Ht. split; [done|].
    intros H. destruct (H t); [left | done].
  - apply has_false_keys in Ht. rewrite IH. split.
    + intros H t' [->|Ht']%elem_of_cons; auto.
    + intros H t' Ht'. apply H. by right.
Qed.

(** C5. [get_func_id_match(func_id, d)] returns the first of the three
    candidates [func_id], [func_id] without "async", [func_id] followed by
    "async" (in this order) that is a key of [d], and returns no match
    exactly when none of the three is a key of [d]. *)
Theorem get_func_id_match_first_candidate {V} (func_id : string) (d : dict V) :
  let candidates :=
    [func_id; Py.replace func_id "async" ""; func_id +:+ "async"] in
  (∀ r, get_func_id_match func_id d = Some r ↔
        ∃ i, candidates !! i = Some r ∧ r ∈ keys d ∧
             ∀ j t, (j < i)%nat → candidates !! j = Some t → t ∉ keys d)
  ∧ (get_func_id_match func_id d = None ↔
     ∀ t, t ∈ candidates → t ∉ keys d).
Proof.
  split; [intros r; apply first_in_Some | apply first_in_None].
Qed.

(** ** The translation table *)

Lemma append_cons (c : ascii) (s t : string) :
  String c s +:+ t = String c (s +:+ t).
Proof. done. Qed.

Lemma append_nil (t : string) : "" +:+ t = t.
Proof. done. Qed.

Lemma contains_dot_cons (c : ascii) (s : string) :
  Py.contains (String c s) "." = false →
  c ≠ "."%char ∧ Py.contains s "." = false.
Proof.
  cbn [Py.contains String.prefix]. destruct (ascii_dec "." c) as [<-|Hne].
  - by destruct s.
  - cbn [orb]. intros ->. split; congruence.
Qed.

(** Keys of the table determine the enumeration and the member when
    enumeration names have no dot. *)
Lemma key_inj (n1 n2 m1 m2 : string) :
  Py.contains n1 "." = false → Py.contains n2 "." = false →
  n1 +:+ "." +:+ m1 = n2 +:+ "." +:+ m2 → n1 = n2 ∧ m1 = m2.
Proof.
  revert n2. induction n1 as [|c1 n1 IH]; intros [|c2 n2] H1 H2.
  - rewrite !append_nil, !append_cons, !append_nil. by intros [= ->].
  - rewrite append_nil, !append_cons. intros [= <- _].
    by apply contains_dot_cons in H2 as [? _].
  - rewrite append_nil, !append_cons. intros [= -> _].
    by apply contains_dot_cons in H1 as [? _].
  - rewrite !append_cons. intros [= -> Heq].
    apply contains_dot_cons in H1 as [_ H1].
    apply contains_dot_cons in H2 as [_ H2].
    destruct (IH n2 H1 H2 Heq) as [-> ->]. done.
Qed.

Section enummap_facts.
Context (hp : HParser.t) (ip : IdlParser.t).

Lemma table_ok_say msg st : table_ok hp ip st → table_ok hp ip (say msg st).
Proof. done. Qed.

Lemma table_ok_enum_value name henum ienum ikey st :
  get (HParser.enums hp) name = Some henum →
  get (IdlParser.enums ip) name = Some ienum →
  ikey ∈ values ienum →
  table_ok hp ip st → table_ok hp ip (enum_value name henum ikey st).
Proof.
  intros Hh Hi Hin Hst. unfold enum_value.
  destruct (get henum (hkey_of ikey)) as [code|] eqn:Hcode; [|done].
  apply Forall_setitem; [done|].
  by exists name, ienum, henum, ikey.
Qed.

Lemma table_ok_enum_entry name st :
  table_ok hp ip st → table_ok hp ip (enum_entry hp ip name st).
Proof.
  intros Hst. unfold enum_entry.
  destruct (get (IdlParser.enums ip) name) as [ienum|] eqn:Hi; [|done].
  destruct (get (HParser.enums hp) name) as [henum|] eqn:Hh; [|done].
  apply for__invariant; [|done].
  intros ikey st' Hin. by eapply table_ok_enum_value.
Qed.

Lemma table_ok_compare_enums st :
  table_ok hp ip st → table_ok hp ip (compare_enums hp ip st).
Proof.
  intros Hst. unfold compare_enums.
  apply for__invariant; [intros; by apply table_ok_enum_entry|].
  apply for__invariant; [intros ????; by case_match|].
  apply for__invariant; [intros ????; by case_match|].
  done.
Qed.

Lemma settled_say name henum m msg st :
  settled name henum m st → settled name henum m (say msg st).
Proof.
  unfold settled. case_match; [done|]. simpl. set_solver.
Qed.

Lemma settled_enum_value name henum m name' henum' ikey st :
  settled name henum m st →
  settled name henum m (enum_value name' henum' ikey st).
Proof.
  intros Hst. unfold enum_value. case_match; [|by apply settled_say].
  revert Hst. unfold settled. case_match; [|done]. simpl. apply has_setitem.
Qed.

Lemma settled_enum_entry name henum m name' st :
  settled name henum m st → settled name henum m (enum_entry hp ip name' st).
Proof.
  intros Hst. unfold enum_entry. repeat case_match; try done.
  apply for__invariant; [|done]. intros; by apply settled_enum_value.
Qed.

Lemma enum_value_settles name henum m st :
  settled name henum m (enum_value name henum m st).
Proof.
  unfold settled, enum_value.
  destruct (get henum (hkey_of m)) as [code|]; simpl.
  - unfold has. by rewrite get_setitem_eq.
  - set_solver.
Qed.

Lemma compare_enums_settles name henum ienum m st :
  get (HParser.enums hp) name = Some henum →
  get (IdlParser.enums ip) name = Some ienum →
  m ∈ values ienum →
  settled name henum m (compare_enums hp ip st).
Proof.
  intros Hh Hi Hm. unfold compare_enums.
  apply for__established with (a := name).
  - by eapply get_Some_keys.
  - intros st'. unfold enum_entry. rewrite Hi, Hh.
    apply for__established with (a := m); [done|..].
    + apply enum_value_settles.
    + intros; by apply settled_enum_value.
  - intros; by apply settled_enum_entry.
Qed.
End enummap_facts.

(** C7. Invariant of the translation table: every entry
    "<EnumName>.<member>" -> code comes from an enumeration EnumName that
    is present in both catalogs, [member] is a member value of that
    enumeration in the interface catalog, and [code] is the integer stored
    in the same-named native enumeration (under the native spelling of
    [member]).  The comparison keeps the invariant from any table that
    has it, so no entry is ever added for an enumeration that one of the
    catalogs lacks. *)
Theorem enummap_only_common_entries (hp : HParser.t) (ip : IdlParser.t) :
  (∀ o, Forall (entry_ok hp ip) (enummap (build_enummap hp ip o)))
  ∧ (∀ st, Forall (entry_ok hp ip) (enummap st) →
           Forall (entry_ok hp ip) (enummap (compare_enums hp ip st))).
Proof.
  split.
  - intros o. apply table_ok_compare_enums. constructor.
  - apply table_ok_compare_enums.
Qed.

Lemma enummap_only_common_entries_witness :
  Forall (entry_ok texture_hp texture_ip) [("TextureFormat.rgba8unorm", 18%Z)].
Proof.
  exact (proj1 (enummap_only_common_entries texture_hp texture_ip) no_output).
Defined.

(** C1 (amended). For every enumeration name present in both catalogs and
    every member value [m] of that enumeration in the interface catalog,
    let [t] be [m] with "1d", "2d", "3d" replaced by "D1", "D2", "D3",
    hyphens replaced by blanks, the result passed through [str.title]
    (a letter is upper-cased when no letter precedes it, so also after a
    digit, and lower-cased otherwise) and the blanks removed.  If [t] is a
    key of the same-named native enumeration, the table maps
    "<EnumName>.<m>" to the code stored under [t]; otherwise the diagnostic
    "<EnumName>.<m> is missing" is on the console.  Enumeration names are
    identifiers: they contain no dot.  In the PowerPreference scenario the
    table is exactly "PowerPreference.low-power" -> code of LowPower and
    "PowerPreference.high-performance" -> code of HighPerformance. *)
Theorem enummap_records_or_reports :
  (∀ hp ip o name henum ienum m,
     Forall (fun n => Py.contains n "." = false) (keys (HParser.enums hp)) →
     get (HParser.enums hp) name = Some henum →
     get (IdlParser.enums ip) name = Some ienum →
     m ∈ values ienum →
     let st := build_enummap hp ip o in
     match get henum (hkey_of m) with
     | Some code => get (enummap st) (name +:+ "." +:+ m) = Some code
     | None => name +:+ "." +:+ m +:+ " is missing" ∈ stdout (out st)
     end)
  ∧ (∀ low high o,
       enummap (build_enummap (power_hp low high) power_ip o)
       = [("PowerPreference.low-power", low);
          ("PowerPreference.high-performance", high)]).
Proof.
  split; [|done].
  intros hp ip o name henum ienum m Hdots Hh Hi Hm st.
  pose proof (compare_enums_settles hp ip name henum ienum m (mkSt [] o) Hh Hi Hm)
    as Hs.
  fold (build_enummap hp ip o) in Hs. fold st in Hs. unfold settled in Hs.
  destruct (get henum (hkey_of m)) as [code|] eqn:Hcode; [|exact Hs].
  unfold has in Hs.
  destruct (get (enummap st) (name +:+ "." +:+ m)) as [v|] eqn:Hv; [|done].
  assert (Hok : table_ok hp ip st).
  { apply table_ok_compare_enums. constructor. }
  apply get_Some_elem in Hv.
  eapply Forall_forall in Hok as (name' & ienum' & henum' & m' & Hkey & Hh' & Hi' & Hm' & Hc');
    [|exact Hv].
  simpl in Hkey, Hc'.
  rewrite Forall_forall in Hdots.
  apply key_inj in Hkey as [<- <-];
    [|apply Hdots; by eapply get_Some_keys..].
  congruence.
Qed.

Lemma enummap_records_or_reports_witness :
  Forall (fun n => Py.contains n "." = false) (keys (HParser.enums texture_hp))
  ∧ get (HParser.enums texture_hp) "TextureFormat" = Some [("Rgba8Unorm", 18%Z)]
  ∧ get (IdlParser.enums texture_ip) "TextureFormat"
    = Some [("rgba8unorm", "rgba8unorm")]
  ∧ "rgba8unorm" ∈ values [("rgba8unorm", "rgba8unorm")]
  ∧ get (enummap (build_enummap texture_hp texture_ip no_output))
        "TextureFormat.rgba8unorm" = Some 18%Z.
Proof.
  assert (H1 : Forall (fun n => Py.contains n "." = false)
                 (keys (HParser.enums texture_hp))).
  { by repeat constructor. }
  assert (H4 : "rgba8unorm" ∈ values [("rgba8unorm", "rgba8unorm")]).
  { left. }
  split; [exact H1|]. split; [reflexivity|]. split; [reflexivity|].
  split; [exact H4|].
  exact (proj1 enummap_records_or_reports texture_hp texture_ip no_output
           "TextureFormat" _ _ "rgba8unorm" H1 eq_refl eq_refl H4).
Defined.

(** C1 as worded fails on a texture format: "capitalized words" gives
    "Rgba8unorm", which is no key of the native enumeration, and yet the
    script reports nothing and records the entry, because [str.title] also
    upper-cases the letter after the digit. *)
Lemma worded_transform_misses_rgba8unorm :
  worded_hkey "rgba8unorm" = "Rgba8unorm"
  ∧ hkey_of "rgba8unorm" = "Rgba8Unorm"
  ∧ get [("Rgba8Unorm", 18%Z)] (worded_hkey "rgba8unorm") = None
  ∧ build_enummap texture_hp texture_ip no_output
    = mkSt [("TextureFormat.rgba8unorm", 18%Z)]
        (mkOut [String "010" "### Comparing enums"]
               [String "010" "### Comparing enums"]).
Proof. by vm_compute. Qed.

(** With dots in enumeration names two members can share a key, and the
    later assignment wins: "A.B" with member "c" and "A" with member "B.c". *)
Example dotted_names_share_a_key :
  enummap (build_enummap dotted_hp dotted_ip no_output) = [("A.B.c", 2%Z)].
Proof. by vm_compute. Qed.

(** ** The struct comparison *)

Lemma elem_of_concat {A} (x : A) (ls : list (list A)) :
  x ∈ concat ls ↔ ∃ l, x ∈ l ∧ l ∈ ls.
Proof.
  induction ls as [|l ls IH]; simpl.
  - split; [by intros ?%elem_of_nil | by intros (? & _ & ?%elem_of_nil)].
  - rewrite elem_of_app, IH. split.
    + intros [?|(l' & ? & ?)]; [exists l | exists l']; split; try done;
        [left | by right].
    + intros (l' & ? & [->|?]%elem_of_cons); [by left | right; by exists l'].
Qed.

Lemma stdout_print args o : stdout (print args o) = stdout o ++ [Py.join " " args].
Proof. done. Qed.

Lemma stdout_struct_members name hstruct istruct o :
  stdout (struct_members name hstruct istruct o)
  = stdout o ++ stdout (struct_members name hstruct istruct no_output).
Proof.
  unfold struct_members. case_decide; simpl; [|by rewrite app_nil_r].
  by rewrite <- !app_assoc.
Qed.

Lemma stdout_struct_entry hp ip name o :
  stdout (struct_entry hp ip name o) = stdout o ++ struct_lines hp ip name.
Proof.
  unfold struct_lines, struct_entry.
  repeat case_match; simpl; try by rewrite app_nil_r.
  apply stdout_struct_members.
Qed.

Lemma stdout_struct_loop hp ip names o :
  stdout (for_ names (struct_entry hp ip) o)
  = stdout o ++ concat (struct_lines hp ip <$> names).
Proof.
  revert o. induction names as [|name names IH]; intros o.
  - simpl. by rewrite app_nil_r.
  - by rewrite for__cons, IH, stdout_struct_entry, fmap_cons, concat_cons,
      app_assoc.
Qed.

Lemma native_names_set hstruct (x : string) :
  x ∈ (list_to_set (norm_native <$> keys hstruct) : gset string) ∖ {["todo"]}
  ↔ native_names hstruct x.
Proof.
  rewrite elem_of_difference, elem_of_list_to_set, not_elem_of_singleton,
    list_elem_of_fmap.
  unfold native_names, norm_native. split.
  - intros [(key & -> & Hk) Hne]. split; [done|]. by exists key.
  - intros [Hne (key & Hk & ->)]. split; [by exists key | done].
Qed.

Lemma interface_names_set istruct (x : string) :
  x ∈ (list_to_set (Py.lower <$> keys istruct) : gset string) ∖ {["label"]}
  ↔ interface_names istruct x.
Proof.
  rewrite elem_of_difference, elem_of_list_to_set, not_elem_of_singleton,
    list_elem_of_fmap.
  unfold interface_names. split.
  - intros [(key & -> & Hk) Hne]. split; [done|]. by exists key.
  - intros [Hne (key & Hk & ->)]. split; [by exists key | done].
Qed.

(** The lines printed for one name are the report or nothing, and the
    choice is the comparison of the two sets. *)
Lemma struct_lines_cases hp ip name hstruct istruct :
  get (HParser.structs hp) name = Some hstruct →
  get (IdlParser.structs ip) name = Some istruct →
  (struct_lines hp ip name = mismatch_report name hstruct istruct
   ∧ ¬ (∀ x, native_names hstruct x ↔ interface_names istruct x))
  ∨ (struct_lines hp ip name = []
     ∧ ∀ x, native_names hstruct x ↔ interface_names istruct x).
Proof.
  intros Hh Hi. unfold struct_lines, struct_entry. rewrite Hi, Hh.
  unfold struct_members. case_decide as Hne.
  - left. split; [done|]. intros Hall. apply Hne, set_eq. intros x.
    by rewrite native_names_set, interface_names_set.
  - right. split; [done|]. intros x.
    rewrite <- native_names_set, <- interface_names_set.
    destruct (decide
      ((list_to_set (norm_native <$> keys hstruct) : gset string) ∖ {["todo"]}
       = list_to_set (Py.lower <$> keys istruct) ∖ {["label"]})) as [->|]; done.
Qed.

(** A name line is printed only while its own structure is visited. *)
Lemma name_line_origin hp ip name name' :
  " " +:+ name ∈ struct_lines hp ip name' → name' = name ∧ struct_lines hp ip name' ≠ [].
Proof.
  unfold struct_lines, struct_entry.
  destruct (get (IdlParser.structs ip) name') as [istruct|];
    [|by intros ?%elem_of_nil].
  destruct (get (HParser.structs hp) name') as [hstruct|];
    [|by intros ?%elem_of_nil].
  unfold struct_members. case_decide as Hne; [|by intros ?%elem_of_nil].
  simpl. rewrite !elem_of_cons, elem_of_nil.
  intros [Heq|[Heq|[Heq|[]]]]; [| discriminate Heq..].
  rewrite !append_cons, !append_nil in Heq. by injection Heq as ->.
Qed.

(** C6. For every structure name present in both catalogs the comparison
    loop prints the member-mismatch report (the name line followed by the
    two lists of field names) if and only if the set of native field
    names (lower-cased, "_length" removed, underscores removed, "todo"
    left out) differs from the set of interface field names (lower-cased,
    "label" left out). *)
Theorem struct_mismatch_reported_iff hp ip o name hstruct istruct :
  get (HParser.structs hp) name = Some hstruct →
  get (IdlParser.structs ip) name = Some istruct →
  let emitted :=
    drop (length (stdout o)) (stdout (compare_struct_members hp ip o)) in
  (∃ pre post, emitted = pre ++ mismatch_report name hstruct istruct ++ post)
  ↔ ¬ (∀ x, native_names hstruct x ↔ interface_names istruct x).
Proof.
  intros Hh Hi emitted.
  assert (Hem : emitted = concat (struct_lines hp ip <$> keys (HParser.structs hp))).
  { unfold emitted, compare_struct_members.
    by rewrite stdout_struct_loop, drop_app_length. }
  rewrite Hem. clear emitted Hem. split.
  - intros (pre & post & Heq).
    assert (Hin : " " +:+ name ∈ concat (struct_lines hp ip <$> keys (HParser.structs hp))).
    { rewrite Heq. apply elem_of_app. right. left. }
    apply elem_of_concat in Hin as (ls & Hline & Hls).
    apply list_elem_of_fmap in Hls as (name' & -> & _).
    apply name_line_origin in Hline as [-> Hne].
    destruct (struct_lines_cases hp ip name hstruct istruct Hh Hi) as [[_ ?]|[? _]];
      done.
  - intros Hdiff.
    destruct (struct_lines_cases hp ip name hstruct istruct Hh Hi) as [[Hl _]|[_ ?]];
      [|done].
    pose proof (get_Some_keys _ _ _ Hh) as Hin.
    apply list_elem_of_split in Hin as (l1 & l2 & ->).
    exists (concat (struct_lines hp ip <$> l1)), (concat (struct_lines hp ip <$> l2)).
    by rewrite fmap_app, concat_app, fmap_cons, concat_cons, Hl.
Qed.

Lemma struct_mismatch_reported_iff_witness :
  get (HParser.structs buffer_hp) "BufferDescriptor"
  = Some [("todo", Field.mk "todo" "int" "");
          ("size", Field.mk "size" "uint64_t" "");
          ("usage", Field.mk "usage" "WGPUBufferUsage" "")]
  ∧ get (IdlParser.structs buffer_ip) "BufferDescriptor"
    = Some [("label", Field.mk "label" "str" "label: str");
            ("size", Field.mk "size" "int" "size")]
  ∧ ((∃ pre post,
        drop (length (stdout no_output))
          (stdout (compare_struct_members buffer_hp buffer_ip no_output))
        = pre ++ [" BufferDescriptor"; "c: ['todo', 'size', 'usage']";
                  "i: ['label', 'size']"] ++ post)
     ↔ ¬ (∀ x,
            native_names [("todo", Field.mk "todo" "int" "");
                          ("size", Field.mk "size" "uint64_t" "");
                          ("usage", Field.mk "usage" "WGPUBufferUsage" "")] x
            ↔ interface_names [("label", Field.mk "label" "str" "label: str");
                               ("size", Field.mk "size" "int" "size")] x)).
Proof.
  split; [reflexivity|]. split; [reflexivity|].
  exact (struct_mismatch_reported_iff buffer_hp buffer_ip no_output
           "BufferDescriptor" _ _ eq_refl eq_refl).
Defined.

(** ** [blacken] *)

(** C4 (amended). A call of [blacken] aborts the run exactly when the
    formatter's error stream, in lower case, contains the word "error",
    and the exception then carries the whole stream.  Otherwise, and in
    particular when the stream is empty, the formatter's output is
    returned (with three-line signatures joined in single-line mode) and
    the run continues. *)
Theorem blacken_aborts_iff_error_word
    (black : Z → string → string * string) (src : string) (singleline : bool) :
  let fed := if singleline then remove_noqas src else src in
  let ll := if singleline then 9999999%Z else 88%Z in
  let result := (black ll fed).1 in
  let log := (black ll fed).2 in
  let returned := if singleline then join_signatures result else result in
  (is_ok (blacken black src singleline) = false
   ↔ Py.contains (Py.lower log) "error" = true)
  ∧ (Py.contains (Py.lower log) "error" = true →
     blacken black src singleline = Raise (RuntimeError log))
  ∧ (Py.contains (Py.lower log) "error" = false →
     blacken black src singleline = Ok returned)
  ∧ (log = "" → blacken black src singleline = Ok returned).
Proof.
  intros fed ll result log returned.
  assert (Hb : blacken black src singleline
               = if Py.contains (Py.lower log) "error"
                 then Raise (RuntimeError log) else Ok returned).
  { unfold blacken. fold fed ll. unfold returned, result, log.
    by destruct (black ll fed) as [r l]. }
  rewrite Hb. repeat split.
  - by destruct (Py.contains (Py.lower log) "error").
  - by intros ->.
  - by intros ->.
  - by intros ->.
  - intros ->. done.
Qed.

Lemma blacken_aborts_iff_error_word_witness :
  Py.contains (Py.lower (failing_black 88%Z "x = (").2) "error" = true
  ∧ blacken failing_black "x = (" false
    = Raise (RuntimeError "error: cannot format -: Cannot parse: 1:4: x = (").
Proof.
  split; [reflexivity|].
  exact (proj1 (proj2 (blacken_aborts_iff_error_word failing_black "x = (" false))
           eq_refl).
Defined.

(** C4 as worded fails: the formatter reports success on its error stream,
    the stream is not empty, and [blacken] returns the text. *)
Lemma blacken_returns_with_output_on_stderr :
  (chatty_black 88%Z "x = 1").2
  = "reformatted -" +:+ nl +:+ "All done!" +:+ nl +:+ "1 file reformatted."
  ∧ Py.truthy (chatty_black 88%Z "x = 1").2 = true
  ∧ blacken chatty_black "x = 1" false = Ok "x = 1".
Proof. by vm_compute. Qed.

(** ** The emitted containers *)











Lemma StronglySorted_sublist {A} (R : relation A) (l1 l2 : list A) :
  l1 `sublist_of` l2 → StronglySorted R l2 → StronglySorted R l1.
Proof.
  intros Hsub. induction Hsub as [|x l1 l2 Hsub IH|x l1 l2 Hsub IH];
    intros Hs; [done|..].
  - apply StronglySorted_inv in Hs as [Hs Hx]. constructor; [by apply IH|].
    rewrite Forall_forall in Hx |- *. intros y Hy. apply Hx.
    by eapply elem_of_sublist.
  - apply StronglySorted_inv in Hs as [Hs _]. by apply IH.
Qed.

Lemma elem_of_List_filter {A} (f : A → bool) (l : list A) (x : A) :
  x ∈ List.filter f l ↔ x ∈ l ∧ f x = true.
Proof. by rewrite !list_elem_of_In, filter_In. Qed.



(** ** The patcher *)

Lemma bind_Ok {A B} (r : result A) (k : A → result B) (b : B) :
  r ≫= k = Ok b ↔ ∃ a, r = Ok a ∧ k a = Ok b.
Proof.
  destruct r as [a|e]; simpl.
  - split; [intros ?; by exists a | by intros (? & [= <-] & ?)].
  - split; [done | by intros (? & ? & _)].
Qed.

Lemma item_Ok {A} (l : list A) (i : nat) (a : A) :
  item l i = Ok a ↔ l !! i = Some a.
Proof.
  unfold item. destruct (l !! i); split; intros; simplify_eq; done.
Qed.

Lemma getitem_Ok {V} (d : dict V) (k : string) (v : V) :
  getitem d k = Ok v ↔ get d k = Some v.
Proof.
  unfold getitem. destruct (get d k); split; intros; simplify_eq; done.
Qed.

Lemma unmatched_None {V} (func_id : string) (d : dict V) :
  get_func_id_match func_id d = None → unmatched func_id d = true.
Proof. unfold unmatched. by intros ->. Qed.

Lemma lstrip_spaces (n : nat) (s : string) :
  Py.lstrip (Py.spaces n +:+ s) = Py.lstrip s.
Proof.
  induction n as [|n IH]; [done|].
  by change (Py.lstrip (Py.spaces (S n) +:+ s)) with (Py.lstrip (Py.spaces n +:+ s)).
Qed.

Lemma prefix_empty (s : string) : String.prefix "" s = true.
Proof. by destruct s. Qed.

Lemma startswith_append (p s : string) : Py.startswith (p +:+ s) p = true.
Proof.
  unfold Py.startswith. induction p as [|a p IH].
  - apply prefix_empty.
  - rewrite append_cons. cbn [String.prefix].
    by destruct (ascii_dec a a).
Qed.

Lemma is_marker_help indent searches : is_marker (help_comment indent searches) = true.
Proof.
  unfold is_marker, help_comment. rewrite lstrip_spaces.
  set (rest := Py.join ", " searches +:+ ", dev=True)").
  change (Py.lstrip ("# wgpu.help(" +:+ rest)) with ("# wgpu.help(" +:+ rest).
  unfold startswith_any, starts. cbn [existsb].
  rewrite startswith_append. by destruct (Py.startswith _ "# IDL: ").
Qed.

Lemma is_marker_idl indent line : is_marker (idl_comment indent line) = true.
Proof.
  unfold is_marker, idl_comment. rewrite lstrip_spaces.
  change (Py.lstrip ("# IDL: " +:+ line)) with ("# IDL: " +:+ line).
  unfold startswith_any, starts. cbn [existsb].
  by rewrite startswith_append.
Qed.

Lemma insert_at_take {A} (i : nat) (x : A) (l rest : list A) :
  (i ≤ length l)%nat →
  insert_at i x (take i l ++ rest) = take i l ++ x :: rest.
Proof.
  intros Hi. unfold insert_at.
  rewrite take_app_length', drop_app_length'; [done|..];
    rewrite length_take; lia.
Qed.

Lemma split_from_nonempty (skip : nat) (sep s : string) :
  ∃ p ps, Py.split_from skip sep s = p :: ps.
Proof.
  revert skip. induction s as [|c s IH]; intros skip; cbn [Py.split_from].
  { eexists _, _. reflexivity. }
  destruct skip as [|k]; [|apply IH].
  destruct (String.prefix sep (String c s)); [eexists _, _; reflexivity|].
  destruct (IH 0%nat) as (p & ps & ->). eexists _, _. reflexivity.
Qed.

Lemma split_head (s sep : string) :
  item (Py.split s sep) 0 = Ok (default "" (head (Py.split s sep))).
Proof.
  unfold Py.split. by destruct (split_from_nonempty 0 sep s) as (p & ps & ->).
Qed.

Lemma before_paren_cons (c : ascii) (s : string) :
  before_paren (String c s)
  = if decide (c = "("%char) then "" else String c (before_paren s).
Proof.
  unfold before_paren, Py.split. cbn [Py.split_from String.prefix].
  destruct (ascii_dec "(" c) as [<-|Hne].
  - rewrite prefix_empty. by rewrite decide_True.
  - rewrite decide_False by congruence.
    by destruct (split_from_nonempty 0 "(" s) as (p & ps & ->).
Qed.

(** The part of a line before its first parenthesis survives when what
    follows the parenthesis is replaced. *)
Lemma before_paren_rewritten (s rest : string) :
  before_paren (before_paren s +:+ "(" +:+ rest) = before_paren s.
Proof.
  induction s as [|c s IH].
  - change (before_paren "") with "". rewrite append_nil, append_cons.
    rewrite before_paren_cons. by rewrite decide_True.
  - rewrite (before_paren_cons c s). case_decide as Hc.
    + rewrite append_nil, append_cons, before_paren_cons.
      by rewrite decide_True.
    + rewrite append_cons, before_paren_cons, decide_False by done.
      by rewrite IH.
Qed.

Lemma new_signature_before_paren ip func_id pyline argnames argtypes sig :
  new_signature ip func_id pyline argnames argtypes = Ok sig →
  before_paren sig = before_paren pyline.
Proof.
  unfold new_signature. intros H.
  apply bind_Ok in H as (py_args & _ & H).
  rewrite split_head in H. simpl in H. injection H as <-.
  apply before_paren_rewritten.
Qed.

(** One pass of the patch loop either leaves the lines alone, for an
    identifier without a match, or replaces the recorded line by the
    marker comments and the new signature. *)
Lemma patch_func_effect fname ip fns func_id lines count lines' count' :
  patch_func fname ip fns func_id (lines, count) = Ok (lines', count') →
  (unmatched func_id (IdlParser.functions ip) = true
   ∧ lines' = lines ∧ count' = count)
  ∨ (unmatched func_id (IdlParser.functions ip) = false
     ∧ ∃ funcname i indent comments sig,
         get fns func_id = Some (funcname, i, indent)
         ∧ (i < length lines)%nat
         ∧ lines' = take i lines ++ comments ++ sig :: drop (S i) lines
         ∧ Forall (fun c => is_marker c = true) comments
         ∧ comments ≠ []
         ∧ (∀ pyline, lines !! i = Some pyline →
                      before_paren sig = before_paren pyline)
         ∧ count' = S count).
Proof.
  unfold patch_func.
  destruct (unmatched func_id (IdlParser.functions ip)) eqn:Hun.
  { intros [= <- <-]. by left. }
  destruct (get_func_id_match func_id (IdlParser.functions ip)) as [m|] eqn:Hm.
  2:{ apply unmatched_None in Hm. congruence. }
  intros H. right. split; [done|].
  apply bind_Ok in H as ([[funcname i] indent] & Hf%getitem_Ok & H).
  apply bind_Ok in H as (line & Hline & H).
  apply bind_Ok in H as (pyline & Hpy%item_Ok & H).
  apply bind_Ok in H as (args & Hargs & H).
  apply bind_Ok in H as (argnames & Hnames & H).
  apply bind_Ok in H as (argtypes & Htypes & H).
  apply bind_Ok in H as (sig & Hsig & H).
  injection H as <- <-.
  pose proof (lookup_lt_Some _ _ _ Hpy) as Hi.
  exists funcname, i, indent.
  rewrite (insert_take_drop lines i sig Hi).
  assert (Hhead : ∀ pyline', lines !! i = Some pyline' →
                            before_paren sig = before_paren pyline').
  { intros pyline' Hpy'. rewrite Hpy in Hpy'. injection Hpy' as <-.
    by eapply new_signature_before_paren. }
  case_bool_decide.
  - eexists [_; _], sig. repeat split; [done | done | | | done | done | lia].
    + rewrite !insert_at_take by lia. done.
    + repeat constructor; [apply is_marker_help | apply is_marker_idl].
  - eexists [_], sig. repeat split; [done | done | | | done | done | lia].
    + rewrite !insert_at_take by lia. done.
    + repeat constructor. apply is_marker_help.
Qed.

Lemma concat_singletons {A} (l : list A) : concat ((fun x => [x]) <$> l) = l.
Proof. induction l as [|x l IH]; [done|]. by rewrite fmap_cons, concat_cons, IH. Qed.

Lemma block_of_same (line : string) : block_of line [line].
Proof. exists [], line. by repeat split. Qed.

Lemma blocks_untouched (l : list string) :
  Forall2 block_of l ((fun x => [x]) <$> l).
Proof.
  apply Forall2_fmap_r, Forall_Forall2_diag, Forall_forall.
  intros; apply block_of_same.
Qed.

Lemma cut_at {A} (lines : list A) (i n : nat) (line : A) :
  lines !! i = Some line → (i < n)%nat → (n ≤ length lines)%nat →
  take n lines = take i lines ++ line :: take (n - S i) (drop (S i) lines)
  ∧ drop (S i) lines = take (n - S i) (drop (S i) lines) ++ drop n lines.
Proof.
  intros Hi Hin Hn. split.
  - assert (Hl : lines = take i lines ++ line :: drop (S i) lines).
    { symmetry. by apply take_drop_middle. }
    rewrite Hl at 1. rewrite take_app_ge by (rewrite length_take; lia).
    rewrite length_take_le by lia.
    replace (n - i)%nat with (S (n - S i)) by lia. done.
  - rewrite <- (take_drop (n - S i) (drop (S i) lines)) at 1.
    f_equal. rewrite drop_drop. f_equal. lia.
Qed.

(** The patch loop, over keys whose recorded lines decrease: the first [n]
    lines become one block each, the rest of the file is untouched, and a
    line that no matched key records is a block of its own. *)
Lemma patch_loop_blocks fname ip fns ks :
  ∀ lines count lines' count' n,
    for_r ks (patch_func fname ip fns) (lines, count) = Ok (lines', count') →
    StronglySorted (fun a b => (line_of fns b < line_of fns a)%nat) ks →
    Forall (fun k => (line_of fns k < n)%nat) ks →
    (n ≤ length lines)%nat →
    ∃ blocks,
      length blocks = n
      ∧ lines' = concat blocks ++ drop n lines
      ∧ Forall2 block_of (take n lines) blocks
      ∧ ∀ j line,
          lines !! j = Some line → (j < n)%nat →
          (∀ k, k ∈ ks → line_of fns k = j →
                unmatched k (IdlParser.functions ip) = true) →
          blocks !! j = Some [line].
Proof.
  induction ks as [|k ks IH]; intros lines count lines' count' n Hrun Hsorted Hlt Hn.
  - injection Hrun as <- <-.
    exists ((fun x => [x]) <$> take n lines). repeat split.
    + rewrite length_fmap, length_take_le; lia.
    + by rewrite concat_singletons, take_drop.
    + apply blocks_untouched.
    + intros j line Hj Hjn _.
      by rewrite list_lookup_fmap, lookup_take_lt, Hj.
  - cbn [for_r] in Hrun.
    apply bind_Ok in Hrun as ([lines1 count1] & Hstep & Hrun).
    apply StronglySorted_inv in Hsorted as [Hsorted Hbelow].
    apply Forall_cons in Hlt as [Hk Hlt].
    apply patch_func_effect in Hstep
      as [(Hun & -> & ->)
         |(Hun & funcname & i & indent & comments & sig
               & Hget & Hi & -> & Hmarkers & Hne & Hhead & ->)].
    + destruct (IH _ _ _ _ n Hrun Hsorted Hlt Hn) as (blocks & Hlen & Heq & Hall & Hown).
      exists blocks. repeat split; try done.
      intros j line Hj Hjn Hfree. apply Hown; [done..|].
      intros k' Hk'. apply Hfree. by right.
    + assert (Hki : line_of fns k = i). { unfold line_of. by rewrite Hget. }
      rewrite Hki in Hk, Hbelow.
      destruct (lookup_lt_is_Some_2 lines i Hi) as [line_i Hline_i].
      destruct (cut_at lines i n line_i Hline_i Hk Hn) as [Htake Hdrop].
      destruct (IH _ _ _ _ i Hrun Hsorted Hbelow) as (blocks & Hlen & Heq & Hall & Hown).
      { rewrite length_app, length_take_le by lia. lia. }
      rewrite take_app_length' in Hall by (rewrite length_take_le; lia).
      rewrite drop_app_length' in Heq by (rewrite length_take_le; lia).
      exists (blocks ++ (comments ++ [sig])
                :: ((fun x => [x]) <$> take (n - S i) (drop (S i) lines))).
      repeat split.
      * rewrite length_app, Hlen. simpl.
        rewrite length_fmap, length_take_le; [lia|].
        rewrite length_drop. lia.
      * rewrite Heq, concat_app, concat_cons, concat_singletons.
        rewrite Hdrop at 1. by rewrite <- !app_assoc.
      * rewrite Htake. apply Forall2_app; [done|].
        constructor; [|apply blocks_untouched].
        exists comments, sig. repeat split; [done | by apply Hhead | done].
      * intros j line Hj Hjn Hfree.
        destruct (decide (j < i)%nat) as [Hji|Hji].
        { rewrite lookup_app_l by lia. apply Hown; [|done|].
          - by rewrite lookup_app_l, lookup_take_lt
              by (rewrite ?length_take_le; lia).
          - intros k' Hk'. apply Hfree. by right. }
        destruct (decide (j = i)) as [->|Hne'].
        { specialize (Hfree k). rewrite Hfree in Hun; [done | left | done]. }
        rewrite lookup_app_r by lia. rewrite Hlen.
        replace (j - i)%nat with (S (j - S i)) by lia. simpl.
        rewrite list_lookup_fmap, lookup_take_lt, lookup_drop by lia.
        replace (S i + (j - S i))%nat with j by lia. by rewrite Hj.
Qed.

(** *** The scanning loop *)

Lemma as_dict_snoc seen found :
  as_dict (seen ++ option_list found) = record_function (as_dict seen) found.
Proof.
  unfold as_dict. rewrite foldl_app. by destruct found as [[func_id f]|].
Qed.

(** The dictionary of the scanning loop is the dictionary of the exposed
    functions. *)
Lemma detect_loop api_lines ps :
  ∀ cls seen,
    for_r ps
      (fun '(i, line) st =>
         '(current_class, found) ←
            scan_line api_lines i line (current_class st);
         Ok (mkScan current_class (record_function (api_functions st) found)))
      (mkScan cls (as_dict seen))
    = (st ← for_r ps
              (fun '(i, line) '(current_class, seen) =>
                 '(current_class, found) ←
                    scan_line api_lines i line current_class;
                 Ok (current_class, seen ++ option_list found))
              (cls, seen);
       Ok (mkScan st.1 (as_dict st.2))).
Proof.
  induction ps as [|[i line] ps IH]; intros cls seen; [done|].
  cbn [for_r]. simpl.
  destruct (scan_line api_lines i line cls) as [[cls' found]|e]; simpl; [|done].
  by rewrite <- as_dict_snoc, IH.
Qed.

Lemma detect_exposed api_lines :
  detect_api_functions api_lines
  = (seen ← exposed_functions api_lines; Ok (as_dict seen)).
Proof.
  unfold detect_api_functions, exposed_functions.
  change ([] : dict api_function) with (as_dict []).
  rewrite detect_loop.
  by destruct (for_r _ _ _) as [[cls seen]|e].
Qed.

Lemma scan_line_records_its_line api_lines i line cls cls' func_id funcname j indent :
  scan_line api_lines i line cls = Ok (cls', Some (func_id, (funcname, j, indent))) →
  j = i.
Proof.
  unfold scan_line. intros H.
  apply bind_Ok in H as (cls1 & _ & H).
  repeat (case_match; simplify_eq);
    repeat (apply bind_Ok in H as (? & _ & H); repeat (case_match; simplify_eq));
    congruence.
Qed.

Lemma exposed_loop_lines api_lines ps :
  ∀ cls seen cls' seen',
    for_r ps
      (fun '(i, line) '(current_class, seen) =>
         '(current_class, found) ← scan_line api_lines i line current_class;
         Ok (current_class, seen ++ option_list found))
      (cls, seen) = Ok (cls', seen') →
    ∃ new, seen' = seen ++ new ∧ recorded_line <$> new `sublist_of` ps.*1.
Proof.
  induction ps as [|[i line] ps IH]; intros cls seen cls' seen' H.
  - injection H as <- <-. exists []. by rewrite app_nil_r.
  - cbn [for_r] in H. apply bind_Ok in H as ([cls1 seen1] & Hstep & H).
    apply bind_Ok in Hstep as ([cls2 found] & Hscan & [= <- <-]).
    apply IH in H as (new & -> & Hsub).
    exists (option_list found ++ new). split; [by rewrite app_assoc|].
    destruct found as [[func_id [[funcname j] indent]]|]; simpl.
    + apply scan_line_records_its_line in Hscan as ->. by constructor.
    + by constructor.
Qed.

Lemma imap_pair_indices {A} (l : list A) (f : nat → nat) :
  (imap (fun i x => (f i, x)) l).*1 = f <$> seq 0 (length l).
Proof.
  revert f. induction l as [|x l IH]; intros f; [done|].
  rewrite imap_cons. simpl. f_equal.
  rewrite <- fmap_S_seq, <- list_fmap_compose. apply (IH (f ∘ S)).
Qed.

Lemma StronglySorted_seq (j n : nat) : StronglySorted lt (seq j n).
Proof.
  revert j. induction n as [|n IH]; intros j; simpl; constructor; [apply IH|].
  apply Forall_forall. intros k Hk%elem_of_seq. lia.
Qed.

(** The exposed functions are listed in file order, each at a line of the
    file. *)
Lemma exposed_functions_lines api_lines seen :
  exposed_functions api_lines = Ok seen →
  StronglySorted lt (recorded_line <$> seen)
  ∧ Forall (fun e => (recorded_line e < length api_lines)%nat) seen.
Proof.
  unfold exposed_functions. intros H.
  apply bind_Ok in H as ([cls seen'] & H & [= <-]).
  apply exposed_loop_lines in H as (new & -> & Hsub). simpl in *.
  pose proof (imap_pair_indices api_lines id) as Hidx.
  rewrite list_fmap_id in Hidx.
  change (imap (fun i x => (id i, x)) api_lines) with (imap pair api_lines) in Hidx.
  rewrite Hidx in Hsub. split.
  - eapply StronglySorted_sublist; [done | apply StronglySorted_seq].
  - apply Forall_forall. intros e He.
    assert (Hin : recorded_line e ∈ seq 0 (length api_lines)).
    { eapply elem_of_sublist; [|done]. apply list_elem_of_fmap. by exists e. }
    apply elem_of_seq in Hin. lia.
Qed.

Lemma as_dict_NoDup seen : NoDup seen.*1 → as_dict seen = seen.
Proof.
  induction seen as [|[func_id f] seen IH] using rev_ind; [done|].
  rewrite fmap_app, NoDup_app. intros (Hseen & Hfresh & _).
  change [(func_id, f)] with (option_list (Some (func_id, f))).
  rewrite as_dict_snoc, IH by done. simpl.
  apply setitem_fresh. intros Hin. apply (Hfresh func_id Hin). left.
Qed.

Lemma get_NoDup {V} (d : dict V) (k : string) (v : V) :
  NoDup (keys d) → (k, v) ∈ d → get d k = Some v.
Proof.
  unfold keys. induction d as [|[k' v'] d IH]; simpl.
  - by intros _ ?%elem_of_nil.
  - rewrite NoDup_cons. intros [Hk' Hd] [[= -> ->]|Hin]%elem_of_cons.
    + by rewrite decide_True.
    + rewrite decide_False; [by apply IH|].
      intros ->. apply Hk', list_elem_of_fmap. by exists (k, v).
Qed.

Lemma line_of_recorded seen e :
  NoDup seen.*1 → e ∈ seen → line_of seen e.1 = recorded_line e.
Proof.
  intros Hdup He. destruct e as [func_id [[funcname i] indent]].
  unfold line_of. cbn [fst].
  by rewrite (get_NoDup seen func_id (funcname, i, indent)).
Qed.

(** The patch loop visits the keys from the last line to the first. *)
Lemma reversed_keys_decrease (g : string → nat) seen :
  (∀ e, e ∈ seen → g e.1 = recorded_line e) →
  StronglySorted lt (recorded_line <$> seen) →
  StronglySorted (fun a b => (g b < g a)%nat) (reverse (keys seen)).
Proof.
  unfold keys. induction seen as [|e seen IH]; intros Hg Hs; [constructor|].
  rewrite fmap_cons in Hs. apply StronglySorted_inv in Hs as [Hs Hlt].
  rewrite fmap_cons, reverse_cons. apply StronglySorted_app_2.
  - intros k1 k2 Hk1 ->%list_elem_of_singleton.
    apply elem_of_reverse, list_elem_of_fmap in Hk1 as (e' & -> & He').
    rewrite !Hg by (by constructor).
    rewrite Forall_forall in Hlt. apply Hlt, list_elem_of_fmap. by exists e'.
  - apply IH; [|done]. intros e' He'. apply Hg. by right.
  - repeat constructor.
Qed.

Lemma sorted_lines_inj seen e1 e2 :
  StronglySorted lt (recorded_line <$> seen) →
  e1 ∈ seen → e2 ∈ seen → recorded_line e1 = recorded_line e2 → e1 = e2.
Proof.
  induction seen as [|e seen IH]; [by intros _ ?%elem_of_nil|].
  rewrite fmap_cons. intros [Hs Hlt]%StronglySorted_inv.
  rewrite Forall_forall in Hlt.
  assert (Hbelow : ∀ e', e' ∈ seen → (recorded_line e < recorded_line e')%nat).
  { intros e' He'. apply Hlt, list_elem_of_fmap. by exists e'. }
  intros [->|H1]%elem_of_cons [->|H2]%elem_of_cons Heq; [done|..].
  - apply Hbelow in H2. lia.
  - apply Hbelow in H1. lia.
  - by apply IH.
Qed.

(** A recorded function without a match is reported. *)
Lemma unknown_function_reported ip fns count o func_id funcname i indent :
  get fns func_id = Some (funcname, i, indent) →
  unmatched func_id (IdlParser.functions ip) = true →
  "Found unknown function " +:+ funcname
    ∈ stdout (report_missing ip fns count o).
Proof.
  intros Hget Hun. unfold report_missing.
  apply for__established with (a := func_id).
  - by eapply get_Some_keys.
  - intros o'. cbv beta. rewrite Hun, Hget. rewrite stdout_print.
    apply elem_of_app. right. left.
  - intros func_id' o' Hin. cbv beta. repeat case_match; try done.
    rewrite stdout_print. apply elem_of_app. by left.
Qed.

(** *** Marker lines *)

Lemma rstrip_prefix (l : string) : ∃ w, l = Py.rstrip l +:+ w.
Proof.
  induction l as [|c l [w IH]]; [by exists ""|].
  cbn [Py.rstrip]. destruct (Py.rstrip l) as [|c' r] eqn:Hr.
  - destruct (Py.isspace c).
    + by exists (String c l).
    + by exists l.
  - exists w. by rewrite append_cons, <- IH.
Qed.

Lemma lstrip_append (a w : string) :
  Py.lstrip a ≠ "" → Py.lstrip (a +:+ w) = Py.lstrip a +:+ w.
Proof.
  induction a as [|c a IH]; [done|].
  rewrite append_cons. cbn [Py.lstrip].
  destruct (Py.isspace c); [apply IH | by rewrite append_cons].
Qed.

Lemma prefix_append (p x w : string) :
  String.prefix p x = true → String.prefix p (x +:+ w) = true.
Proof.
  revert x. induction p as [|a p IH]; intros x; [intros _; apply prefix_empty|].
  destruct x as [|b x]; [done|].
  rewrite append_cons. cbn [String.prefix].
  destruct (ascii_dec a b); [apply IH | done].
Qed.

(** Trailing blanks do not hide a marker. *)
Lemma is_marker_rstrip (l : string) :
  is_marker (Py.rstrip l) = true → is_marker l = true.
Proof.
  unfold is_marker, startswith_any, starts, Py.startswith. cbn [existsb].
  destruct (rstrip_prefix l) as [w Hl].
  destruct (Py.lstrip (Py.rstrip l)) as [|c r] eqn:Hr; [done|].
  assert (Hls : Py.lstrip l = String c r +:+ w).
  { rewrite Hl at 1. rewrite lstrip_append by (by rewrite Hr). by rewrite Hr. }
  rewrite Hls.
  intros [H|[H|H]%orb_true_iff]%orb_true_iff; [| |done].
  - by rewrite (prefix_append _ _ w H).
  - rewrite (prefix_append _ _ w H). by rewrite !orb_true_r.
Qed.

(** The lines that the patcher scans contain no marker line: whatever an
    earlier run injected is dropped before the file is read again. *)
Lemma read_api_lines_no_markers black code api_lines :
  read_api_lines black code = Ok api_lines →
  Forall (fun line => is_marker line = false) api_lines.
Proof.
  unfold read_api_lines. intros H.
  apply bind_Ok in H as (text & _ & [= <-]).
  apply Forall_app. split; [|by repeat constructor].
  apply Forall_fmap, Forall_forall. intros line Hline.
  apply elem_of_List_filter in Hline as [_ Hline].
  apply negb_true_iff in Hline. simpl.
  destruct (is_marker (Py.rstrip line)) eqn:Hm; [|done].
  apply is_marker_rstrip in Hm.
  unfold is_marker, startswith_any, starts in Hm. cbn [existsb] in Hm.
  congruence.
Qed.

(** C9 (amended). When the normalised identifiers of the file's exposed
    functions are pairwise distinct and the run of the patcher on the file
    completes, every exposed function whose identifier matches none of the
    three candidates in the interface catalog's function table is left as
    it is: the patched file is the original file line by line, each line
    replaced by a block that ends with it or with its new signature and
    starts with the marker comments injected for it, and the block of the
    function's line is that line alone (the scanned lines themselves hold
    no marker comment); and "Found unknown function" followed by the
    qualified name is printed. *)
Theorem unknown_function_left_alone
    (black : Z → string → string * string) (fname : string) (ip : IdlParser.t)
    (code : string) (o : Out) (api_lines : list string)
    (seen : list (string * api_function)) (lines' : list string) (count : nat)
    (code' func_id funcname : string) (i indent : nat) :
  read_api_lines black code = Ok api_lines →
  exposed_functions api_lines = Ok seen →
  NoDup seen.*1 →
  inject fname ip (as_dict seen) api_lines = Ok (lines', count) →
  blacken black (Py.join nl lines') false = Ok code' →
  (func_id, (funcname, i, indent)) ∈ seen →
  get_func_id_match func_id (IdlParser.functions ip) = None →
  ∃ o' line blocks,
    patch_file black fname ip code o = Ok (code', o')
    ∧ "Found unknown function " +:+ funcname ∈ stdout o'
    ∧ Forall (fun l => is_marker l = false) api_lines
    ∧ api_lines !! i = Some line
    ∧ lines' = concat blocks
    ∧ Forall2 block_of api_lines blocks
    ∧ blocks !! i = Some [line].
Proof.
  intros Hread Hexp Hdup Hinj Hfmt Hin Hnone.
  pose proof (as_dict_NoDup seen Hdup) as Hd.
  destruct (exposed_functions_lines _ _ Hexp) as [Hsorted Hbound].
  rewrite Forall_forall in Hbound.
  pose proof (get_NoDup seen func_id (funcname, i, indent) Hdup Hin) as Hget.
  pose proof (Hbound _ Hin) as Hi. cbn in Hi.
  destruct (lookup_lt_is_Some_2 api_lines i Hi) as [line Hline].
  pose proof Hinj as Hloop. rewrite Hd in Hloop. unfold inject in Hloop.
  apply patch_loop_blocks with (n := length api_lines) in Hloop
    as (blocks & Hlen & Heq & Hall & Hown); [| | |done].
  2:{ apply reversed_keys_decrease; [|done].
      intros e He. by apply line_of_recorded. }
  2:{ apply Forall_forall. intros k Hk.
      apply elem_of_reverse, list_elem_of_fmap in Hk as (e & -> & He).
      rewrite line_of_recorded by done. by apply Hbound. }
  rewrite drop_all, app_nil_r in Heq. rewrite take_ge in Hall by done.
  eexists _, line, blocks. split; [|split; [|repeat split; try done]].
  - unfold patch_file. rewrite Hread. simpl.
    rewrite detect_exposed, Hexp. simpl. rewrite Hinj. simpl.
    rewrite Hfmt. simpl. reflexivity.
  - rewrite stdout_print. apply elem_of_app. left. rewrite Hd.
    eapply unknown_function_reported; [done|]. by apply unmatched_None.
  - by eapply read_api_lines_no_markers.
  - apply Hown; [done..|]. intros k Hk Hki.
    apply elem_of_reverse, list_elem_of_fmap in Hk as (e & -> & He).
    rewrite line_of_recorded in Hki by done.
    assert (e = (func_id, (funcname, i, indent))) as ->.
    { by apply (sorted_lines_inj seen). }
    by apply unmatched_None.
Qed.

Lemma unknown_function_left_alone_witness :
  ∃ o' line blocks,
    patch_file silent_black "base.py" buffer_ip device_code no_output
    = Ok (device_code_patched, o')
    ∧ "Found unknown function " +:+ "GPUDevice.foo" ∈ stdout o'
    ∧ Forall (fun l => is_marker l = false)
        [ "class GPUDevice:"; "    def createBuffer(self, descriptor):";
          "        pass"; ""; "    def foo(self):"; "        pass"; "" ]
    ∧ [ "class GPUDevice:"; "    def createBuffer(self, descriptor):";
        "        pass"; ""; "    def foo(self):"; "        pass"; "" ] !! 4%nat
      = Some line
    ∧ Py.splitlines device_code_patched ++ [""] = concat blocks
    ∧ Forall2 block_of
        [ "class GPUDevice:"; "    def createBuffer(self, descriptor):";
          "        pass"; ""; "    def foo(self):"; "        pass"; "" ]
        blocks
    ∧ blocks !! 4%nat = Some [line].
Proof.
  apply (unknown_function_left_alone silent_black "base.py" buffer_ip
           device_code no_output _
           [("devicecreatebuffer", ("GPUDevice.createBuffer", 1%nat, 4%nat));
            ("devicefoo", ("GPUDevice.foo", 4%nat, 4%nat))]
           _ 1%nat _ "devicefoo" "GPUDevice.foo" 4%nat 4%nat).
  - by vm_compute.
  - by vm_compute.
  - apply NoDup_cons. split; [|apply NoDup_singleton].
    by intros ?%list_elem_of_singleton.
  - by vm_compute.
  - by vm_compute.
  - right. left.
  - by vm_compute.
Defined.

(** C9 as worded fails when two exposed functions share a normalised
    identifier: the method GPUDevice.foo and the function devicefoo are
    both exposed and both without a match, and only the second one is
    reported. *)
Lemma shadowed_function_not_reported :
  (api_lines ← read_api_lines silent_black clash_code;
   exposed_functions api_lines)
  = Ok [("devicefoo", ("GPUDevice.foo", 1%nat, 4%nat));
        ("devicefoo", ("devicefoo", 5%nat, 0%nat))]
  ∧ get_func_id_match "devicefoo" (IdlParser.functions empty_ip) = None
  ∧ patch_file silent_black "base.py" empty_ip clash_code no_output
    = Ok (clash_code,
          mkOut
            [nl +:+ "### Check functions in base.py";
             "Found 0 functions already implemented";
             "Found unknown function devicefoo";
             "Injected IDL lines into base.py"]
            [nl +:+ "### Check functions in base.py";
             "*  Found 0 functions already implemented";
             "*  Found unknown function devicefoo";
             "*  Injected IDL lines into base.py"]).
Proof. by vm_compute. Qed.

(** *** A matched function *)

(** The string functions stay folded while the monadic steps are
    simplified. *)
Arguments Py.slice_from : simpl never.
Arguments Py.startswith : simpl never.
Arguments Py.endswith : simpl never.
Arguments Py.contains : simpl never.
Arguments Py.split : simpl never.
Arguments Py.join : simpl never.

Lemma unmatched_Some {V} (func_id m : string) (d : dict V) :
  get_func_id_match func_id d = Some m → Py.truthy m = true →
  unmatched func_id d = false.
Proof. unfold unmatched. by intros -> ->. Qed.

(** For an identifier with a match, the pass of the patch loop is the
    computation of the new signature followed by the three updates of the
    list of lines. *)
Lemma patch_func_matched fname ip (fns : dict api_function) func_id lines count
    m funcname i indent line pyline args argnames argtypes :
  get_func_id_match func_id (IdlParser.functions ip) = Some m →
  Py.truthy m = true →
  get fns func_id = Some (funcname, i, indent) →
  get (IdlParser.functions ip) m = Some line →
  lines !! i = Some pyline →
  idl_args line = Ok args →
  idl_argnames args = Ok argnames →
  idl_argtypes args = Ok argtypes →
  patch_func fname ip fns func_id (lines, count)
  = (sig ← new_signature ip func_id pyline argnames argtypes;
     Ok (injected fname i indent line (help_searches m argtypes) sig lines,
         S count)).
Proof.
  intros Hm Ht Hget Hline Hpy Hargs Hnames Htypes. unfold patch_func.
  rewrite (unmatched_Some _ _ _ Hm Ht), Hm.
  unfold getitem, item. rewrite Hget. simpl. rewrite Hline. simpl.
  rewrite Hpy. simpl. rewrite Hargs. simpl. rewrite Hnames. simpl. rewrite Htypes. simpl.
  destruct (new_signature ip func_id pyline argnames argtypes) as [sig|e];
    simpl; [|done].
  unfold injected, help_searches. by rewrite Nat.add_1_r.
Qed.




(** *** Identifiers without a match, and fatal lookups *)

Lemma patch_func_unmatched fname ip (fns : dict api_function) func_id st :
  unmatched func_id (IdlParser.functions ip) = true →
  patch_func fname ip fns func_id st = Ok st.
Proof. intros Hun. unfold patch_func. destruct st. by rewrite Hun. Qed.

Lemma patch_loop_unmatched fname ip (fns : dict api_function) ks st :
  Forall (fun k => unmatched k (IdlParser.functions ip) = true) ks →
  for_r ks (patch_func fname ip fns) st = Ok st.
Proof.
  induction 1 as [|k ks Hk Hks IH]; [done|].
  cbn [for_r]. rewrite patch_func_unmatched by done. apply IH.
Qed.

(** C3 (amended). An identifier with no match in the function table never
    aborts the run by itself: its pass of the patch loop changes nothing,
    a file whose identifiers are all unmatched comes out of the loop
    unchanged, and whenever the run of the patcher on the file completes,
    every recorded function without a match is reported as unknown.  The
    lookups made for a matched identifier can be fatal: when the
    declaration has a single parameter of a type named [...Options] or
    [...Descriptor], the pass raises AssertionError if the type name does
    not start with "GPU", and KeyError if the struct table has no entry
    for the name without that prefix; the run then ends before the
    report, and nothing is reported for the file. *)
Theorem unmatched_never_fatal_lookups_may_be :
  (∀ fname ip (fns : dict api_function) func_id st,
     unmatched func_id (IdlParser.functions ip) = true →
     patch_func fname ip fns func_id st = Ok st)
  ∧ (∀ fname ip (fns : dict api_function) lines,
       Forall (fun k => unmatched k (IdlParser.functions ip) = true) (keys fns) →
       inject fname ip fns lines = Ok (lines, 0%nat))
  ∧ (∀ black fname ip code o code' o' api_lines (fns : dict api_function)
       func_id funcname i indent,
       patch_file black fname ip code o = Ok (code', o') →
       read_api_lines black code = Ok api_lines →
       detect_api_functions api_lines = Ok fns →
       get fns func_id = Some (funcname, i, indent) →
       unmatched func_id (IdlParser.functions ip) = true →
       "Found unknown function " +:+ funcname ∈ stdout o')
  ∧ (∀ fname ip (fns : dict api_function) func_id lines count m funcname i
       indent line pyline args argnames t,
       get_func_id_match func_id (IdlParser.functions ip) = Some m →
       Py.truthy m = true →
       get fns func_id = Some (funcname, i, indent) →
       get (IdlParser.functions ip) m = Some line →
       lines !! i = Some pyline →
       idl_args line = Ok args →
       idl_argnames args = Ok argnames →
       idl_argtypes args = Ok [t] →
       existsb (Py.endswith t) ["Options"; "Descriptor"] = true →
       (Py.startswith t "GPU" = false →
        patch_func fname ip fns func_id (lines, count) = Raise AssertionError)
       ∧ (Py.startswith t "GPU" = true →
          get (IdlParser.structs ip) (Py.slice_from 3 t) = None →
          patch_func fname ip fns func_id (lines, count)
          = Raise (KeyError (Py.slice_from 3 t)))).
Proof.
  split; [|split; [|split]].
  - intros. by apply patch_func_unmatched.
  - intros fname ip fns lines Hall. unfold inject.
    apply patch_loop_unmatched, Forall_forall.
    intros k Hk. rewrite elem_of_reverse in Hk.
    rewrite Forall_forall in Hall. by apply Hall.
  - intros black fname ip code o code' o' api_lines fns func_id funcname i
      indent Hrun Hread Hdetect Hget Hun.
    unfold patch_file in Hrun. rewrite Hread in Hrun.
    cbn [mbind result_bind] in Hrun. rewrite Hdetect in Hrun.
    cbn [mbind result_bind] in Hrun.
    apply bind_Ok in Hrun as ([lines' count] & _ & Hrun).
    apply bind_Ok in Hrun as (text & _ & [= _ <-]).
    rewrite stdout_print. apply elem_of_app. left.
    by eapply unknown_function_reported.
  - intros fname ip fns func_id lines count m funcname i indent line pyline
      args argnames t Hm Ht Hget Hline Hpy Hargs Hnames Htypes Hend.
    rewrite (patch_func_matched _ _ _ _ _ _ _ _ _ _ _ _ _ _ _
               Hm Ht Hget Hline Hpy Hargs Hnames Htypes).
    unfold new_signature, is_descriptor. rewrite Hend. simpl. split.
    + by intros ->.
    + intros -> Hnone. simpl. unfold getitem. by rewrite Hnone.
Qed.

Lemma unmatched_never_fatal_lookups_may_be_witness :
  patch_file silent_black "base.py" buffer_ip device_code no_output
  = Ok (device_code_patched, mkOut device_report device_report_file)
  ∧ unmatched "devicefoo" (IdlParser.functions buffer_ip) = true
  ∧ "Found unknown function " +:+ "GPUDevice.foo"
      ∈ stdout (mkOut device_report device_report_file).
Proof.
  split; [vm_compute; reflexivity|]. split; [reflexivity|].
  exact (proj1 (proj2 (proj2 unmatched_never_fatal_lookups_may_be))
           silent_black "base.py" buffer_ip device_code no_output
           device_code_patched (mkOut device_report device_report_file)
           device_lines device_functions "devicefoo" "GPUDevice.foo" 4%nat
           4%nat eq_refl eq_refl eq_refl eq_refl eq_refl).
Defined.

(** C3 as worded fails: createBuffer matches its declaration, the struct
    table has no BufferDescriptor, and the lookup aborts the run. *)
Lemma missing_struct_aborts_the_run :
  get_func_id_match "devicecreatebuffer" (IdlParser.functions no_struct_ip)
  = Some "devicecreatebuffer"
  ∧ get (IdlParser.structs no_struct_ip) "BufferDescriptor" = None
  ∧ patch_file silent_black "base.py" no_struct_ip device_code no_output
    = Raise (KeyError "BufferDescriptor").
Proof. by vm_compute. Qed.
(** ** The report mirrors the console *)












(** ** Lines of text *)

Lemma has_linebreak_app (a b : string) :
  has_linebreak (a +:+ b) = has_linebreak a || has_linebreak b.
Proof.
  induction a as [|c a IH]; [done|].
  rewrite append_cons. cbn [has_linebreak]. by rewrite IH, orb_assoc.
Qed.

Lemma splitlines_from_no_break (s : string) :
  ∀ after_cr,
    Forall (fun l => has_linebreak l = false) (Py.splitlines_from after_cr s).
Proof.
  induction s as [|c s IH]; intros after_cr; cbn [Py.splitlines_from];
    [constructor|].
  destruct (after_cr && bool_decide (c = "010"%char)); [apply IH|].
  destruct (Py.islinebreak c) eqn:Hc; [constructor; [done|apply IH]|].
  specialize (IH false). destruct (Py.splitlines_from false s) as [|l ls].
  - repeat constructor. cbn [has_linebreak]. by rewrite Hc.
  - inversion IH as [|? ? Hl Hls]; subst. constructor; [|done].
    cbn [has_linebreak]. by rewrite Hc, Hl.
Qed.

Lemma splitlines_line (l rest : string) :
  has_linebreak l = false →
  Py.splitlines (l +:+ nl +:+ rest) = l :: Py.splitlines rest.
Proof.
  unfold Py.splitlines. induction l as [|c l IH]; intros Hl.
  - reflexivity.
  - cbn [has_linebreak] in Hl. apply orb_false_iff in Hl as [Hc Hl].
    rewrite append_cons. cbn [Py.splitlines_from andb]. rewrite Hc.
    by rewrite (IH Hl).
Qed.

Lemma splitlines_last (l : string) :
  has_linebreak l = false →
  Py.splitlines l = if decide (l = "") then [] else [l].
Proof.
  unfold Py.splitlines. induction l as [|c l IH]; intros Hl; [done|].
  cbn [has_linebreak] in Hl. apply orb_false_iff in Hl as [Hc Hl].
  cbn [Py.splitlines_from andb]. rewrite Hc, (IH Hl).
  by destruct (decide (l = "")) as [->|].
Qed.

Lemma join_cons (sep x y : string) (r : list string) :
  Py.join sep (x :: y :: r) = x +:+ sep +:+ Py.join sep (y :: r).
Proof. reflexivity. Qed.

(** X2.  [splitlines] never leaves a line break inside a line, and it
    undoes the join that the patcher writes: lines without line breaks,
    followed by the empty last line and joined by newlines, split into
    the same lines again. *)
Theorem splitlines_join_round_trip :
  (∀ s, Forall (fun l => has_linebreak l = false) (Py.splitlines s))
  ∧ (∀ lines,
       Forall (fun l => has_linebreak l = false) lines →
       Py.splitlines (Py.join nl (lines ++ [""])) = lines).
Proof.
  split; [intros s; apply splitlines_from_no_break|].
  induction 1 as [|l lines Hl _ IH]; [done|].
  destruct lines as [|l' lines].
  - change (Py.join nl ([l] ++ [""])) with (l +:+ nl +:+ "").
    by rewrite splitlines_line.
  - change ((l :: l' :: lines) ++ [""]) with (l :: l' :: (lines ++ [""])).
    rewrite join_cons, splitlines_line by done. f_equal. apply IH.
Qed.

Lemma splitlines_join_round_trip_witness :
  Forall (fun l => has_linebreak l = false) ["def f():"; "    pass"]
  ∧ Py.splitlines (Py.join nl (["def f():"; "    pass"] ++ [""]))
    = ["def f():"; "    pass"].
Proof.
  split; [by repeat constructor|].
  apply (proj2 splitlines_join_round_trip). by repeat constructor.
Defined.

Lemma rstrip_idem (l : string) : Py.rstrip (Py.rstrip l) = Py.rstrip l.
Proof.
  induction l as [|c l IH]; [done|]. cbn [Py.rstrip].
  destruct (Py.rstrip l) as [|c' r] eqn:Hr.
  - destruct (Py.isspace c) eqn:Hc; [done|]. cbn [Py.rstrip]. by rewrite Hc.
  - change (Py.rstrip (String c (String c' r)))
      with (match Py.rstrip (String c' r) with
            | EmptyString => if Py.isspace c then EmptyString else String c EmptyString
            | r' => String c r'
            end).
    by rewrite IH.
Qed.

Lemma has_linebreak_rstrip (l : string) :
  has_linebreak l = false → has_linebreak (Py.rstrip l) = false.
Proof.
  destruct (rstrip_prefix l) as [w Hw]. rewrite Hw at 1.
  rewrite has_linebreak_app. by intros [? _]%orb_false_iff.
Qed.

(** X3.  The lines that the patcher works on: the last one is empty, none
    is a marker comment of an earlier run, none ends in a blank and none
    holds a line break.  The line "before" the first one, which the
    scanner reads with the index -1, is therefore the empty last line. *)
Theorem read_api_lines_clean
    (black : Z → string → string * string) (code : string)
    (api_lines : list string) :
  read_api_lines black code = Ok api_lines →
  last api_lines = Some ""
  ∧ Forall (fun line => is_marker line = false) api_lines
  ∧ Forall (fun line => Py.rstrip line = line) api_lines
  ∧ Forall (fun line => has_linebreak line = false) api_lines
  ∧ line_before api_lines 0 = Ok "".
Proof.
  intros Hread.
  assert (Hlast : last api_lines = Some "").
  { unfold read_api_lines in Hread.
    apply bind_Ok in Hread as (text & _ & [= <-]). apply last_snoc. }
  split_and!.
  - done.
  - by eapply read_api_lines_no_markers.
  - unfold read_api_lines in Hread.
    apply bind_Ok in Hread as (text & _ & [= <-]).
    apply Forall_app. split; [|by repeat constructor].
    apply Forall_fmap, Forall_forall. intros l _. apply rstrip_idem.
  - unfold read_api_lines in Hread.
    apply bind_Ok in Hread as (text & _ & [= <-]).
    apply Forall_app. split; [|by repeat constructor].
    apply Forall_fmap, Forall_forall. intros l [Hl _]%elem_of_List_filter.
    apply has_linebreak_rstrip.
    by apply (proj1 (Forall_forall _ _) (splitlines_from_no_break text false)).
  - unfold line_before, item_last. by rewrite Hlast.
Qed.

Lemma read_api_lines_clean_witness :
  read_api_lines silent_black device_code_patched
  = Ok ["class GPUDevice:";
        "    def createBuffer(self, *, " +:+ label_default +:+ ", size):";
        "        pass"; ""; "    def foo(self):"; "        pass"; ""]
  ∧ last ["class GPUDevice:";
          "    def createBuffer(self, *, " +:+ label_default +:+ ", size):";
          "        pass"; ""; "    def foo(self):"; "        pass"; ""]
    = Some "".
Proof.
  split; [vm_compute; reflexivity|].
  exact (proj1 (read_api_lines_clean silent_black device_code_patched _ eq_refl)).
Defined.

(** ** Counting what the patch loop does *)

Lemma patch_func_length fname ip fns func_id lines count lines' count' :
  patch_func fname ip fns func_id (lines, count) = Ok (lines', count') →
  (unmatched func_id (IdlParser.functions ip) = true
   ∧ lines' = lines ∧ count' = count)
  ∨ (unmatched func_id (IdlParser.functions ip) = false
     ∧ count' = S count
     ∧ length lines'
       = (length lines + if bool_decide (fname = "base.py") then 2 else 1)%nat).
Proof.
  unfold patch_func.
  destruct (unmatched func_id (IdlParser.functions ip)) eqn:Hun.
  { intros [= <- <-]. by left. }
  destruct (get_func_id_match func_id (IdlParser.functions ip)) as [m|] eqn:Hm.
  2:{ apply unmatched_None in Hm. congruence. }
  intros H. right. split; [done|].
  apply bind_Ok in H as ([[funcname i] indent] & Hf%getitem_Ok & H).
  apply bind_Ok in H as (line & Hline & H).
  apply bind_Ok in H as (pyline & Hpy%item_Ok & H).
  apply bind_Ok in H as (args & Hargs & H).
  apply bind_Ok in H as (argnames & Hnames & H).
  apply bind_Ok in H as (argtypes & Htypes & H).
  apply bind_Ok in H as (sig & Hsig & H).
  injection H as <- <-. split; [lia|].
  pose proof (lookup_lt_Some _ _ _ Hpy) as Hi.
  unfold insert_at. case_bool_decide;
    repeat (rewrite ?length_app, ?length_cons, ?length_take, ?length_drop,
              ?length_insert); lia.
Qed.

Lemma patch_loop_count fname ip fns ks :
  ∀ lines count lines' count',
    for_r ks (patch_func fname ip fns) (lines, count) = Ok (lines', count') →
    count'
    = (count
       + length (List.filter
                   (fun k => negb (unmatched k (IdlParser.functions ip))) ks))%nat
    ∧ length lines'
      = (length lines
         + (count' - count)
           * if bool_decide (fname = "base.py") then 2 else 1)%nat.
Proof.
  induction ks as [|k ks IH]; intros lines count lines' count' Hrun.
  - injection Hrun as <- <-. simpl. lia.
  - cbn [for_r] in Hrun.
    apply bind_Ok in Hrun as ([lines1 count1] & Hstep & Hrun).
    apply IH in Hrun as [-> Hlen]. cbn [List.filter].
    apply patch_func_length in Hstep
      as [(-> & -> & ->)|(-> & -> & Hlen1)]; cbn [negb].
    + done.
    + rewrite Hlen, Hlen1. cbn [length]. split; [lia|].
      destruct (bool_decide (fname = "base.py")); lia.
Qed.

Lemma length_filter_reverse {A} (f : A → bool) (l : list A) :
  length (List.filter f (reverse l)) = length (List.filter f l).
Proof.
  induction l as [|x l IH]; [done|].
  rewrite reverse_cons, List.filter_app, length_app, IH. simpl.
  destruct (f x); simpl; lia.
Qed.

Lemma length_filter_split {A} (f : A → bool) (l : list A) :
  (length (List.filter (fun x => negb (f x)) l) + length (List.filter f l)
   = length l)%nat.
Proof. induction l as [|x l IH]; [done|]. simpl. destruct (f x); simpl; lia. Qed.

(** X4.  The counter that the patch loop returns is the number of
    recorded identifiers with a match in the interface; every recorded
    identifier is either counted or among those reported as unknown; and
    the file grows by two lines per counted identifier in base.py and by
    one line in any other file. *)
Theorem inject_accounting (fname : string) (ip : IdlParser.t)
    (fns : dict api_function) (lines lines' : list string) (count : nat) :
  inject fname ip fns lines = Ok (lines', count) →
  count = length (matched_keys ip fns)
  ∧ (count + length (unknown_keys ip fns))%nat = length (keys fns)
  ∧ length lines'
    = (length lines + count * if bool_decide (fname = "base.py") then 2 else 1)%nat.
Proof.
  unfold inject. intros Hrun.
  apply patch_loop_count in Hrun as [Hcount Hlen].
  rewrite length_filter_reverse in Hcount. simpl in Hcount.
  unfold matched_keys, unknown_keys. split_and!.
  - done.
  - rewrite Hcount. apply length_filter_split.
  - rewrite Hlen. by rewrite Nat.sub_0_r.
Qed.

Lemma inject_accounting_witness :
  ∃ lines',
    inject "base.py" buffer_ip device_functions device_lines = Ok (lines', 1%nat)
    ∧ 1%nat = length (matched_keys buffer_ip device_functions)
    ∧ (1 + length (unknown_keys buffer_ip device_functions))%nat
      = length (keys device_functions)
    ∧ length lines' = (length device_lines + 1 * 2)%nat.
Proof.
  eexists. split; [vm_compute; reflexivity|].
  exact (inject_accounting "base.py" buffer_ip device_functions device_lines
           _ 1%nat eq_refl).
Defined.

(** ** The function report *)

Lemma for__ext {A S} (l : list A) (body body' : A → S → S) (s : S) :
  (∀ a s, a ∈ l → body a s = body' a s) → for_ l body s = for_ l body' s.
Proof.
  revert s. induction l as [|a l IH]; intros s Hext; [done|].
  rewrite !for__cons, Hext by left. apply IH. intros a' s' Ha'. apply Hext. by right.
Qed.

Lemma stdout_report_loop (f : string → bool) (g : string → option string)
    (ks : list string) :
  ∀ o,
    Forall (fun k => is_Some (g k)) ks →
    ∃ lines,
      stdout (for_ ks
                (fun k o =>
                   if f k then
                     match g k with Some l => print [l] o | None => o end
                   else o) o)
      = stdout o ++ lines
      ∧ Forall2 (fun k l => g k = Some l) (List.filter f ks) lines.
Proof.
  induction ks as [|k ks IH]; intros o Hks.
  - exists []. by rewrite app_nil_r.
  - apply Forall_cons in Hks as [[l Hl] Hks]. rewrite for__cons.
    cbn [List.filter]. destruct (f k).
    + rewrite Hl. destruct (IH (print [l] o) Hks) as (lines & Heq & Hall).
      exists (l :: lines). split; [|by constructor].
      by rewrite Heq, stdout_print, <- app_assoc.
    + apply IH, Hks.
Qed.

Lemma keys_is_Some {V} (d : dict V) :
  Forall (fun k => is_Some (get d k)) (keys d).
Proof.
  apply Forall_forall. intros k Hk.
  destruct (get d k) eqn:Hget; [done|]. by apply get_None_keys in Hget.
Qed.

(** X5.  After the line with the counter, the function report is exactly
    this: one line "Not implemented" with the declaration of each
    identifier of the interface that matches no recorded function, in the
    order of the interface, and then one line "Found unknown function"
    with the name of each recorded identifier that matches nothing in the
    interface, in the order of the file. *)
Theorem report_lists_unmatched (ip : IdlParser.t) (fns : dict api_function)
    (count : nat) (o : Out) :
  ∃ missing unknown,
    stdout (report_missing ip fns count o)
    = stdout o
      ++ ["Found " +:+ str_nat count +:+ " functions already implemented"]
      ++ missing ++ unknown
    ∧ Forall2
        (fun k l => ∃ decl, get (IdlParser.functions ip) k = Some decl
                            ∧ l = "Not implemented: " +:+ decl)
        (missing_keys ip fns) missing
    ∧ Forall2
        (fun k l => ∃ funcname i indent,
                      get fns k = Some (funcname, i, indent)
                      ∧ l = "Found unknown function " +:+ funcname)
        (unknown_keys ip fns) unknown.
Proof.
  unfold report_missing.
  set (o1 := print _ o).
  set (g1 := fun k => (fun decl => "Not implemented: " +:+ decl)
                        <$> get (IdlParser.functions ip) k).
  set (g2 := fun k => (fun f : api_function =>
                         "Found unknown function " +:+ f.1.1) <$> get fns k).
  rewrite (for__ext (keys (IdlParser.functions ip)) _
             (fun k o => if unmatched k fns then
                           match g1 k with Some l => print [l] o | None => o end
                         else o)).
  2:{ intros k s _. unfold g1. by destruct (get (IdlParser.functions ip) k). }
  rewrite (for__ext (keys fns) _
             (fun k o => if unmatched k (IdlParser.functions ip) then
                           match g2 k with Some l => print [l] o | None => o end
                         else o)).
  2:{ intros k s _. unfold g2.
      by destruct (get fns k) as [[[funcname i] indent]|]. }
  destruct (stdout_report_loop (fun k => unmatched k fns) g1
              (keys (IdlParser.functions ip)) o1) as (missing & Heq1 & Hall1).
  { eapply Forall_impl; [apply keys_is_Some|].
    intros k [decl Hk]. unfold g1. by rewrite Hk. }
  destruct (stdout_report_loop (fun k => unmatched k (IdlParser.functions ip)) g2
              (keys fns)
              (for_ (keys (IdlParser.functions ip))
                 (fun k o => if unmatched k fns then
                               match g1 k with
                               | Some l => print [l] o | None => o end
                             else o) o1)) as (unknown & Heq2 & Hall2).
  { eapply Forall_impl; [apply keys_is_Some|].
    intros k [decl Hk]. unfold g2. by rewrite Hk. }
  exists missing, unknown. split_and!.
  - rewrite Heq2, Heq1. unfold o1. rewrite stdout_print.
    by rewrite <- !app_assoc.
  - eapply Forall2_impl; [exact Hall1|]. intros k l Hk. unfold g1 in Hk.
    destruct (get (IdlParser.functions ip) k) as [decl|]; [|done].
    injection Hk as <-. by exists decl.
  - eapply Forall2_impl; [exact Hall2|]. intros k l Hk. unfold g2 in Hk.
    destruct (get fns k) as [[[funcname i] indent]|]; [|done].
    injection Hk as <-. by exists funcname, i, indent.
Qed.

(** ** The scanner, line by line *)

Lemma mapM_Ok {A B} (f : A → result B) (l : list A) (ys : list B) :
  mapM f l = Ok ys ↔ Forall2 (fun x y => f x = Ok y) l ys.
Proof.
  revert ys. induction l as [|x l IH]; intros ys; cbn [mapM].
  - split; [intros [= <-]; constructor | by intros ->%Forall2_nil_inv_l].
  - split.
    + intros H. apply bind_Ok in H as (y & Hy & H).
      apply bind_Ok in H as (k & Hk & [= <-]). constructor; [done|by apply IH].
    + intros (y & k & Hy & Hk & ->)%Forall2_cons_inv_l.
      apply IH in Hk. by rewrite Hy, Hk.
Qed.

Lemma mapM_Raise {A B} (f : A → result B) (l : list A) (e : exn) :
  mapM f l = Raise e → ∃ x, x ∈ l ∧ f x = Raise e.
Proof.
  induction l as [|x l IH]; cbn [mapM]; [done|].
  destruct (f x) as [y|e'] eqn:Hx.
  - destruct (mapM f l) as [k|e'] eqn:Hl; [done|].
    intros [= ->]. destruct IH as (x' & Hin & Hx'); [done|].
    exists x'. split; [by right|done].
  - intros [= ->]. exists x. split; [by left|done].
Qed.

Lemma mapM_fails {A B} (f : A → result B) (l : list A) (x : A) (e : exn) :
  x ∈ l → f x = Raise e → is_ok (mapM f l) = false.
Proof.
  induction l as [|x' l IH]; [by intros ?%elem_of_nil|].
  intros [->|Hin]%elem_of_cons Hx; cbn [mapM].
  - by rewrite Hx.
  - destruct (f x'); [|done]. simpl.
    specialize (IH Hin Hx). by destruct (mapM f l).
Qed.

Lemma scan_line_class api_lines i line cls cls' found :
  scan_line api_lines i line cls = Ok (cls', found) →
  cls' = if Py.startswith line "class " then class_word line else cls.
Proof.
  unfold scan_line. intros H.
  apply bind_Ok in H as (cls1 & Hcls & H).
  assert (cls' = cls1) as ->.
  { repeat (case_match; simplify_eq);
      repeat (apply bind_Ok in H as (? & _ & H); repeat (case_match; simplify_eq));
      congruence. }
  clear H. destruct (Py.startswith line "class "); [|congruence].
  rewrite split_head in Hcls. cbn [mbind result_bind] in Hcls.
  rewrite split_head in Hcls. cbn [mbind result_bind] in Hcls.
  unfold class_word, before_paren, item_last in *.
  destruct (last _); cbn [mbind result_bind] in Hcls; by simplify_eq.
Qed.

Lemma class_in_force_snoc (pre : list string) (x : string) :
  class_in_force (pre ++ [x])
  = if Py.startswith x "class " then class_word x else class_in_force pre.
Proof. unfold class_in_force. by rewrite foldl_app. Qed.

Lemma exposed_loop_per_line api_lines rest :
  ∀ pre seen,
    api_lines = pre ++ rest →
    for_r (imap (fun j x => ((length pre + j)%nat, x)) rest)
      (fun '(i, line) '(current_class, seen) =>
         '(current_class, found) ← scan_line api_lines i line current_class;
         Ok (current_class, seen ++ option_list found))
      (class_in_force pre, seen)
    = (founds ← mapM (fun '(i, line) => r ← scan_at api_lines i line; Ok r.2)
                  (imap (fun j x => ((length pre + j)%nat, x)) rest);
       Ok (class_in_force api_lines, seen ++ concat (option_list <$> founds))).
Proof.
  unfold scan_at.
  induction rest as [|x rest IH]; intros pre seen Hlines.
  - rewrite app_nil_r in Hlines. subst. simpl. by rewrite app_nil_r.
  - rewrite imap_cons. cbn [for_r mapM].
    replace (take (length pre + 0) api_lines) with pre
      by (subst; by rewrite Nat.add_0_r, take_app_length).
    destruct (scan_line api_lines (length pre + 0) x (class_in_force pre))
      as [[cls1 found]|e] eqn:Hscan; [|done].
    cbn [mbind result_bind snd].
    apply scan_line_class in Hscan. rewrite <- class_in_force_snoc in Hscan.
    subst cls1.
    rewrite (imap_ext _ (fun j x0 => ((length (pre ++ [x]) + j)%nat, x0)) rest).
    2:{ intros j y _. simpl. rewrite length_app. simpl. f_equal. lia. }
    rewrite IH by (by rewrite <- app_assoc).
    destruct (mapM _ _) as [founds|e]; [|done].
    cbn [mbind result_bind mret result_ret]. rewrite fmap_cons, concat_cons.
    by rewrite app_assoc.
Qed.

(** The scanning loop judges each line on its own, knowing only the class
    of the last class line above it. *)
Lemma exposed_functions_per_line api_lines :
  exposed_functions api_lines
  = (founds ← mapM (fun '(i, line) => r ← scan_at api_lines i line; Ok r.2)
                (imap pair api_lines);
     Ok (concat (option_list <$> founds))).
Proof.
  unfold exposed_functions.
  pose proof (exposed_loop_per_line api_lines api_lines [] [] eq_refl) as H.
  simpl in H. change (class_in_force []) with (@None string) in H.
  change (imap (fun j x => (j, x)) api_lines) with (imap pair api_lines) in H.
  rewrite H. by destruct (mapM _ _).
Qed.

Lemma words_nonempty (s : string) (c : ascii) (r : string) :
  Py.lstrip s = String c r → Py.words s ≠ [].
Proof.
  induction s as [|x s IH]; [done|]. cbn [Py.lstrip Py.words].
  destruct (Py.isspace x); [done|]. intros _.
  destruct (Py.starts_word s); [|done]. by destruct (Py.words s).
Qed.

Lemma last_nonempty {A} (l : list A) : l ≠ [] → ∃ a, last l = Some a.
Proof.
  induction l as [|x l IH]; [done|]. intros _.
  destruct l as [|y l]; [by exists x|]. by apply IH.
Qed.

Lemma split_char_head (a c : ascii) (s : string) :
  default "" (head (Py.split (String c s) (String a "")))
  = if decide (c = a) then ""
    else String c (default "" (head (Py.split s (String a "")))).
Proof.
  unfold Py.split. cbn [Py.split_from String.prefix].
  destruct (ascii_dec a c) as [<-|Hne].
  - rewrite prefix_empty. by rewrite decide_True.
  - rewrite decide_False by congruence.
    by destruct (split_from_nonempty 0 (String a "") s) as (p & ps & ->).
Qed.

Lemma before_paren_lstrip (line : string) (c : ascii) (r : string) :
  Py.lstrip line = String c r → c ≠ "("%char →
  ∃ r', Py.lstrip (before_paren line) = String c r'.
Proof.
  intros Hl Hc. induction line as [|x l IH]; [done|].
  rewrite before_paren_cons. cbn [Py.lstrip] in Hl.
  destruct (Py.isspace x) eqn:Hx.
  - case_decide as Hp; [by subst|].
    cbn [Py.lstrip]. rewrite Hx. by apply IH.
  - injection Hl as -> ->. rewrite decide_False by done.
    cbn [Py.lstrip]. rewrite Hx. by eexists.
Qed.

Lemma def_line_head (line : string) :
  is_def_line line = true →
  ∃ c r, Py.lstrip line = String c r ∧ (c = "d"%char ∨ c = "a"%char).
Proof.
  unfold is_def_line, startswith_any, Py.startswith.
  destruct (Py.lstrip line) as [|c r]; [done|].
  cbn [existsb String.prefix].
  destruct (ascii_dec "d" c) as [<-|]; [intros _; eexists _, _; by eauto|].
  destruct (ascii_dec "a" c) as [<-|]; [intros _; eexists _, _; by eauto|].
  done.
Qed.

Lemma def_line_words (line : string) :
  is_def_line line = true →
  ∃ name, last (Py.words (before_paren line)) = Some name.
Proof.
  intros (c & r & Hl & Hc)%def_line_head.
  destruct (before_paren_lstrip line c r Hl) as [r' Hr'].
  { by destruct Hc as [-> | ->]. }
  by eapply last_nonempty, words_nonempty.
Qed.

Lemma def_line_not_class (line : string) :
  is_def_line line = true → Py.startswith line "class " = false.
Proof.
  intros (c & r & Hl & Hc)%def_line_head.
  unfold Py.startswith. destruct line as [|x l]; [done|].
  cbn [String.prefix]. destruct (ascii_dec "c" x) as [<-|]; [|done].
  change (Py.lstrip (String "c" l)) with (String "c" l) in Hl.
  destruct Hc as [-> | ->]; discriminate Hl.
Qed.

Lemma class_word_Some (line : string) :
  Py.startswith line "class " = true → ∃ w, class_word line = Some w.
Proof.
  unfold Py.startswith. destruct line as [|x l]; [done|].
  cbn [String.prefix]. destruct (ascii_dec "c" x) as [<-|]; [|done].
  intros _. unfold class_word.
  rewrite split_char_head, decide_False by done.
  rewrite before_paren_cons, decide_False by done.
  by eapply last_nonempty, (words_nonempty _ "c").
Qed.

Lemma line_before_Ok (api_lines : list string) (i : nat) (line : string) :
  api_lines !! i = Some line → ∃ before, line_before api_lines i = Ok before.
Proof.
  intros Hi. destruct i as [|j]; unfold line_before, item_last, item.
  - destruct (last_nonempty api_lines) as [a ->]; [by destruct api_lines|].
    by eexists.
  - destruct (lookup_lt_is_Some_2 api_lines j) as [a ->];
      [apply lookup_lt_Some in Hi; lia|]. by eexists.
Qed.

(** The body of the scanning loop, case by case, on a line of the file. *)
Lemma scan_line_cases api_lines i line cls :
  api_lines !! i = Some line →
  (is_def_line line = false
   ∧ scan_line api_lines i line cls
     = Ok (if Py.startswith line "class " then class_word line else cls, None))
  ∨ (is_def_line line = true
     ∧ ∃ name before,
         last (Py.words (before_paren line)) = Some name
         ∧ line_before api_lines i = Ok before
         ∧ scan_line api_lines i line cls
           = if Py.startswith name "_"
                || Py.startswith (Py.lstrip before) "@property"
             then Ok (cls, None)
             else
               funcname ←
                 (if bool_decide (indent_of line ≠ 0%nat) then
                    match cls with
                    | Some c => Ok (c +:+ "." +:+ name)
                    | None => Raise TypeError
                    end
                  else Ok name);
               Ok (cls, Some (func_id_of funcname, (funcname, i, indent_of line)))).
Proof.
  intros Hi. destruct (is_def_line line) eqn:Hdef; [right|left]; split; try done.
  - destruct (def_line_words line Hdef) as [name Hname].
    destruct (line_before_Ok api_lines i line Hi) as [before Hbefore].
    exists name, before. split_and!; [done..|].
    unfold scan_line. rewrite (def_line_not_class line Hdef).
    cbn [mbind result_bind].
    unfold is_def_line in Hdef. rewrite Hdef.
    rewrite split_head. cbn [mbind result_bind].
    unfold item_last. fold (before_paren line). rewrite Hname.
    cbn [mbind result_bind].
    destruct (Py.startswith name "_"); [done|]. cbn [negb orb].
    rewrite Hbefore. cbn [mbind result_bind].
    by destruct (Py.startswith (Py.lstrip before) "@property").
  - unfold scan_line. unfold is_def_line in Hdef. rewrite Hdef.
    destruct (Py.startswith line "class ") eqn:Hclass; [|done].
    destruct (class_word_Some line Hclass) as [w Hw]. rewrite Hw.
    rewrite split_head. cbn [mbind result_bind].
    rewrite split_head. cbn [mbind result_bind].
    unfold class_word, before_paren in Hw. unfold item_last. by rewrite Hw.
Qed.

Lemma class_in_force_None (lines : list string) :
  class_in_force lines = None
  ↔ Forall (fun l => Py.startswith l "class " = false) lines.
Proof.
  induction lines as [|x lines IH] using rev_ind; [done|].
  rewrite class_in_force_snoc, Forall_app, Forall_singleton.
  destruct (Py.startswith x "class ") eqn:Hx.
  - destruct (class_word_Some x Hx) as [w ->]. split; [done|by intros [_ ?]].
  - rewrite IH. split; [done|by intros [? _]].
Qed.

Lemma elem_of_setitem {V} (d : dict V) (k : string) (v : V) (e : string * V) :
  e ∈ setitem d k v → e = (k, v) ∨ e ∈ d.
Proof.
  induction d as [|[k' v'] d IH]; simpl.
  - intros ->%list_elem_of_singleton. by left.
  - case_decide as Hk.
    + subst. intros [->|?]%elem_of_cons; [by left|right; by right].
    + intros [->|[->|?]%IH]%elem_of_cons; [right; by left|by left|right; by right].
Qed.

Lemma elem_of_as_dict seen e : e ∈ as_dict seen → e ∈ seen.
Proof.
  induction seen as [|[k f] seen IH] using rev_ind; [done|].
  change [(k, f)] with (option_list (Some (k, f))). rewrite as_dict_snoc.
  simpl. intros [->|?%IH]%elem_of_setitem; apply elem_of_app; [right; by left|by left].
Qed.

(** Where an exposed function comes from: a line of the file that the
    body of the loop, run with the class in force there, turns into this
    entry. *)
Lemma exposed_function_origin api_lines seen e :
  exposed_functions api_lines = Ok seen → e ∈ seen →
  ∃ i line cls',
    api_lines !! i = Some line ∧ scan_at api_lines i line = Ok (cls', Some e).
Proof.
  rewrite exposed_functions_per_line. intros H He.
  apply bind_Ok in H as (founds & Hfounds & [= <-]).
  apply elem_of_concat in He as (l & He & Hl).
  apply list_elem_of_fmap in Hl as (found & -> & Hfound).
  destruct found as [e'|]; [|by apply elem_of_nil in He].
  apply list_elem_of_singleton in He as ->.
  apply list_elem_of_lookup in Hfound as [idx Hidx].
  apply mapM_Ok in Hfounds.
  destruct (Forall2_lookup_r _ _ _ _ _ Hfounds Hidx) as ([i line] & Hp & Hscan).
  rewrite list_lookup_imap in Hp.
  destruct (api_lines !! idx) as [line'|] eqn:Hline; [|done].
  injection Hp as <- <-.
  apply bind_Ok in Hscan as ([cls' found] & Hscan & [= ->]).
  by exists idx, line', cls'.
Qed.

(** X6.  Every function that the scanner records is declared in the
    file: its line starts, after the indent, with "def " or "async def",
    the recorded indent is that of the line, the word before the
    parenthesis is the function's own name and does not start with an
    underscore, the line above does not start with "@property", an
    unindented function keeps its name and an indented one is prefixed by
    the name of the last class line above it, and the key is the
    normalised qualified name. *)
Theorem recorded_function_declared (api_lines : list string)
    (fns : dict api_function) (func_id funcname : string) (i indent : nat) :
  detect_api_functions api_lines = Ok fns →
  get fns func_id = Some (funcname, i, indent) →
  ∃ line name before,
    api_lines !! i = Some line
    ∧ is_def_line line = true
    ∧ indent = indent_of line
    ∧ last (Py.words (before_paren line)) = Some name
    ∧ Py.startswith name "_" = false
    ∧ line_before api_lines i = Ok before
    ∧ Py.startswith (Py.lstrip before) "@property" = false
    ∧ (if bool_decide (indent = 0%nat) then funcname = name
       else ∃ c, class_in_force (take i api_lines) = Some c
                 ∧ funcname = c +:+ "." +:+ name)
    ∧ func_id = func_id_of funcname.
Proof.
  rewrite detect_exposed. intros Hdetect Hget.
  apply bind_Ok in Hdetect as (seen & Hseen & [= <-]).
  apply get_Some_elem, elem_of_as_dict in Hget.
  destruct (exposed_function_origin _ _ _ Hseen Hget)
    as (j & line & cls' & Hline & Hscan).
  unfold scan_at in Hscan.
  destruct (scan_line_cases api_lines j line
              (class_in_force (take j api_lines)) Hline)
    as [[_ Heq]|(Hdef & name & before & Hname & Hbefore & Heq)];
    rewrite Heq in Hscan; [done|].
  destruct (Py.startswith name "_") eqn:Hu; [done|].
  destruct (Py.startswith (Py.lstrip before) "@property") eqn:Hp; [done|].
  cbn [orb] in Hscan.
  apply bind_Ok in Hscan as (funcname' & Hfn & Hscan).
  injection Hscan as _ <- <- <- <-.
  exists line, name, before. split_and!; try done.
  destruct (decide (indent_of line = 0%nat)) as [Hind|Hind].
  - rewrite bool_decide_true by done.
    rewrite bool_decide_false in Hfn by (by intros ?). by injection Hfn.
  - rewrite bool_decide_false by done.
    rewrite bool_decide_true in Hfn by done.
    destruct (class_in_force (take j api_lines)) as [c|]; [|done].
    injection Hfn as <-. by exists c.
Qed.

Lemma recorded_function_declared_witness :
  detect_api_functions device_lines = Ok device_functions
  ∧ ∃ line name before,
      device_lines !! 4%nat = Some line
      ∧ is_def_line line = true
      ∧ 4%nat = indent_of line
      ∧ last (Py.words (before_paren line)) = Some name
      ∧ Py.startswith name "_" = false
      ∧ line_before device_lines 4 = Ok before
      ∧ Py.startswith (Py.lstrip before) "@property" = false
      ∧ (if bool_decide (4%nat = 0%nat) then "GPUDevice.foo" = name
         else ∃ c, class_in_force (take 4 device_lines) = Some c
                   ∧ "GPUDevice.foo" = c +:+ "." +:+ name)
      ∧ "devicefoo" = func_id_of "GPUDevice.foo".
Proof.
  split; [vm_compute; reflexivity|].
  exact (recorded_function_declared device_lines device_functions
           "devicefoo" "GPUDevice.foo" 4 4 eq_refl eq_refl).
Defined.

(** X7.  The scanner can fail in one way only, with a TypeError, and it
    does so exactly when the file has an exposed function declaration
    that is indented and has no class line above it: a line that starts,
    after a non-empty indent, with "def " or "async def", whose name does
    not start with an underscore, which does not follow a "@property"
    line, and before which no line starts with "class ". *)
Theorem scan_fails_only_on_orphan_method (api_lines : list string) :
  (∀ e, detect_api_functions api_lines = Raise e → e = TypeError)
  ∧ (is_ok (detect_api_functions api_lines) = false
     ↔ ∃ i line name before,
         api_lines !! i = Some line
         ∧ is_def_line line = true
         ∧ indent_of line ≠ 0%nat
         ∧ last (Py.words (before_paren line)) = Some name
         ∧ Py.startswith name "_" = false
         ∧ line_before api_lines i = Ok before
         ∧ Py.startswith (Py.lstrip before) "@property" = false
         ∧ Forall (fun l => Py.startswith l "class " = false) (take i api_lines)).
Proof.
  rewrite detect_exposed, exposed_functions_per_line.
  set (f := fun '(i, line) => r ← scan_at api_lines i line; Ok r.2).
  assert (Hraise : ∀ e, mapM f (imap pair api_lines) = Raise e →
            e = TypeError
            ∧ ∃ i line name before,
                api_lines !! i = Some line
                ∧ is_def_line line = true
                ∧ indent_of line ≠ 0%nat
                ∧ last (Py.words (before_paren line)) = Some name
                ∧ Py.startswith name "_" = false
                ∧ line_before api_lines i = Ok before
                ∧ Py.startswith (Py.lstrip before) "@property" = false
                ∧ Forall (fun l => Py.startswith l "class " = false)
                    (take i api_lines)).
  { intros e ([i line] & Hin & Hf)%mapM_Raise.
    apply elem_of_lookup_imap in Hin as (j & line' & [= -> ->] & Hline).
    unfold f, scan_at in Hf.
    destruct (scan_line_cases api_lines j line'
                (class_in_force (take j api_lines)) Hline)
      as [[_ Heq]|(Hdef & name & before & Hname & Hbefore & Heq)];
      rewrite Heq in Hf; [done|].
    destruct (Py.startswith name "_") eqn:Hu; [done|].
    destruct (Py.startswith (Py.lstrip before) "@property") eqn:Hp; [done|].
    cbn [orb] in Hf. case_bool_decide as Hind; [|done].
    destruct (class_in_force (take j api_lines)) eqn:Hcls; [done|].
    injection Hf as <-. split; [done|].
    exists j, line', name, before. split_and!; try done.
    by apply class_in_force_None. }
  split.
  - intros e He. destruct (mapM f (imap pair api_lines)) eqn:Hm; [done|].
    injection He as ->. by apply Hraise.
  - split.
    + destruct (mapM f (imap pair api_lines)) as [founds|e] eqn:Hm; [done|].
      intros _. by apply (Hraise e).
    + intros (i & line & name & before & Hline & Hdef & Hind & Hname & Hu
                & Hbefore & Hp & Hcls).
      assert (Hf : f (i, line) = Raise TypeError).
      { unfold f, scan_at.
        destruct (scan_line_cases api_lines i line
                    (class_in_force (take i api_lines)) Hline)
          as [[Hdef' _]|(_ & name' & before' & Hname' & Hbefore' & ->)];
          [congruence|].
        rewrite Hbefore in Hbefore'. simplify_eq. rewrite Hu, Hp. cbn [orb].
        rewrite bool_decide_true by done.
        apply class_in_force_None in Hcls. by rewrite Hcls. }
      assert (Hin : (i, line) ∈ imap pair api_lines).
      { apply elem_of_lookup_imap. by exists i, line. }
      pose proof (mapM_fails f _ _ _ Hin Hf) as Hfail.
      by destruct (mapM f (imap pair api_lines)).
Qed.

Lemma scan_fails_only_on_orphan_method_witness :
  is_ok (detect_api_functions orphan_lines) = false.
Proof.
  apply (proj2 (scan_fails_only_on_orphan_method orphan_lines)).
  exists 0%nat, "    def foo(self):", "foo", "".
  split_and!; try reflexivity; [by vm_compute|constructor].
Defined.

(** ** The dictionary of recorded functions *)

Lemma keys_setitem_list {V} (d : dict V) (k : string) (v : V) :
  keys (setitem d k v)
  = if bool_decide (k ∈ keys d) then keys d else keys d ++ [k].
Proof.
  unfold keys. induction d as [|[k' v'] d IH]; [done|].
  cbn [setitem]. destruct (decide (k' = k)) as [->|Hk].
  - rewrite !fmap_cons. rewrite bool_decide_true by left. done.
  - rewrite !fmap_cons, IH. cbn [fst].
    destruct (decide (k ∈ d.*1)) as [Hin|Hin].
    + rewrite !bool_decide_true; [done|by right|done].
    + rewrite !bool_decide_false; [done| |done].
      intros [->|?]%elem_of_cons; done.
Qed.

Lemma get_as_dict seen (k : string) :
  get (as_dict seen) k = get (reverse seen) k.
Proof.
  induction seen as [|[k' f] seen IH] using rev_ind; [done|].
  change [(k', f)] with (option_list (Some (k', f))) at 1.
  rewrite as_dict_snoc, reverse_snoc. simpl.
  destruct (decide (k' = k)) as [->|Hk].
  - apply get_setitem_eq.
  - by rewrite get_setitem_ne.
Qed.

Lemma keys_as_dict seen :
  keys (as_dict seen) = reverse (remove_dups (reverse seen.*1)).
Proof.
  induction seen as [|[k f] seen IH] using rev_ind; [done|].
  change [(k, f)] with (option_list (Some (k, f))) at 1.
  rewrite as_dict_snoc, fmap_app.
  change ([(k, f)].*1) with [k]. rewrite reverse_snoc.
  cbn [record_function remove_dups].
  rewrite keys_setitem_list, IH.
  destruct (decide_rel elem_of k (reverse seen.*1)) as [Hin|Hin].
  - rewrite bool_decide_true; [done|].
    by rewrite elem_of_reverse, elem_of_remove_dups.
  - rewrite bool_decide_false; [by rewrite reverse_cons|].
    by rewrite elem_of_reverse, elem_of_remove_dups.
Qed.

(** X8.  When two exposed functions of a file have the same normalised
    identifier, the dictionary of recorded functions has one entry for
    them: it holds the name, line and indent of the last one, at the
    position of the first one.  In general the keys are the distinct
    identifiers in the order of their first declaration, and the entry of
    a key is the last declaration with that identifier. *)
Theorem api_functions_last_declaration_wins (api_lines : list string)
    (fns : dict api_function) :
  detect_api_functions api_lines = Ok fns →
  ∃ seen,
    exposed_functions api_lines = Ok seen
    ∧ NoDup (keys fns)
    ∧ keys fns = reverse (remove_dups (reverse seen.*1))
    ∧ ∀ k, get fns k = get (reverse seen) k.
Proof.
  rewrite detect_exposed. intros H.
  apply bind_Ok in H as (seen & Hseen & [= <-]).
  exists seen. split_and!; [done| |apply keys_as_dict|apply get_as_dict].
  rewrite keys_as_dict, reverse_Permutation. apply NoDup_remove_dups.
Qed.

Lemma api_functions_last_declaration_wins_witness :
  detect_api_functions clash_lines
  = Ok [("devicefoo", ("devicefoo", 5%nat, 0%nat))]
  ∧ ∃ seen,
      exposed_functions clash_lines = Ok seen
      ∧ NoDup (keys [("devicefoo", ("devicefoo", 5%nat, 0%nat))])
      ∧ keys [("devicefoo", ("devicefoo", 5%nat, 0%nat))]
        = reverse (remove_dups (reverse seen.*1))
      ∧ ∀ k, get [("devicefoo", ("devicefoo", 5%nat, 0%nat))] k
             = get (reverse seen) k.
Proof.
  split; [vm_compute; reflexivity|].
  exact (api_functions_last_declaration_wins clash_lines
           [("devicefoo", ("devicefoo", 5%nat, 0%nat))] eq_refl).
Defined.

(** ** Characters that a text lacks *)

Lemma lacks_contains (a : ascii) (s : string) :
  Py.contains s (String a "") = negb (lacks a s).
Proof.
  induction s as [|c s IH]; [done|].
  change (Py.contains (String c s) (String a ""))
    with (String.prefix (String a "") (String c s) || Py.contains s (String a "")).
  cbn [String.prefix lacks]. rewrite IH.
  destruct (ascii_dec a c) as [<-|Hne].
  - rewrite prefix_empty, bool_decide_true by done. done.
  - rewrite bool_decide_false by congruence. done.
Qed.

Lemma lacks_app (a : ascii) (x y : string) :
  lacks a (x +:+ y) = lacks a x && lacks a y.
Proof.
  induction x as [|c x IH]; [done|].
  rewrite append_cons. cbn [lacks]. by rewrite IH, andb_assoc.
Qed.

(** A replacement brings in no character that neither the text nor the
    new piece has. *)
Lemma lacks_replace (a : ascii) (old new s : string) :
  ∀ skip,
    lacks a s = true → lacks a new = true →
    lacks a (Py.replace_from skip old new s) = true.
Proof.
  induction s as [|c s IH]; intros skip Hs Hnew; [done|].
  cbn [lacks] in Hs. apply andb_true_iff in Hs as [Hc Hs].
  cbn [Py.replace_from]. destruct skip as [|k]; [|by apply IH].
  destruct (String.prefix old (String c s)).
  - rewrite lacks_app, Hnew. by apply IH.
  - cbn [lacks]. rewrite Hc. by apply IH.
Qed.

(** Replacing a character removes it. *)
Lemma lacks_replace_char (a : ascii) (new s : string) :
  lacks a new = true → lacks a (Py.replace s (String a "") new) = true.
Proof.
  intros Hnew. unfold Py.replace. induction s as [|c s IH]; [done|].
  cbn [Py.replace_from String.prefix].
  destruct (ascii_dec a c) as [<-|Hne].
  - rewrite prefix_empty, lacks_app, Hnew. apply IH.
  - cbn [lacks]. rewrite bool_decide_false by congruence. apply IH.
Qed.

Lemma lacks_map_chars (a : ascii) (f : ascii → ascii) (s : string) :
  (∀ c, f c = a → c = a) →
  lacks a s = true → lacks a (Py.map_chars f s) = true.
Proof.
  intros Hf. induction s as [|c s IH]; [done|]. cbn [lacks Py.map_chars].
  intros [Hc Hs]%andb_true_iff. rewrite IH by done.
  apply negb_true_iff, bool_decide_eq_false in Hc.
  rewrite bool_decide_false; [done|]. intros ?%Hf. done.
Qed.

Lemma lacks_slice_from (a : ascii) (n : nat) (s : string) :
  lacks a s = true → lacks a (Py.slice_from n s) = true.
Proof.
  revert s. induction n as [|n IH]; intros [|c s]; try done.
  cbn [lacks]. intros [_ Hs]%andb_true_iff. by apply IH.
Qed.

Lemma tolower_dot (c : ascii) : Py.tolower c = "."%char → c = "."%char.
Proof. destruct c as [[] [] [] [] [] [] [] []]; vm_compute; congruence. Qed.

Lemma tolower_idem (c : ascii) : Py.tolower (Py.tolower c) = Py.tolower c.
Proof. destruct c as [[] [] [] [] [] [] [] []]; reflexivity. Qed.

Lemma lower_idem (s : string) : Py.lower (Py.lower s) = Py.lower s.
Proof.
  unfold Py.lower. induction s as [|c s IH]; [done|].
  cbn [Py.map_chars]. by rewrite tolower_idem, IH.
Qed.

Lemma lower_slice_from (n : nat) (s : string) :
  Py.lower (Py.slice_from n s) = Py.slice_from n (Py.lower s).
Proof.
  revert s. induction n as [|n IH]; intros [|c s]; try done. apply IH.
Qed.

Lemma func_id_of_normal (funcname : string) :
  Py.contains (func_id_of funcname) "." = false
  ∧ Py.lower (func_id_of funcname) = func_id_of funcname.
Proof.
  unfold func_id_of. split.
  - rewrite lacks_contains. apply negb_false_iff.
    assert (lacks "." (Py.lower (Py.replace funcname "." "")) = true) as H.
    { apply lacks_map_chars; [apply tolower_dot|]. by apply lacks_replace_char. }
    destruct (Py.startswith funcname "GPU"); [by apply lacks_slice_from|done].
  - destruct (Py.startswith funcname "GPU");
      by rewrite ?lower_slice_from, lower_idem.
Qed.

Lemma exposed_function_key api_lines seen (k : string) (f : api_function) :
  exposed_functions api_lines = Ok seen → (k, f) ∈ seen →
  k = func_id_of f.1.1.
Proof.
  intros Hseen Hin.
  destruct (exposed_function_origin _ _ _ Hseen Hin)
    as (j & line & cls' & Hline & Hscan).
  unfold scan_at in Hscan.
  destruct (scan_line_cases api_lines j line
              (class_in_force (take j api_lines)) Hline)
    as [[_ Heq]|(Hdef & name & before & Hname & Hbefore & Heq)];
    rewrite Heq in Hscan; [done|].
  destruct (_ || _); [done|].
  apply bind_Ok in Hscan as (funcname' & _ & Hscan).
  by injection Hscan as _ <- <-.
Qed.

(** X9.  The identifiers under which the scanner records functions are
    normalised: none contains a dot and none changes when it is put in
    lower case. *)
Theorem recorded_identifiers_normalised (api_lines : list string)
    (fns : dict api_function) :
  detect_api_functions api_lines = Ok fns →
  Forall (fun k => Py.contains k "." = false ∧ Py.lower k = k) (keys fns).
Proof.
  rewrite detect_exposed. intros Hdetect.
  apply bind_Ok in Hdetect as (seen & Hseen & [= <-]).
  apply Forall_forall. intros k Hk.
  destruct (get (as_dict seen) k) as [f|] eqn:Hget;
    [|by apply get_None_keys in Hget].
  apply get_Some_elem, elem_of_as_dict in Hget.
  rewrite (exposed_function_key _ _ _ _ Hseen Hget).
  apply func_id_of_normal.
Qed.

Lemma recorded_identifiers_normalised_witness :
  detect_api_functions device_lines = Ok device_functions
  ∧ Forall (fun k => Py.contains k "." = false ∧ Py.lower k = k)
      (keys device_functions).
Proof.
  split; [vm_compute; reflexivity|].
  exact (recorded_identifiers_normalised device_lines device_functions eq_refl).
Defined.

(** ** What the patch leaves of the file *)

Lemma before_paren_prefix (s : string) : ∃ w, s = before_paren s +:+ w.
Proof.
  induction s as [|c s [w IH]]; [by exists ""|].
  rewrite before_paren_cons. case_decide.
  - by exists (String c s).
  - exists w. by rewrite append_cons, <- IH.
Qed.

(** A line that reads as a function declaration up to its parenthesis is
    not a marker comment. *)
Lemma def_head_not_marker (line final : string) :
  is_def_line line = true → before_paren final = before_paren line →
  is_marker final = false.
Proof.
  intros (c & r & Hl & Hc)%def_line_head Heq.
  destruct (before_paren_lstrip line c r Hl) as [r' Hr'].
  { by destruct Hc as [-> | ->]. }
  rewrite <- Heq in Hr'. destruct (before_paren_prefix final) as [w Hw].
  unfold is_marker. rewrite Hw, lstrip_append by (by rewrite Hr').
  rewrite Hr', append_cons.
  unfold startswith_any, starts, Py.startswith. cbn [existsb String.prefix].
  by destruct Hc as [-> | ->].
Qed.

Lemma filter_markers_out (comments : list string) :
  Forall (fun c => is_marker c = true) comments →
  List.filter (fun l => negb (is_marker l)) comments = [].
Proof.
  induction 1 as [|c comments Hc _ IH]; [done|]. simpl. by rewrite Hc.
Qed.

Lemma exposed_function_line api_lines seen e :
  exposed_functions api_lines = Ok seen → e ∈ seen →
  ∃ line, api_lines !! recorded_line e = Some line ∧ is_def_line line = true.
Proof.
  intros Hseen Hin.
  destruct (exposed_function_origin _ _ _ Hseen Hin)
    as (j & line & cls' & Hline & Hscan).
  unfold scan_at in Hscan.
  destruct (scan_line_cases api_lines j line
              (class_in_force (take j api_lines)) Hline)
    as [[_ Heq]|(Hdef & name & before & Hname & Hbefore & Heq)];
    rewrite Heq in Hscan; [done|].
  destruct (_ || _); [done|].
  apply bind_Ok in Hscan as (funcname' & _ & Hscan).
  injection Hscan as _ <-. by exists line.
Qed.

Lemma filter_blocks (api_lines : list string) (blocks : list (list string)) :
  Forall2
    (fun line block =>
       ∃ final, List.filter (fun l => negb (is_marker l)) block = [final]
                ∧ before_paren final = before_paren line)
    api_lines blocks →
  Forall2 (fun line final => before_paren final = before_paren line)
    api_lines (List.filter (fun l => negb (is_marker l)) (concat blocks)).
Proof.
  induction 1 as [|line block api_lines blocks (final & Hf & Heq) _ IH];
    [constructor|].
  rewrite concat_cons, List.filter_app, Hf. by constructor.
Qed.

(** X10.  When the normalised identifiers of the file's exposed functions
    are pairwise distinct and the patch loop completes, it deletes and
    reorders nothing: taking the marker comments out of the patched lines
    leaves as many lines as the file had, and each one reads as the
    original line up to its first parenthesis. *)
Theorem patch_only_adds_markers
    (fname : string) (ip : IdlParser.t) (api_lines : list string)
    (seen : list (string * api_function)) (lines' : list string) (count : nat) :
  Forall (fun line => is_marker line = false) api_lines →
  exposed_functions api_lines = Ok seen →
  NoDup seen.*1 →
  inject fname ip (as_dict seen) api_lines = Ok (lines', count) →
  Forall2 (fun line final => before_paren final = before_paren line)
    api_lines (List.filter (fun l => negb (is_marker l)) lines').
Proof.
  intros Hclean Hexp Hdup Hinj.
  pose proof (as_dict_NoDup seen Hdup) as Hd.
  destruct (exposed_functions_lines _ _ Hexp) as [Hsorted Hbound].
  rewrite Forall_forall in Hbound.
  rewrite Hd in Hinj. unfold inject in Hinj.
  apply patch_loop_blocks with (n := length api_lines) in Hinj
    as (blocks & Hlen & Heq & Hall & Hown); [| | |done].
  2:{ apply reversed_keys_decrease; [|done].
      intros e He. by apply line_of_recorded. }
  2:{ apply Forall_forall. intros k Hk.
      rewrite elem_of_reverse in Hk.
      apply list_elem_of_fmap in Hk as (e & -> & He).
      rewrite line_of_recorded by done. by apply Hbound. }
  rewrite drop_all, app_nil_r in Heq. rewrite take_ge in Hall by done.
  subst lines'. apply filter_blocks.
  apply Forall2_same_length_lookup. split; [by eapply Forall2_length|].
  intros j line block Hline Hblock.
  pose proof (Forall2_lookup_lr _ _ _ _ _ _ Hall Hline Hblock)
    as (comments & final & -> & Hmarkers & Hhead & Hsame).
  exists final. split; [|done].
  rewrite List.filter_app, filter_markers_out by done. simpl.
  enough (is_marker final = false) as -> by done.
  pose proof (proj1 (Forall_forall _ _) Hclean line
                (list_elem_of_lookup_2 _ _ _ Hline)) as Hline_clean.
  destruct (decide (Exists (fun e => recorded_line e = j) seen)) as [Hex|Hno].
  - apply Exists_exists in Hex as (e & He & Hej).
    destruct (exposed_function_line _ _ _ Hexp He) as (line' & Hline' & Hdef).
    rewrite Hej, Hline in Hline'. injection Hline' as <-.
    by eapply def_head_not_marker.
  - assert (Hfree : blocks !! j = Some [line]).
    { apply Hown; [done|by eapply lookup_lt_Some|].
      intros k Hk Hkj. exfalso. apply Hno.
      rewrite elem_of_reverse in Hk.
      apply list_elem_of_fmap in Hk as (e & -> & He).
      rewrite line_of_recorded in Hkj by done.
      apply Exists_exists. by exists e. }
    rewrite Hblock in Hfree. injection Hfree as Hfree.
    destruct comments as [|c comments].
    + injection Hfree as ->. exact Hline_clean.
    + by destruct comments.
Qed.

Lemma patch_only_adds_markers_witness :
  ∃ lines',
    inject "base.py" buffer_ip (as_dict device_functions) device_lines
    = Ok (lines', 1%nat)
    ∧ Forall2 (fun line final => before_paren final = before_paren line)
        device_lines (List.filter (fun l => negb (is_marker l)) lines').
Proof.
  eexists. split; [vm_compute; reflexivity|].
  apply (patch_only_adds_markers "base.py" buffer_ip device_lines
           device_functions _ 1%nat).
  - by repeat constructor.
  - vm_compute; reflexivity.
  - apply NoDup_cons. split; [|apply NoDup_singleton].
    by intros [=]%list_elem_of_singleton.
  - vm_compute; reflexivity.
Defined.

(** X11.  Rewriting a signature is idempotent: the line that the patcher
    writes for a function is the line it would write again if it found
    its own output in place of the original declaration. *)
Theorem new_signature_idempotent (ip : IdlParser.t)
    (func_id pyline : string) (argnames argtypes : list string) (sig : string) :
  new_signature ip func_id pyline argnames argtypes = Ok sig →
  new_signature ip func_id sig argnames argtypes = Ok sig.
Proof.
  unfold new_signature. intros H.
  apply bind_Ok in H as (py_args & Hargs & H). rewrite Hargs.
  cbn [mbind result_bind]. rewrite split_head in H |- *.
  cbn [mbind result_bind] in H |- *. injection H as <-.
  fold (before_paren pyline).
  fold (before_paren (before_paren pyline +:+ "(" +:+ Py.join ", " py_args +:+ "):")).
  by rewrite before_paren_rewritten.
Qed.

Lemma new_signature_idempotent_witness :
  new_signature buffer_ip "devicecreatebuffer"
    "    def createBuffer(self, descriptor):" ["descriptor"]
    ["GPUBufferDescriptor"]
  = Ok ("    def createBuffer(self, *, " +:+ label_default +:+ ", size):")
  ∧ new_signature buffer_ip "devicecreatebuffer"
      ("    def createBuffer(self, *, " +:+ label_default +:+ ", size):")
      ["descriptor"] ["GPUBufferDescriptor"]
    = Ok ("    def createBuffer(self, *, " +:+ label_default +:+ ", size):").
Proof.
  split; [vm_compute; reflexivity|].
  exact (new_signature_idempotent buffer_ip "devicecreatebuffer"
           "    def createBuffer(self, descriptor):" ["descriptor"]
           ["GPUBufferDescriptor"] _ eq_refl).
Defined.

(** ** The flag comparison *)

Lemma keys_get {V} (d : dict V) (k : string) : k ∈ keys d ↔ is_Some (get d k).
Proof.
  rewrite <- not_eq_None_Some, get_None_keys.
  destruct (decide (k ∈ keys d)); naive_solver.
Qed.

(** Python's equality of dictionaries is equality of their lookups. *)
Lemma dict_eqb_lookups {V} `{EqDecision V} (a b : dict V) :
  NoDup (keys a) → NoDup (keys b) →
  dict_eqb a b = true ↔ ∀ k, get a k = get b k.
Proof.
  intros Ha Hb. unfold dict_eqb.
  rewrite andb_true_iff, bool_decide_eq_true.
  rewrite <- Is_true_true, forallb_True, Forall_forall. split.
  - intros [Hlen Hall] k.
    assert (Hsub : ∀ k v, get a k = Some v → get b k = Some v).
    { intros k' v Hk'. apply get_Some_elem in Hk'.
      specialize (Hall _ Hk'). simpl in Hall. by apply bool_decide_unpack in Hall. }
    destruct (get a k) as [v|] eqn:Hk; [symmetry; by apply Hsub|].
    destruct (get b k) as [v'|] eqn:Hk'; [|done]. exfalso.
    apply get_None_keys in Hk. apply Hk.
    assert (Hperm : keys a ≡ₚ keys b).
    { apply submseteq_length_Permutation.
      - apply NoDup_submseteq; [done|]. intros x [v Hx]%keys_get.
        apply keys_get. rewrite (Hsub _ _ Hx). by eexists.
      - unfold keys. rewrite !length_fmap. lia. }
    rewrite Hperm. apply keys_get. by eexists.
  - intros Heq. split.
    + assert (Hperm : keys a ≡ₚ keys b).
      { apply NoDup_Permutation; [done..|]. intros x.
        by rewrite !keys_get, Heq. }
      apply Permutation_length in Hperm. unfold keys in Hperm.
      by rewrite !length_fmap in Hperm.
    + intros [k v] Hin. simpl. apply bool_decide_pack.
      rewrite <- Heq. by apply get_NoDup.
Qed.

Lemma stdout_flag_members name hflags iflags o :
  stdout (flag_members name hflags iflags o)
  = stdout o ++ stdout (flag_members name hflags iflags no_output).
Proof.
  unfold flag_members. destruct (negb _); simpl; [|by rewrite app_nil_r].
  by rewrite <- !app_assoc.
Qed.

Lemma stdout_flag_entry hp ip name o :
  stdout (flag_entry hp ip name o) = stdout o ++ flag_lines hp ip name.
Proof.
  unfold flag_lines, flag_entry.
  repeat case_match; simpl; try by rewrite app_nil_r.
  apply stdout_flag_members.
Qed.

Lemma stdout_flag_loop hp ip names o :
  stdout (for_ names (flag_entry hp ip) o)
  = stdout o ++ concat (flag_lines hp ip <$> names).
Proof.
  revert o. induction names as [|name names IH]; intros o.
  - simpl. by rewrite app_nil_r.
  - by rewrite for__cons, IH, stdout_flag_entry, fmap_cons, concat_cons,
      app_assoc.
Qed.

Lemma flag_lines_cases hp ip name hflags iflags :
  get (HParser.flags hp) name = Some hflags →
  get (IdlParser.flags ip) name = Some iflags →
  flag_lines hp ip name
  = if dict_eqb hflags iflags then [] else flag_report name hflags iflags.
Proof.
  intros Hh Hi. unfold flag_lines, flag_entry. rewrite Hi, Hh.
  unfold flag_members. by destruct (dict_eqb hflags iflags).
Qed.

Lemma flag_name_line_origin hp ip name name' :
  " " +:+ name ∈ flag_lines hp ip name' →
  name' = name ∧ flag_lines hp ip name' ≠ [].
Proof.
  unfold flag_lines, flag_entry.
  destruct (get (IdlParser.flags ip) name') as [iflags|];
    [|by intros ?%elem_of_nil].
  destruct (get (HParser.flags hp) name') as [hflags|];
    [|by intros ?%elem_of_nil].
  unfold flag_members. destruct (negb _); [|by intros ?%elem_of_nil].
  simpl. rewrite !elem_of_cons, elem_of_nil.
  intros [Heq|[Heq|[Heq|[]]]]; [| discriminate Heq..].
  rewrite !append_cons, !append_nil in Heq. by injection Heq as ->.
Qed.

(** X12.  For every flag set present in both catalogs the comparison
    loop prints the mismatch report (the name line followed by the
    members of the native and of the interface side) if and only if the
    two sides differ as mappings: some member is missing on one side or
    has another value there.  The order of the members plays no part. *)
Theorem flag_mismatch_reported_iff (hp : HParser.t) (ip : IdlParser.t)
    (o : Out) (name : string) (hflags iflags : dict Z) :
  get (HParser.flags hp) name = Some hflags →
  get (IdlParser.flags ip) name = Some iflags →
  NoDup (keys hflags) → NoDup (keys iflags) →
  let emitted :=
    drop (length (stdout o)) (stdout (compare_flag_members hp ip o)) in
  (∃ pre post, emitted = pre ++ flag_report name hflags iflags ++ post)
  ↔ ¬ (∀ k, get hflags k = get iflags k).
Proof.
  intros Hh Hi Hdh Hdi emitted.
  assert (Hem : emitted = concat (flag_lines hp ip <$> keys (HParser.flags hp))).
  { unfold emitted, compare_flag_members.
    by rewrite stdout_flag_loop, drop_app_length. }
  rewrite Hem. clear emitted Hem.
  pose proof (flag_lines_cases hp ip name hflags iflags Hh Hi) as Hcases.
  pose proof (dict_eqb_lookups hflags iflags Hdh Hdi) as Hspec.
  split.
  - intros (pre & post & Heq).
    assert (Hin : " " +:+ name ∈ concat (flag_lines hp ip <$> keys (HParser.flags hp))).
    { rewrite Heq. apply elem_of_app. right. left. }
    apply elem_of_concat in Hin as (ls & Hline & Hls).
    apply list_elem_of_fmap in Hls as (name' & -> & _).
    apply flag_name_line_origin in Hline as [-> Hne].
    destruct (dict_eqb hflags iflags); [done|].
    intros Hall. by apply Hspec in Hall.
  - intros Hdiff.
    destruct (dict_eqb hflags iflags); [by destruct Hdiff; apply Hspec|].
    pose proof (get_Some_keys _ _ _ Hh) as Hin.
    apply list_elem_of_split in Hin as (l1 & l2 & ->).
    exists (concat (flag_lines hp ip <$> l1)), (concat (flag_lines hp ip <$> l2)).
    by rewrite fmap_app, concat_app, fmap_cons, concat_cons, Hcases.
Qed.

Lemma flag_mismatch_reported_iff_witness :
  get (HParser.flags run_hp) "BufferUsage"
  = Some [("MAP_READ", 1%Z); ("MAP_WRITE", 2%Z)]
  ∧ get (IdlParser.flags run_ip) "BufferUsage"
    = Some [("MAP_READ", 1%Z); ("MAP_WRITE", 4%Z)]
  ∧ ((∃ pre post,
        drop (length (stdout no_output))
          (stdout (compare_flag_members run_hp run_ip no_output))
        = pre ++ [" BufferUsage"; "c: MAP_READ:1, MAP_WRITE:2";
                  "i: MAP_READ:1, MAP_WRITE:4"] ++ post)
     ↔ ¬ (∀ k, get [("MAP_READ", 1%Z); ("MAP_WRITE", 2%Z)] k
               = get [("MAP_READ", 1%Z); ("MAP_WRITE", 4%Z)] k)).
Proof.
  split; [reflexivity|]. split; [reflexivity|].
  apply (flag_mismatch_reported_iff run_hp run_ip no_output "BufferUsage"
           _ _ eq_refl eq_refl).
  - apply NoDup_cons. split; [|apply NoDup_singleton].
    by intros [=]%list_elem_of_singleton.
  - apply NoDup_cons. split; [|apply NoDup_singleton].
    by intros [=]%list_elem_of_singleton.
Defined.

(** ** The comparison report, line by line *)

Lemma stdout_missing_loop (known : string → bool) (msg : string → string)
    (names : list string) :
  ∀ o,
    stdout (for_ names
              (fun name o => if negb (known name) then print [msg name] o else o) o)
    = stdout o ++ missing_lines names known msg.
Proof.
  unfold missing_lines.
  induction names as [|name names IH]; intros o.
  - simpl. by rewrite app_nil_r.
  - rewrite for__cons, IH. cbn [List.filter].
    destruct (negb (known name)); [|done].
    by rewrite stdout_print, fmap_cons, <- app_assoc.
Qed.

Lemma stdout_say_loop (known : string → bool) (msg : string → string)
    (names : list string) :
  ∀ st,
    let st' :=
      for_ names
        (fun name st => if negb (known name) then say (msg name) st else st) st in
    stdout (out st') = stdout (out st) ++ missing_lines names known msg
    ∧ enummap st' = enummap st.
Proof.
  unfold missing_lines.
  induction names as [|name names IH]; intros st.
  - simpl. by rewrite app_nil_r.
  - cbn zeta. rewrite for__cons. destruct (IH
      (if negb (known name) then say (msg name) st else st)) as [-> ->].
    cbn [List.filter]. destruct (negb (known name)); [|done].
    split; [|done]. cbn [say out]. by rewrite stdout_print, fmap_cons, <- app_assoc.
Qed.

Lemma stdout_enum_values name henum (ms : list string) :
  ∀ st,
    stdout (out (for_ ms (enum_value name henum) st))
    = stdout (out st)
      ++ ((fun m => name +:+ "." +:+ m +:+ " is missing")
            <$> List.filter (fun m => negb (has henum (hkey_of m))) ms).
Proof.
  induction ms as [|m ms IH]; intros st.
  - simpl. by rewrite app_nil_r.
  - rewrite for__cons, IH. cbn [List.filter]. unfold enum_value, has.
    destruct (get henum (hkey_of m)); cbn [negb out]; [done|].
    cbn [say out]. by rewrite stdout_print, fmap_cons, <- app_assoc.
Qed.

Lemma stdout_enum_entry hp ip name st :
  stdout (out (enum_entry hp ip name st))
  = stdout (out st) ++ enum_lines hp ip name.
Proof.
  unfold enum_entry, enum_lines.
  destruct (get (IdlParser.enums ip) name) as [ienum|];
    [|by rewrite app_nil_r].
  destruct (get (HParser.enums hp) name) as [henum|];
    [|by rewrite app_nil_r].
  apply stdout_enum_values.
Qed.

Lemma stdout_enum_loop hp ip names :
  ∀ st,
    stdout (out (for_ names (enum_entry hp ip) st))
    = stdout (out st) ++ concat (enum_lines hp ip <$> names).
Proof.
  induction names as [|name names IH]; intros st.
  - simpl. by rewrite app_nil_r.
  - by rewrite for__cons, IH, stdout_enum_entry, fmap_cons, concat_cons,
      app_assoc.
Qed.

(** X13.  The console output of the three comparisons is exactly this:
    the heading; one line for each name that only the native catalog
    has, in its order; one line for each name that only the interface
    catalog has, in its order; and then, by native names, the mismatch
    reports (for enumerations: one line per member of the interface
    whose native spelling the native enumeration lacks).  A name that
    both catalogs have is never reported as missing. *)
Theorem comparison_output_exact (hp : HParser.t) (ip : IdlParser.t) (o : Out) :
  stdout (compare_flags hp ip o)
  = stdout o
    ++ [nl +:+ "### Comparing flags"]
    ++ missing_lines (keys (HParser.flags hp)) (has (IdlParser.flags ip))
         (fun name => " " +:+ name +:+ " flag missing in .idl")
    ++ missing_lines (keys (IdlParser.flags ip)) (has (HParser.flags hp))
         (fun name => name +:+ " flag missing in .h")
    ++ concat (flag_lines hp ip <$> keys (HParser.flags hp))
  ∧ stdout (out (build_enummap hp ip o))
    = stdout o
      ++ [nl +:+ "### Comparing enums"]
      ++ missing_lines (keys (HParser.enums hp)) (has (IdlParser.enums ip))
           (fun name => name +:+ " enum missing in .idl")
      ++ missing_lines (keys (IdlParser.enums ip)) (has (HParser.enums hp))
           (fun name => name +:+ "enum missing in .h")
      ++ concat (enum_lines hp ip <$> keys (HParser.enums hp))
  ∧ stdout (compare_structs hp ip o)
    = stdout o
      ++ [nl +:+ "### Comparing structs"]
      ++ missing_lines (keys (HParser.structs hp)) (has (IdlParser.structs ip))
           (fun name => name +:+ " struct missing in .idl")
      ++ missing_lines (keys (IdlParser.structs ip)) (has (HParser.structs hp))
           (fun name => name +:+ " struct missing in .h")
      ++ concat (struct_lines hp ip <$> keys (HParser.structs hp)).
Proof.
  split_and!.
  - unfold compare_flags, compare_flag_members.
    rewrite stdout_flag_loop, !stdout_missing_loop, stdout_print.
    by rewrite <- !app_assoc.
  - unfold build_enummap, compare_enums.
    rewrite stdout_enum_loop.
    rewrite (proj1 (stdout_say_loop _ _ _ _)).
    rewrite (proj1 (stdout_say_loop _ _ _ _)).
    cbn [say out]. rewrite stdout_print. by rewrite <- !app_assoc.
  - unfold compare_structs, compare_struct_members.
    rewrite stdout_struct_loop, !stdout_missing_loop, stdout_print.
    by rewrite <- !app_assoc.
Qed.

(** ** The generated mapping of struct fields to enums *)

Lemma startswith_slice (s p : string) :
  Py.startswith s p = true → s = p +:+ Py.slice_from (Py.len p) s.
Proof.
  unfold Py.startswith. revert s. induction p as [|a p IH]; intros s; [done|].
  destruct s as [|c s]; [done|]. cbn [String.prefix].
  destruct (ascii_dec a c) as [<-|]; [|done].
  intros H. rewrite append_cons. f_equal. by apply IH.
Qed.

Lemma for__collect {A B} (keep : A → bool) (g : A → B) (l : list A) :
  ∀ acc,
    for_ l (fun x acc => if keep x then acc ++ [g x] else acc) acc
    = acc ++ (g <$> List.filter keep l).
Proof.
  induction l as [|x l IH]; intros acc.
  - simpl. by rewrite app_nil_r.
  - rewrite for__cons, IH. cbn [List.filter].
    destruct (keep x); [|done]. by rewrite fmap_cons, <- app_assoc.
Qed.

Lemma cstructfield2enum_fields (ip : IdlParser.t) (structname : string)
    (fields : list Field.t) (pylines : list string) :
  for_ fields
    (fun field pylines =>
       if Py.startswith (Field.typename field) "WGPU" then
         let enumname := Py.slice_from 4 (Field.typename field) in
         if has (IdlParser.enums ip) enumname then
           pylines ++ [field_line structname (Field.name field) enumname]
         else pylines
       else pylines)
    pylines
  = pylines
    ++ ((fun field =>
           field_line structname (Field.name field)
             (Py.slice_from 4 (Field.typename field)))
          <$> List.filter
                (fun field =>
                   Py.startswith (Field.typename field) "WGPU"
                   && has (IdlParser.enums ip)
                        (Py.slice_from 4 (Field.typename field)))
                fields).
Proof.
  rewrite <- for__collect. apply for__ext. intros field acc _.
  cbn zeta. destruct (Py.startswith (Field.typename field) "WGPU"); [|done].
  by destruct (has _ _).
Qed.

Lemma cstructfield2enum_structs (ip : IdlParser.t)
    (structs : dict (dict Field.t)) :
  ∀ pylines,
    for_ structs
      (fun '(structname, struct) pylines =>
         for_ (values struct)
           (fun field pylines =>
              if Py.startswith (Field.typename field) "WGPU" then
                let enumname := Py.slice_from 4 (Field.typename field) in
                if has (IdlParser.enums ip) enumname then
                  pylines ++ [field_line structname (Field.name field) enumname]
                else pylines
              else pylines)
           pylines)
      pylines
    = pylines
      ++ concat
           ((fun '(structname, struct) =>
               (fun field =>
                  field_line structname (Field.name field)
                    (Py.slice_from 4 (Field.typename field)))
                 <$> List.filter
                       (fun field =>
                          Py.startswith (Field.typename field) "WGPU"
                          && has (IdlParser.enums ip)
                               (Py.slice_from 4 (Field.typename field)))
                       (values struct))
              <$> structs).
Proof.
  induction structs as [|[structname struct] structs IH]; intros pylines.
  - simpl. by rewrite app_nil_r.
  - rewrite for__cons, IH, cstructfield2enum_fields, fmap_cons, concat_cons.
    by rewrite app_assoc.
Qed.

(** X14.  The entries that the generator writes into [cstructfield2enum]
    are these and no others: one for every field of a native structure
    whose type is "WGPU" followed by the name of an enumeration of the
    interface catalog; the entry gives that enumeration for the
    structure's name and the field's name, joined by a dot. *)
Theorem cstructfield2enum_entries (hp : HParser.t) (ip : IdlParser.t)
    (line : string) :
  line ∈ cstructfield2enum hp ip []
  ↔ ∃ structname struct field enumname,
      (structname, struct) ∈ HParser.structs hp
      ∧ field ∈ values struct
      ∧ Field.typename field = "WGPU" +:+ enumname
      ∧ enumname ∈ keys (IdlParser.enums ip)
      ∧ line = field_line structname (Field.name field) enumname.
Proof.
  unfold cstructfield2enum. rewrite cstructfield2enum_structs, app_nil_l.
  rewrite elem_of_concat. split.
  - intros (l & Hline & Hl).
    apply list_elem_of_fmap in Hl as ([structname struct] & -> & Hs).
    apply list_elem_of_fmap in Hline as (field & -> & Hf).
    apply elem_of_List_filter in Hf as [Hf [Hp Hhas]%andb_true_iff].
    exists structname, struct, field, (Py.slice_from 4 (Field.typename field)).
    split_and!; [done|done| |by apply has_keys|done].
    by apply startswith_slice in Hp.
  - intros (structname & struct & field & enumname & Hs & Hf & Ht & He & ->).
    eexists. split; [|apply list_elem_of_fmap; by exists (structname, struct)].
    apply list_elem_of_fmap. exists field. rewrite Ht.
    split; [done|]. apply elem_of_List_filter. split; [done|].
    rewrite Ht, startswith_append. by apply has_keys.
Qed.

(** ** The native spelling of an enum value *)

Lemma toupper_hyphen (c : ascii) : Py.toupper c = "-"%char → c = "-"%char.
Proof. destruct c as [[] [] [] [] [] [] [] []]; vm_compute; congruence. Qed.

Lemma tolower_hyphen (c : ascii) : Py.tolower c = "-"%char → c = "-"%char.
Proof. destruct c as [[] [] [] [] [] [] [] []]; vm_compute; congruence. Qed.

Lemma lacks_title (s : string) :
  ∀ cased, lacks "-" s = true → lacks "-" (Py.title_from cased s) = true.
Proof.
  induction s as [|c s IH]; intros cased; [done|].
  cbn [lacks Py.title_from]. intros [Hc Hs]%andb_true_iff.
  apply negb_true_iff, bool_decide_eq_false in Hc.
  destruct (Py.islower c); [|destruct (Py.isupper c)];
    cbn [lacks]; rewrite IH by done; rewrite andb_true_r;
    apply negb_true_iff, bool_decide_eq_false;
    destruct cased; try done.
  - by intros ?%toupper_hyphen.
  - by intros ?%tolower_hyphen.
Qed.

(** X15.  The native spelling that the reconciler looks up never
    contains a hyphen or a blank, whatever the value of the interface
    is: a native member whose name has one is never matched. *)
Theorem hkey_of_has_no_separator (ikey : string) :
  Py.contains (hkey_of ikey) "-" = false
  ∧ Py.contains (hkey_of ikey) " " = false.
Proof.
  unfold hkey_of. rewrite !lacks_contains. split; apply negb_false_iff.
  - apply lacks_replace; [|done]. apply lacks_title.
    by apply lacks_replace_char.
  - by apply lacks_replace_char.
Qed.

(** ** Stripping [# noqa:] *)

Lemma contains_cons (c : ascii) (s p : string) :
  Py.contains (String c s) p = String.prefix p (String c s) || Py.contains s p.
Proof. done. Qed.



(** ** Parsing the parameters of an IDL declaration *)

Lemma cut_None (sep s : string) :
  sep ≠ "" → (Py.cut sep s = None ↔ Py.contains s sep = false).
Proof.
  intros Hsep. induction s as [|c s IH].
  - split; [intros _; by destruct sep|done].
  - cbn [Py.cut]. rewrite contains_cons.
    destruct (String.prefix sep (String c s)); [done|]. cbn [orb].
    rewrite <- IH. destruct (Py.cut sep s) as [[before after]|]; done.
Qed.

Lemma mapM_is_ok {A B} (f : A → result B) (l : list A) :
  is_ok (mapM f l) = true ↔ Forall (fun x => is_ok (f x) = true) l.
Proof.
  induction l as [|x l IH]; cbn [mapM]; [by split; [constructor|]|].
  rewrite Forall_cons, <- IH.
  destruct (f x); cbn [mbind result_bind is_ok]; [|by split; [|intros []]].
  destruct (mapM f l); cbn [mbind result_bind is_ok]; by split; [|intros []].
Qed.

Lemma before_default_words (arg : string) :
  before_default arg = Ok (arg_words arg).
Proof. unfold before_default. by rewrite split_head. Qed.

Lemma item_last_is_ok {A} (l : list A) :
  is_ok (item_last l) = true ↔ (1 ≤ length l)%nat.
Proof.
  unfold item_last. destruct l as [|x l]; simpl; [split; [done|lia]|].
  destruct (last_nonempty (x :: l)) as [a Ha]; [done|].
  simpl in Ha. rewrite Ha. split; [lia|done].
Qed.

Lemma item_last2_is_ok {A} (l : list A) :
  is_ok (item_last2 l) = true ↔ (2 ≤ length l)%nat.
Proof.
  unfold item_last2. rewrite <- (length_reverse l).
  destruct (reverse l) as [|x [|y r]]; simpl; split; (done || lia).
Qed.

(** X17.  Parsing the parameters of a matched declaration can fail in
    one way only, with an IndexError, which aborts the run: the
    parameter list is found exactly when the declaration has an opening
    parenthesis; the names are found exactly when every parameter has a
    word before its default value, and the types exactly when every
    parameter has two. *)
Theorem idl_parameters_parse_iff (line : string) (args : list string) :
  (is_ok (idl_args line) = Py.contains line "(")
  ∧ (is_ok (idl_argnames args) = true
     ↔ Forall (fun arg => (1 ≤ length (arg_words arg))%nat) args)
  ∧ (is_ok (idl_argtypes args) = true
     ↔ Forall (fun arg => (2 ≤ length (arg_words arg))%nat) args)
  ∧ (∀ e, idl_args line = Raise e ∨ idl_argnames args = Raise e
          ∨ idl_argtypes args = Raise e → e = IndexError).
Proof.
  split_and!.
  - unfold idl_args, Py.split1.
    pose proof (cut_None "(" line) as Hcut.
    destruct (Py.cut "(" line) as [[before after]|].
    + destruct (Py.contains line "("); [|by destruct Hcut as [_ Hcut]; [|discriminate Hcut]].
      cbn. by destruct (Py.cut ")" after) as [[? ?]|].
    + by rewrite (proj1 (Hcut ltac:(done)) eq_refl).
  - unfold idl_argnames. rewrite mapM_is_ok. apply Forall_iff. intros arg.
    rewrite before_default_words. cbn [mbind result_bind].
    apply item_last_is_ok.
  - unfold idl_argtypes. rewrite mapM_is_ok. apply Forall_iff. intros arg.
    rewrite before_default_words. cbn [mbind result_bind].
    apply item_last2_is_ok.
  - intros e [H|[H|H]].
    + unfold idl_args, Py.split1 in H.
      destruct (Py.cut "(" line) as [[before after]|]; cbn in H;
        [|by injection H].
      by destruct (Py.cut ")" after) as [[? ?]|].
    + apply mapM_Raise in H as (arg & _ & H).
      rewrite before_default_words in H. cbn [mbind result_bind] in H.
      unfold item_last in H. destruct (last _); by simplify_eq.
    + apply mapM_Raise in H as (arg & _ & H).
      rewrite before_default_words in H. cbn [mbind result_bind] in H.
      unfold item_last2 in H. destruct (reverse _) as [|? [|? ?]]; by simplify_eq.
Qed.

(** ** The patch loop, line by line *)

(** One pass of the patch loop replaces the line of its function by the
    block of that function and touches nothing else. *)
Lemma patch_func_block fname ip (fns : dict api_function) func_id lines count
    funcname i indent pyline :
  get fns func_id = Some (funcname, i, indent) →
  lines !! i = Some pyline →
  patch_func fname ip fns func_id (lines, count)
  = (block ← block_for fname ip func_id indent pyline;
     Ok (take i lines ++ block ++ drop (S i) lines,
         if unmatched func_id (IdlParser.functions ip) then count else S count)).
Proof.
  intros Hget Hpy. pose proof (lookup_lt_Some _ _ _ Hpy) as Hi.
  unfold patch_func, block_for, unmatched.
  destruct (get_func_id_match func_id (IdlParser.functions ip)) as [m|].
  2:{ cbn [mbind result_bind app]. by rewrite (take_drop_middle _ _ _ Hpy). }
  destruct (Py.truthy m); cbn [negb].
  2:{ cbn [mbind result_bind app]. by rewrite (take_drop_middle _ _ _ Hpy). }
  rewrite (proj2 (getitem_Ok fns func_id _) Hget). cbn [mbind result_bind].
  destruct (getitem (IdlParser.functions ip) m) as [line|]; [|done].
  cbn [mbind result_bind]. rewrite (proj2 (item_Ok lines i pyline) Hpy).
  cbn [mbind result_bind].
  destruct (idl_args line) as [args|]; [|done]. cbn [mbind result_bind].
  destruct (idl_argnames args) as [argnames|]; [|done]. cbn [mbind result_bind].
  destruct (idl_argtypes args) as [argtypes|]; [|done]. cbn [mbind result_bind].
  destruct (new_signature ip func_id pyline argnames argtypes) as [sig|];
    [|done].
  cbn [mbind result_bind]. fold (help_searches m argtypes).
  rewrite (insert_take_drop lines i sig Hi). replace (count + 1)%nat with (S count) by lia.
  case_bool_decide; by rewrite !insert_at_take by lia.
Qed.

(** The patch loop, over keys whose recorded lines decrease: each of the
    first [n] lines becomes the block of the key recorded there, or stays
    when no key is. *)
Lemma patch_loop_linewise fname ip (fns : dict api_function) ks :
  ∀ lines count lines' count' n,
    for_r ks (patch_func fname ip fns) (lines, count) = Ok (lines', count') →
    StronglySorted (fun a b => (line_of fns b < line_of fns a)%nat) ks →
    Forall (fun k => (line_of fns k < n)%nat ∧ is_Some (get fns k)) ks →
    (n ≤ length lines)%nat →
    ∃ blocks,
      length blocks = n
      ∧ lines' = concat blocks ++ drop n lines
      ∧ ∀ j line,
          lines !! j = Some line → (j < n)%nat →
          ∃ block,
            blocks !! j = Some block
            ∧ ((∃ k funcname indent,
                  k ∈ ks ∧ get fns k = Some (funcname, j, indent)
                  ∧ block_for fname ip k indent line = Ok block)
               ∨ ((∀ k, k ∈ ks → line_of fns k ≠ j) ∧ block = [line])).
Proof.
  induction ks as [|k ks IH]; intros lines count lines' count' n Hrun Hsorted Hlt Hn.
  - injection Hrun as <- <-.
    exists ((fun x => [x]) <$> take n lines). split_and!.
    + rewrite length_fmap, length_take_le; lia.
    + by rewrite concat_singletons, take_drop.
    + intros j line Hj Hjn. exists [line]. split.
      * by rewrite list_lookup_fmap, lookup_take_lt, Hj.
      * right. split; [|done]. by intros k ?%elem_of_nil.
  - cbn [for_r] in Hrun.
    apply bind_Ok in Hrun as ([lines1 count1] & Hstep & Hrun).
    apply StronglySorted_inv in Hsorted as [Hsorted Hbelow].
    apply Forall_cons in Hlt as [[Hk [[[funcname i] indent] Hget]] Hlt].
    assert (Hki : line_of fns k = i). { unfold line_of. by rewrite Hget. }
    rewrite Hki in Hk, Hbelow.
    destruct (lookup_lt_is_Some_2 lines i) as [line_i Hline_i]; [lia|].
    rewrite (patch_func_block _ _ _ _ _ _ _ _ _ _ Hget Hline_i) in Hstep.
    apply bind_Ok in Hstep as (block_i & Hblock & [= <- <-]).
    destruct (cut_at lines i n line_i Hline_i Hk Hn) as [Htake Hdrop].
    destruct (IH _ _ _ _ i Hrun Hsorted) as (blocks & Hlen & Heq & Hown).
    { apply Forall_forall. intros k' Hk'. split.
      - by apply (proj1 (Forall_forall _ _) Hbelow).
      - by apply (proj1 (Forall_forall _ _) Hlt). }
    { rewrite length_app, length_take_le by lia. lia. }
    rewrite drop_app_length' in Heq by (rewrite length_take_le; lia).
    exists (blocks ++ block_i
              :: ((fun x => [x]) <$> take (n - S i) (drop (S i) lines))).
    split_and!.
    + rewrite length_app, Hlen. simpl.
      rewrite length_fmap, length_take_le; [lia|].
      rewrite length_drop. lia.
    + rewrite Heq, concat_app, concat_cons, concat_singletons.
      rewrite Hdrop at 1. by rewrite <- !app_assoc.
    + intros j line Hj Hjn.
      destruct (decide (j < i)%nat) as [Hji|Hji].
      { destruct (Hown j line) as (block & Hb & Hcase); [|done|].
        - by rewrite lookup_app_l, lookup_take_lt
            by (rewrite ?length_take_le; lia).
        - exists block. split; [by rewrite lookup_app_l by lia|].
          destruct Hcase as [(k' & fn' & ind' & Hk' & Hget' & Hb')|[Hfree ->]].
          + left. exists k', fn', ind'. split_and!; [by right|done..].
          + right. split; [|done].
            intros k' [->|Hk']%elem_of_cons; [lia|by apply Hfree]. }
      destruct (decide (j = i)) as [->|Hne].
      { exists block_i. split.
        - by rewrite lookup_app_r, Hlen, Nat.sub_diag by lia.
        - left. exists k, funcname, indent.
          rewrite Hline_i in Hj. injection Hj as <-.
          split_and!; [by left|done..]. }
      exists [line]. split.
      * rewrite lookup_app_r by lia. rewrite Hlen.
        replace (j - i)%nat with (S (j - S i)) by lia. simpl.
        rewrite list_lookup_fmap, lookup_take_lt, lookup_drop by lia.
        replace (S i + (j - S i))%nat with j by lia. by rewrite Hj.
      * right. split; [|done].
        intros k' [->|Hk']%elem_of_cons; [lia|].
        pose proof (proj1 (Forall_forall _ _) Hbelow k' Hk') as Hlow.
        cbv beta in Hlow. lia.
Qed.

(** The patch loop on a dictionary whose entries stand in the order of
    their lines: one block per line. *)
Lemma inject_blocks
    (fname : string) (ip : IdlParser.t) (api_lines : list string)
    (fns : dict api_function) (lines' : list string) (count : nat) :
  NoDup (keys fns) →
  StronglySorted lt (recorded_line <$> fns) →
  Forall (fun e => (recorded_line e < length api_lines)%nat) fns →
  inject fname ip fns api_lines = Ok (lines', count) →
  ∃ blocks,
    length blocks = length api_lines
    ∧ lines' = concat blocks
    ∧ ∀ j line,
        api_lines !! j = Some line →
        ∃ block,
          blocks !! j = Some block
          ∧ ((∃ k funcname indent,
                (k, (funcname, j, indent)) ∈ fns
                ∧ block_for fname ip k indent line = Ok block)
             ∨ ((∀ e, e ∈ fns → recorded_line e ≠ j) ∧ block = [line])).
Proof.
  intros Hdup Hsorted Hbound Hinj.
  rewrite Forall_forall in Hbound. unfold inject in Hinj.
  apply patch_loop_linewise with (n := length api_lines) in Hinj
    as (blocks & Hlen & Heq & Hown); [| | |done].
  2:{ apply reversed_keys_decrease; [|done].
      intros e He. by apply line_of_recorded. }
  2:{ apply Forall_forall. intros k Hk.
      rewrite elem_of_reverse in Hk.
      apply list_elem_of_fmap in Hk as (e & -> & He).
      rewrite line_of_recorded by done. split; [by apply Hbound|].
      destruct e as [k f]. cbn [fst].
      rewrite (get_NoDup fns k f) by done. by eexists. }
  rewrite drop_all, app_nil_r in Heq.
  exists blocks. split_and!; [done..|].
  intros j line Hline.
  destruct (Hown j line Hline) as (block & Hb & Hcase);
    [by eapply lookup_lt_Some|].
  exists block. split; [done|].
  destruct Hcase as [(k & fn & ind & Hk & Hget & Hblock)|[Hfree ->]].
  - left. exists k, fn, ind. split; [|done]. by apply get_Some_elem.
  - right. split; [|done]. intros e He Hej. apply (Hfree e.1).
    + rewrite elem_of_reverse. apply list_elem_of_fmap. by exists e.
    + by rewrite line_of_recorded.
Qed.

(** X18.  When the normalised identifiers of the file's exposed functions
    are pairwise distinct and the patch loop completes, its result is the
    file rewritten line by line: the line of an exposed function is
    replaced by the block of that function (for a function without a
    match the line itself; for a matched one the help comment, in base.py
    the IDL comment, and the new signature, all computed from the
    original line), and every other line stays.  Walking the functions
    from the last to the first keeps the recorded line numbers valid. *)
Theorem inject_is_linewise
    (fname : string) (ip : IdlParser.t) (api_lines : list string)
    (seen : list (string * api_function)) (lines' : list string) (count : nat) :
  exposed_functions api_lines = Ok seen →
  NoDup seen.*1 →
  inject fname ip (as_dict seen) api_lines = Ok (lines', count) →
  ∃ blocks,
    length blocks = length api_lines
    ∧ lines' = concat blocks
    ∧ ∀ j line,
        api_lines !! j = Some line →
        ∃ block,
          blocks !! j = Some block
          ∧ ((∃ k funcname indent,
                (k, (funcname, j, indent)) ∈ seen
                ∧ block_for fname ip k indent line = Ok block)
             ∨ ((∀ e, e ∈ seen → recorded_line e ≠ j) ∧ block = [line])).
Proof.
  intros Hexp Hdup Hinj.
  rewrite (as_dict_NoDup seen Hdup) in Hinj.
  destruct (exposed_functions_lines _ _ Hexp) as [Hsorted Hbound].
  by apply (inject_blocks fname ip api_lines seen lines' count).
Qed.

Lemma inject_is_linewise_witness :
  ∃ lines' blocks,
    inject "base.py" buffer_ip (as_dict device_functions) device_lines
    = Ok (lines', 1%nat)
    ∧ length blocks = length device_lines
    ∧ lines' = concat blocks
    ∧ ∀ j line,
        device_lines !! j = Some line →
        ∃ block,
          blocks !! j = Some block
          ∧ ((∃ k funcname indent,
                (k, (funcname, j, indent)) ∈ device_functions
                ∧ block_for "base.py" buffer_ip k indent line = Ok block)
             ∨ ((∀ e, e ∈ device_functions → recorded_line e ≠ j)
                ∧ block = [line])).
Proof.
  assert (Hinj : ∃ lines',
            inject "base.py" buffer_ip (as_dict device_functions) device_lines
            = Ok (lines', 1%nat)).
  { eexists. vm_compute. reflexivity. }
  destruct Hinj as [lines' Hinj]. exists lines'.
  destruct (inject_is_linewise "base.py" buffer_ip device_lines
              device_functions lines' 1%nat) as (blocks & H); [| |done|].
  - vm_compute; reflexivity.
  - apply NoDup_cons. split; [|apply NoDup_singleton].
    by intros [=]%list_elem_of_singleton.
  - exists blocks. by split.
Defined.

(** ** A second run on the patched lines *)

Lemma new_signature_same_head ip func_id (p1 p2 : string) argnames argtypes :
  before_paren p1 = before_paren p2 →
  new_signature ip func_id p1 argnames argtypes
  = new_signature ip func_id p2 argnames argtypes.
Proof.
  intros Heq. unfold new_signature.
  destruct (_ : result (list string)) as [py_args|]; [|done].
  cbn [mbind result_bind]. rewrite !split_head. cbn [mbind result_bind].
  fold (before_paren p1). fold (before_paren p2). by rewrite Heq.
Qed.

Lemma len_app (a b : string) : Py.len (a +:+ b) = (Py.len a + Py.len b)%nat.
Proof.
  unfold Py.len. induction a as [|c a IH]; [done|].
  rewrite append_cons. simpl. by rewrite IH.
Qed.

Lemma before_paren_split (s : string) :
  ∃ w, s = before_paren s +:+ w ∧ (w = "" ∨ ∃ w', w = String "(" w').
Proof.
  induction s as [|c s (w & IH & Hw)]; [exists ""; by split; [|left]|].
  rewrite before_paren_cons. case_decide as Hc.
  - subst. exists (String "(" s). split; [done|right; by eexists].
  - exists w. split; [|done]. by rewrite append_cons, <- IH.
Qed.

(** A prefix without parenthesis of a text lies before the first
    parenthesis. *)
Lemma prefix_before_paren (p x w : string) :
  lacks "(" p = true → (w = "" ∨ ∃ w', w = String "(" w') →
  String.prefix p (x +:+ w) = true → String.prefix p x = true.
Proof.
  intros Hp Hw. revert x. induction p as [|a p IH]; intros x.
  { intros _. apply prefix_empty. }
  cbn [lacks] in Hp. apply andb_true_iff in Hp as [Ha Hp].
  apply negb_true_iff, bool_decide_eq_false in Ha.
  destruct x as [|b x].
  - rewrite append_nil. destruct Hw as [->|[w' ->]]; [done|].
    cbn [String.prefix]. by destruct (ascii_dec a "(").
  - rewrite append_cons. cbn [String.prefix].
    destruct (ascii_dec a b); [by apply IH|done].
Qed.

(** What the scanner reads of a declaration, it reads of the part before
    the parenthesis. *)
Lemma def_line_head_only (line : string) :
  is_def_line line = true →
  ∃ w, line = before_paren line +:+ w
       ∧ Py.lstrip (before_paren line) ≠ ""
       ∧ is_def_line (before_paren line) = true.
Proof.
  intros Hdef. destruct (before_paren_split line) as (w & Hline & Hw).
  exists w. split; [done|].
  destruct (def_line_head line Hdef) as (c & r & Hl & Hc).
  destruct (before_paren_lstrip line c r Hl) as [r' Hr'].
  { by destruct Hc as [-> | ->]. }
  split; [by rewrite Hr'|].
  assert (Hls : Py.lstrip line = Py.lstrip (before_paren line) +:+ w).
  { rewrite <- lstrip_append by (by rewrite Hr'). by rewrite <- Hline. }
  unfold is_def_line, startswith_any, Py.startswith in *.
  rewrite Hls in Hdef.
  cbn [existsb] in *. apply orb_true_iff in Hdef as [H|H].
  - by rewrite (prefix_before_paren "def " _ _ eq_refl Hw H).
  - rewrite orb_false_r in H.
    rewrite (prefix_before_paren "async def" _ _ eq_refl Hw H).
    by rewrite orb_true_r.
Qed.

Lemma def_line_extend (h w : string) :
  Py.lstrip h ≠ "" → is_def_line h = true →
  is_def_line (h +:+ w) = true ∧ indent_of (h +:+ w) = indent_of h.
Proof.
  intros Hh Hdef. unfold is_def_line, indent_of, startswith_any, Py.startswith in *.
  rewrite lstrip_append by done. split.
  - cbn [existsb] in *. apply orb_true_iff in Hdef as [H|H].
    + by rewrite (prefix_append _ _ w H).
    + rewrite orb_false_r in H. rewrite (prefix_append _ _ w H).
      by rewrite orb_true_r.
  - rewrite !len_app. lia.
Qed.

Lemma def_line_same_head (line final : string) :
  is_def_line line = true → before_paren final = before_paren line →
  is_def_line final = true ∧ indent_of final = indent_of line.
Proof.
  intros Hdef Heq.
  destruct (def_line_head_only line Hdef) as (w & Hline & Hne & Hh).
  destruct (before_paren_split final) as (w' & Hfinal & _).
  rewrite Heq in Hfinal.
  destruct (def_line_extend _ w Hne Hh) as [_ Hi].
  destruct (def_line_extend _ w' Hne Hh) as [Hd' Hi'].
  rewrite <- Hline in Hi. rewrite <- Hfinal in Hd', Hi'.
  split; [done|congruence].
Qed.

Lemma same_or_rewritten_head (line final : string) :
  same_or_rewritten line final →
  before_paren final = before_paren line
  ∧ is_def_line final = is_def_line line
  ∧ indent_of final = indent_of line
  ∧ Py.startswith final "class " = Py.startswith line "class "
  ∧ Py.startswith (Py.lstrip final) "@property"
    = Py.startswith (Py.lstrip line) "@property".
Proof.
  intros [->|[Hdef Heq]]; [done|].
  destruct (def_line_same_head line final Hdef Heq) as [Hdef' Hind].
  split_and!; [done|congruence|done| |].
  - by rewrite !def_line_not_class.
  - destruct (def_line_head line Hdef) as (c & r & -> & Hc).
    destruct (def_line_head final Hdef') as (c' & r' & -> & Hc').
    unfold Py.startswith. cbn [String.prefix].
    by destruct Hc as [-> | ->], Hc' as [-> | ->].
Qed.

Lemma class_in_force_related (l l' : list string) :
  Forall2 same_or_rewritten l l' → class_in_force l' = class_in_force l.
Proof.
  unfold class_in_force. generalize (@None string).
  intros cls H. revert cls. induction H as [|line final l l' HR _ IH]; intros cls; [done|].
  cbn [foldl]. rewrite IH. f_equal.
  destruct HR as [->|[Hdef Heq]]; [done|].
  destruct (def_line_same_head line final Hdef Heq) as [Hdef' _].
  by rewrite !def_line_not_class.
Qed.

Lemma line_before_related (l l' : list string) (i : nat) (before before' : string) :
  Forall2 same_or_rewritten l l' →
  line_before l i = Ok before → line_before l' i = Ok before' →
  same_or_rewritten before before'.
Proof.
  intros HR. pose proof (Forall2_length _ _ _ HR) as Hlen.
  unfold line_before, item_last. destruct i as [|j].
  - rewrite !last_lookup, <- Hlen.
    destruct (l !! pred (length l)) eqn:H1; [|done].
    destruct (l' !! pred (length l)) eqn:H2; [|done].
    intros [= <-] [= <-]. by eapply Forall2_lookup_lr.
  - intros H1%item_Ok H2%item_Ok. by eapply Forall2_lookup_lr.
Qed.

(** The body of the scanning loop does not tell a file from the same
    file with rewritten declarations. *)
Lemma scan_line_related (l l' : list string) (i : nat) (line final : string)
    (cls : option string) :
  Forall2 same_or_rewritten l l' →
  l !! i = Some line → l' !! i = Some final →
  scan_line l' i final cls = scan_line l i line cls.
Proof.
  intros HR Hline Hfinal.
  pose proof (Forall2_lookup_lr _ _ _ _ _ _ HR Hline Hfinal) as Hrel.
  destruct (same_or_rewritten_head _ _ Hrel) as (Hhead & Hdef & Hind & Hcls & _).
  destruct (scan_line_cases l i line cls Hline)
    as [[Hd ->]|(Hd & name & before & Hname & Hbefore & ->)];
    destruct (scan_line_cases l' i final cls Hfinal)
      as [[Hd' ->]|(Hd' & name' & before' & Hname' & Hbefore' & ->)];
    try congruence.
  - destruct Hrel as [->|[? _]]; [done|congruence].
  - rewrite Hhead, Hname in Hname'. injection Hname' as <-.
    pose proof (line_before_related _ _ _ _ _ HR Hbefore Hbefore') as Hb.
    destruct (same_or_rewritten_head _ _ Hb) as (_ & _ & _ & _ & ->).
    by rewrite Hind.
Qed.

Lemma mapM_ext_lookup {A B} (f f' : A → result B) (l l' : list A) :
  length l = length l' →
  (∀ i x x', l !! i = Some x → l' !! i = Some x' → f x = f' x') →
  mapM f l = mapM f' l'.
Proof.
  revert l'. induction l as [|x l IH]; intros [|x' l'] Hlen Hext; try done.
  cbn [mapM]. rewrite (Hext 0%nat x x') by done.
  rewrite (IH l'); [done|by injection Hlen|].
  intros i y y' Hy Hy'. by apply (Hext (S i)).
Qed.

Lemma exposed_functions_related (l l' : list string) :
  Forall2 same_or_rewritten l l' →
  exposed_functions l' = exposed_functions l.
Proof.
  intros HR. pose proof (Forall2_length _ _ _ HR) as Hlen.
  rewrite !exposed_functions_per_line.
  rewrite (mapM_ext_lookup _
             (fun '(i, line) => r ← scan_at l i line; Ok r.2)
             (imap pair l') (imap pair l)); [done|by rewrite !length_imap|].
  intros j [i' final] [i line]. rewrite !list_lookup_imap.
  destruct (l' !! j) as [final'|] eqn:Hf; [|done].
  destruct (l !! j) as [line'|] eqn:Hl; [|done].
  intros [= <- <-] [= <- <-]. unfold scan_at.
  rewrite (class_in_force_related (take j l) (take j l'))
    by (by apply Forall2_take).
  by rewrite (scan_line_related l l' j line' final').
Qed.

(** The block of a function ends with the line that takes the place of
    its declaration, and is the block of that line too. *)
Lemma block_for_last fname ip func_id indent line block :
  block_for fname ip func_id indent line = Ok block →
  ∃ comments final,
    block = comments ++ [final]
    ∧ Forall (fun c => is_marker c = true) comments
    ∧ before_paren final = before_paren line
    ∧ (comments = [] → final = line)
    ∧ block_for fname ip func_id indent final = Ok block.
Proof.
  intros H.
  assert (Hstay : block = [line] →
            ∃ comments final,
              block = comments ++ [final]
              ∧ Forall (fun c => is_marker c = true) comments
              ∧ before_paren final = before_paren line
              ∧ (comments = [] → final = line)
              ∧ block_for fname ip func_id indent final = Ok block).
  { intros ->. by exists [], line. }
  unfold block_for in H.
  destruct (get_func_id_match func_id (IdlParser.functions ip)) as [m|] eqn:Hm.
  2:{ injection H as <-. by apply Hstay. }
  destruct (Py.truthy m) eqn:Htruthy; cbn [negb] in H.
  2:{ injection H as <-. by apply Hstay. }
  clear Hstay.
  apply bind_Ok in H as (decl & Hdecl & H).
  apply bind_Ok in H as (args & Hargs & H).
  apply bind_Ok in H as (argnames & Hnames & H).
  apply bind_Ok in H as (argtypes & Htypes & H).
  apply bind_Ok in H as (sig & Hsig & [= <-]).
  pose proof (new_signature_before_paren _ _ _ _ _ _ Hsig) as Hhead.
  exists ([help_comment indent (help_searches m argtypes)]
            ++ (if bool_decide (fname = "base.py")
                then [idl_comment indent decl] else [])), sig.
  split_and!; [done| |done|done|].
  - case_bool_decide; repeat constructor;
      apply is_marker_help || apply is_marker_idl.
  - unfold block_for. rewrite Hm, Htruthy. cbn [negb].
    rewrite Hdecl. cbn [mbind result_bind]. rewrite Hargs.
    cbn [mbind result_bind]. rewrite Hnames. cbn [mbind result_bind].
    rewrite Htypes. cbn [mbind result_bind].
    rewrite (new_signature_same_head ip func_id sig line) by done.
    by rewrite Hsig.
Qed.

Lemma filter_concat_finals (blocks : list (list string)) :
  Forall
    (fun block =>
       List.filter (fun l => negb (is_marker l)) block = [default "" (last block)])
    blocks →
  List.filter (fun l => negb (is_marker l)) (concat blocks)
  = (fun block => default "" (last block)) <$> blocks.
Proof.
  induction 1 as [|block blocks Hb _ IH]; [done|].
  by rewrite concat_cons, List.filter_app, Hb, IH.
Qed.

(** The patch loop runs through when every function has a block. *)
Lemma patch_loop_runs fname ip (fns : dict api_function) ks :
  ∀ lines count n,
    StronglySorted (fun a b => (line_of fns b < line_of fns a)%nat) ks →
    Forall
      (fun k =>
         (line_of fns k < n)%nat
         ∧ ∃ funcname indent pyline block,
             get fns k = Some (funcname, line_of fns k, indent)
             ∧ lines !! line_of fns k = Some pyline
             ∧ block_for fname ip k indent pyline = Ok block) ks →
    (n ≤ length lines)%nat →
    ∃ lines' count',
      for_r ks (patch_func fname ip fns) (lines, count) = Ok (lines', count').
Proof.
  induction ks as [|k ks IH]; intros lines count n Hsorted Hall Hn.
  - by eexists _, _.
  - apply StronglySorted_inv in Hsorted as [Hsorted Hbelow].
    apply Forall_cons in Hall
      as [(Hk & funcname & indent & pyline & block & Hget & Hpy & Hblock) Hall].
    cbn [for_r]. rewrite (patch_func_block _ _ _ _ _ _ _ _ _ _ Hget Hpy).
    rewrite Hblock. cbn [mbind result_bind].
    apply (IH _ _ (line_of fns k)); [done| |].
    + apply Forall_forall. intros k' Hk'.
      pose proof (proj1 (Forall_forall _ _) Hbelow k' Hk') as Hlow.
      pose proof (proj1 (Forall_forall _ _) Hall k' Hk')
        as (_ & fn' & ind' & py' & block' & Hget' & Hpy' & Hblock').
      cbv beta in Hlow. split; [done|].
      exists fn', ind', py', block'. split_and!; [done| |done].
      by rewrite lookup_app_l, lookup_take_lt
        by (rewrite ?length_take_le; lia).
    + rewrite length_app, length_take_le by lia. lia.
Qed.

(** The lines of the patched file without the marker comments, beside
    the lines of the original file. *)
Lemma inject_finals
    (fname : string) (ip : IdlParser.t) (api_lines : list string)
    (seen : list (string * api_function)) (lines' : list string) (count : nat) :
  Forall (fun line => is_marker line = false) api_lines →
  exposed_functions api_lines = Ok seen →
  NoDup seen.*1 →
  inject fname ip (as_dict seen) api_lines = Ok (lines', count) →
  ∃ blocks,
    length blocks = length api_lines
    ∧ lines' = concat blocks
    ∧ List.filter (fun l => negb (is_marker l)) lines'
      = (fun block => default "" (last block)) <$> blocks
    ∧ ∀ j line,
        api_lines !! j = Some line →
        ∃ block final,
          blocks !! j = Some block
          ∧ last block = Some final
          ∧ same_or_rewritten line final
          ∧ ((∃ k funcname indent,
                (k, (funcname, j, indent)) ∈ seen
                ∧ block_for fname ip k indent line = Ok block
                ∧ block_for fname ip k indent final = Ok block)
             ∨ ((∀ e, e ∈ seen → recorded_line e ≠ j)
                ∧ block = [line] ∧ final = line)).
Proof.
  intros Hclean Hexp Hdup Hinj.
  rewrite (as_dict_NoDup seen Hdup) in Hinj.
  destruct (exposed_functions_lines _ _ Hexp) as [Hsorted Hbound].
  destruct (inject_blocks _ _ _ _ _ _ Hdup Hsorted Hbound Hinj)
    as (blocks & Hlen & Heq & Hown).
  assert (Hper : ∀ j line,
            api_lines !! j = Some line →
            ∃ block final,
              blocks !! j = Some block
              ∧ last block = Some final
              ∧ same_or_rewritten line final
              ∧ List.filter (fun l => negb (is_marker l)) block = [final]
              ∧ ((∃ k funcname indent,
                    (k, (funcname, j, indent)) ∈ seen
                    ∧ block_for fname ip k indent line = Ok block
                    ∧ block_for fname ip k indent final = Ok block)
                 ∨ ((∀ e, e ∈ seen → recorded_line e ≠ j)
                    ∧ block = [line] ∧ final = line))).
  { intros j line Hline.
    pose proof (proj1 (Forall_forall _ _) Hclean line
                  (list_elem_of_lookup_2 _ _ _ Hline)) as Hline_clean.
    cbv beta in Hline_clean.
    destruct (Hown j line Hline) as (block & Hb & Hcase).
    destruct Hcase as [(k & fn & ind & Hk & Hblock)|[Hfree ->]].
    - destruct (block_for_last _ _ _ _ _ _ Hblock)
        as (comments & final & -> & Hmarkers & Hhead & Hsame & Hstable).
      destruct (exposed_function_line _ _ _ Hexp Hk) as (line' & Hline' & Hdef).
      cbn in Hline'. rewrite Hline in Hline'. injection Hline' as <-.
      exists (comments ++ [final]), final. split_and!.
      + done.
      + apply last_snoc.
      + right. by split.
      + rewrite List.filter_app, filter_markers_out by done. simpl.
        by rewrite (def_head_not_marker line final).
      + left. by exists k, fn, ind.
    - exists [line], line. split_and!; [done|done|by left| |by right].
      simpl. by rewrite Hline_clean. }
  exists blocks. split_and!; [done|done| |].
  - rewrite Heq. apply filter_concat_finals, Forall_forall.
    intros block Hin. apply list_elem_of_lookup in Hin as [j Hj].
    destruct (lookup_lt_is_Some_2 api_lines j) as [line Hline].
    { rewrite <- Hlen. by eapply lookup_lt_Some. }
    destruct (Hper j line Hline) as (block' & final & Hb & Hlast & _ & Hf & _).
    rewrite Hj in Hb. injection Hb as <-. by rewrite Hlast.
  - intros j line Hline.
    destruct (Hper j line Hline) as (block & final & Hb & Hlast & HR & _ & Hcase).
    by exists block, final.
Qed.

(** X19.  The patcher is stable on its own output.  When the normalised
    identifiers of the file's exposed functions are pairwise distinct and
    the patch loop completes, the patched lines without their marker
    comments (what the next run reads) scan to the same functions, with
    the same names, lines and indents, and patching them again gives the
    same patched lines and the same count. *)
Theorem repatch_is_stable
    (fname : string) (ip : IdlParser.t) (api_lines : list string)
    (seen : list (string * api_function)) (lines' : list string) (count : nat) :
  Forall (fun line => is_marker line = false) api_lines →
  exposed_functions api_lines = Ok seen →
  NoDup seen.*1 →
  inject fname ip (as_dict seen) api_lines = Ok (lines', count) →
  let again := List.filter (fun l => negb (is_marker l)) lines' in
  exposed_functions again = Ok seen
  ∧ detect_api_functions again = Ok (as_dict seen)
  ∧ inject fname ip (as_dict seen) again = Ok (lines', count).
Proof.
  intros Hclean Hexp Hdup Hinj again.
  destruct (inject_finals _ _ _ _ _ _ Hclean Hexp Hdup Hinj)
    as (blocks & Hlen & Heq & Hagain & Hper).
  fold again in Hagain.
  assert (Hlen' : length again = length api_lines).
  { by rewrite Hagain, length_fmap. }
  assert (Hlook : ∀ j line,
            api_lines !! j = Some line →
            ∃ block final,
              blocks !! j = Some block ∧ again !! j = Some final
              ∧ same_or_rewritten line final
              ∧ ((∃ k funcname indent,
                    (k, (funcname, j, indent)) ∈ seen
                    ∧ block_for fname ip k indent line = Ok block
                    ∧ block_for fname ip k indent final = Ok block)
                 ∨ ((∀ e, e ∈ seen → recorded_line e ≠ j)
                    ∧ block = [line] ∧ final = line))).
  { intros j line Hline.
    destruct (Hper j line Hline) as (block & final & Hb & Hlast & HR & Hcase).
    exists block, final. split_and!; [done| |done|done].
    rewrite Hagain, list_lookup_fmap, Hb. simpl. by rewrite Hlast. }
  assert (HR : Forall2 same_or_rewritten api_lines again).
  { apply Forall2_same_length_lookup. split; [done|].
    intros j line final Hline Hfinal.
    destruct (Hlook j line Hline) as (block & final' & _ & Hf & HR & _).
    rewrite Hfinal in Hf. by injection Hf as <-. }
  assert (Hexp' : exposed_functions again = Ok seen).
  { by rewrite (exposed_functions_related api_lines again). }
  split; [done|]. split; [by rewrite detect_exposed, Hexp'|].
  pose proof (as_dict_NoDup seen Hdup) as Hd. rewrite Hd in Hinj |- *.
  destruct (exposed_functions_lines _ _ Hexp) as [Hsorted Hbound].
  pose proof Hbound as Hbound0. rewrite Forall_forall in Hbound.
  assert (Hsorted' : StronglySorted
            (fun a b => (line_of seen b < line_of seen a)%nat)
            (reverse (keys seen))).
  { apply reversed_keys_decrease; [|done].
    intros e He. by apply line_of_recorded. }
  destruct (patch_loop_runs fname ip seen (reverse (keys seen)) again 0%nat
              (length again) Hsorted') as (lines2 & count2 & Hrun); [|done|].
  { apply Forall_forall. intros k Hk.
    rewrite elem_of_reverse in Hk.
    apply list_elem_of_fmap in Hk as ([k' [[fn i] ind]] & -> & He).
    pose proof (line_of_recorded seen _ Hdup He) as Hline_of.
    cbn in Hline_of. cbn [fst]. rewrite Hline_of.
    pose proof (Hbound _ He) as Hi. cbn in Hi. split; [lia|].
    destruct (lookup_lt_is_Some_2 api_lines i Hi) as [line Hline].
    destruct (Hlook i line Hline)
      as (block & final & _ & Hf & _ & [(k2 & fn2 & ind2 & He2 & _ & Hb2)|[Hfree _]]).
    - assert ((k2, (fn2, i, ind2)) = (k', (fn, i, ind))) as [= -> -> ->].
      { by apply (sorted_lines_inj seen). }
      exists fn, ind, final, block. split_and!; [by apply get_NoDup|done..].
    - by destruct (Hfree _ He). }
  destruct (exposed_functions_lines _ _ Hexp') as [_ Hbound'].
  destruct (inject_blocks _ _ _ _ _ _ Hdup Hsorted Hbound' Hrun)
    as (blocks2 & Hlen2 & Heq2 & Hown2).
  unfold inject. rewrite Hrun. f_equal. f_equal.
  - rewrite Heq, Heq2. f_equal. apply list_eq. intros j.
    destruct (api_lines !! j) as [line|] eqn:Hline.
    + destruct (Hlook j line Hline) as (block & final & Hb & Hf & _ & Hcase).
      destruct (Hown2 j final Hf) as (block2 & Hb2 & Hcase2).
      rewrite Hb, Hb2. f_equal.
      destruct Hcase as [(k & fn & ind & He & _ & Hblock)|(Hfree & -> & ->)];
        destruct Hcase2 as [(k2 & fn2 & ind2 & He2 & Hblock2)|[Hfree2 ->]].
      * assert ((k2, (fn2, j, ind2)) = (k, (fn, j, ind))) as [= -> -> ->].
        { by apply (sorted_lines_inj seen). }
        congruence.
      * by destruct (Hfree2 _ He).
      * by destruct (Hfree _ He2).
      * done.
    + apply lookup_ge_None in Hline.
      rewrite !(proj2 (lookup_ge_None _ _)); [done|lia..].
  - unfold inject in Hinj.
    apply patch_loop_count in Hinj as [-> _].
    by apply patch_loop_count in Hrun as [-> _].
Qed.

Lemma repatch_is_stable_witness :
  ∃ lines',
    inject "base.py" buffer_ip (as_dict device_functions) device_lines
    = Ok (lines', 1%nat)
    ∧ exposed_functions (List.filter (fun l => negb (is_marker l)) lines')
      = Ok device_functions
    ∧ detect_api_functions (List.filter (fun l => negb (is_marker l)) lines')
      = Ok (as_dict device_functions)
    ∧ inject "base.py" buffer_ip (as_dict device_functions)
        (List.filter (fun l => negb (is_marker l)) lines')
      = Ok (lines', 1%nat).
Proof.
  eexists. split; [vm_compute; reflexivity|].
  apply (repatch_is_stable "base.py" buffer_ip device_lines device_functions
           _ 1%nat).
  - by repeat constructor.
  - vm_compute; reflexivity.
  - apply NoDup_cons. split; [|apply NoDup_singleton].
    by intros [=]%list_elem_of_singleton.
  - vm_compute; reflexivity.
Defined.

(** ** The post-processing of [blacken] *)

Lemma replace_absent (s old new : string) :
  Py.contains s old = false → Py.replace s old new = s.
Proof.
  unfold Py.replace. induction s as [|c s IH]; [done|].
  rewrite contains_cons. intros [Hp Hs]%orb_false_iff.
  cbn [Py.replace_from]. rewrite Hp. by rewrite IH.
Qed.

(** X20.  In single-line mode [blacken] returns the formatter's output
    as it is when the formatter reports no error and its output has no
    signature spread over three lines, that is, neither an opening
    parenthesis followed by a newline and [self] behind eight blanks,
    nor a comma followed by a newline and the closing [):] behind four
    blanks. *)
Theorem blacken_singleline_passes
    (black : Z → string → string * string) (src : string) :
  let output := black 9999999%Z (remove_noqas src) in
  Py.contains (Py.lower output.2) "error" = false →
  Py.contains output.1 ("(" +:+ nl +:+ "        self") = false →
  Py.contains output.1 ("," +:+ nl +:+ "    ):" +:+ nl) = false →
  blacken black src true = Ok output.1.
Proof.
  intros output Hlog H1 H2. unfold blacken. fold output.
  destruct output as [result log]. cbn [fst snd] in *.
  rewrite Hlog. unfold join_signatures.
  rewrite (replace_absent result) by done. by rewrite replace_absent.
Qed.

Lemma blacken_singleline_passes_witness :
  blacken silent_black ("x = 1  # noqa: E501" +:+ nl +:+ "y = 2") true
  = Ok ("x = 1  " +:+ nl +:+ "y = 2").
Proof.
  apply (blacken_singleline_passes silent_black
           ("x = 1  # noqa: E501" +:+ nl +:+ "y = 2")); reflexivity.
Defined.

(** ** The generated containers *)





